(** * Groq client: admission and scheduling pipeline

    A shallow embedding of the core of the client library
    ([core/rate_limit_handler.py], [core/model_registry.py],
    [core/token_counter.py], [handlers/text_generation.py],
    [core/queue_manager.py], [exceptions/errors.py]) and the properties of
    its specification.

    Conventions of the embedding.
    - Python [int] is [Z].  Wall-clock readings and durations ([float]) are
      exact rationals [Q]: the code only compares, adds and subtracts them.
    - A method that mutates [self] takes the object and returns the new
      object next to its outcome; an outcome is [Ok v] or [Raise e].
    - Locks are not modelled: every method body runs atomically, and the
      handlers of the form [except Exception as e: raise LockError(...)]
      that surround the critical sections are modelled for the exceptions
      the body itself raises.
    - An exception that embeds [str(e)] of another one in its message
      carries that exception as its cause. *)

From Stdlib Require Import ZArith QArith Qround Bool List String Ascii Lia Lqa.
From stdpp Require Import base option list strings pretty gmap.
Import ListNotations.

Local Open Scope string_scope.
Local Open Scope Z_scope.

(** ** Exceptions ([exceptions/errors.py]) *)

Inductive exn : Type :=
| ValidationError (field : string)
| MessageFormatError (message_index : nat)
| InvalidModel (model : string)
| TokenLimitExceeded (requested_tokens max_tokens : Z)
| RateLimitExceeded (code : string) (wait_time : option Q)
| QueueFullError (queue_size max_size : Z)
| RequestTimeoutError (cause : exn)
| TokenCounterError (cause : exn)
| EncodingError (model : string) (encoding : string)
| TextGenerationError (model : string) (cause : exn)
| ThreadingError (cause : exn)
| LockError (cause : exn)
| RetryError (max_retries : Z) (last_error : exn)
| AsyncioTimeoutError
| PyException (what : string).

(** [isinstance(e, MessageFormatError)]: the class has no subclass. *)
Definition is_MessageFormatError (e : exn) : bool :=
  match e with MessageFormatError _ => true | _ => false end.

(** [isinstance(e, ValidationError)]: [MessageFormatError] derives from it. *)
Definition is_ValidationError (e : exn) : bool :=
  match e with ValidationError _ | MessageFormatError _ => true | _ => false end.

Definition is_RateLimitExceeded (e : exn) : bool :=
  match e with RateLimitExceeded _ _ => true | _ => false end.

(** [isinstance(e, QueueFullError)] *)
Definition is_QueueFullError (e : exn) : bool :=
  match e with QueueFullError _ _ => true | _ => false end.

Definition is_TokenLimitExceeded (e : exn) : bool :=
  match e with TokenLimitExceeded _ _ => true | _ => false end.

Definition is_RetryError (e : exn) : bool :=
  match e with RetryError _ _ => true | _ => false end.

Inductive result (A : Type) : Type :=
| Ok (a : A)
| Raise (e : exn).
Arguments Ok {A} a.
Arguments Raise {A} e.

Definition is_ok {A} (r : result A) : bool :=
  match r with Ok _ => true | Raise _ => false end.

(** ** Rate-limit tracker ([core/rate_limit_handler.py]) *)

Record RateLimitHandler : Type := {
  request_limit : Z;
  request_remaining : Z;
  request_reset_time : Q;
  token_limit : Z;
  token_remaining : Z;
  token_reset_time : Q;
  audio_seconds_limit : Z;
  audio_seconds_remaining : Z;
  audio_seconds_reset_time : Q;
  last_update : Q
}.

(** [RateLimitHandler.__init__] *)
Definition RateLimitHandler_init : RateLimitHandler :=
  {| request_limit := 0; request_remaining := 0; request_reset_time := 0%Q;
     token_limit := 0; token_remaining := 0; token_reset_time := 0%Q;
     audio_seconds_limit := 0; audio_seconds_remaining := 0;
     audio_seconds_reset_time := 0%Q;
     last_update := 0%Q |}.

(** [a < b] and [a <= b] on clock readings, as booleans. *)
Definition Qltb (a b : Q) : bool := negb (Qle_bool b a).

Definition set_request_remaining (v : Z) (h : RateLimitHandler) :=
  {| request_limit := request_limit h; request_remaining := v;
     request_reset_time := request_reset_time h;
     token_limit := token_limit h; token_remaining := token_remaining h;
     token_reset_time := token_reset_time h;
     audio_seconds_limit := audio_seconds_limit h;
     audio_seconds_remaining := audio_seconds_remaining h;
     audio_seconds_reset_time := audio_seconds_reset_time h;
     last_update := last_update h |}.

Definition set_request_limit (v : Z) (h : RateLimitHandler) :=
  {| request_limit := v; request_remaining := request_remaining h;
     request_reset_time := request_reset_time h;
     token_limit := token_limit h; token_remaining := token_remaining h;
     token_reset_time := token_reset_time h;
     audio_seconds_limit := audio_seconds_limit h;
     audio_seconds_remaining := audio_seconds_remaining h;
     audio_seconds_reset_time := audio_seconds_reset_time h;
     last_update := last_update h |}.

Definition set_request_reset_time (v : Q) (h : RateLimitHandler) :=
  {| request_limit := request_limit h; request_remaining := request_remaining h;
     request_reset_time := v;
     token_limit := token_limit h; token_remaining := token_remaining h;
     token_reset_time := token_reset_time h;
     audio_seconds_limit := audio_seconds_limit h;
     audio_seconds_remaining := audio_seconds_remaining h;
     audio_seconds_reset_time := audio_seconds_reset_time h;
     last_update := last_update h |}.

Definition set_token_limit (v : Z) (h : RateLimitHandler) :=
  {| request_limit := request_limit h; request_remaining := request_remaining h;
     request_reset_time := request_reset_time h;
     token_limit := v; token_remaining := token_remaining h;
     token_reset_time := token_reset_time h;
     audio_seconds_limit := audio_seconds_limit h;
     audio_seconds_remaining := audio_seconds_remaining h;
     audio_seconds_reset_time := audio_seconds_reset_time h;
     last_update := last_update h |}.

Definition set_token_remaining (v : Z) (h : RateLimitHandler) :=
  {| request_limit := request_limit h; request_remaining := request_remaining h;
     request_reset_time := request_reset_time h;
     token_limit := token_limit h; token_remaining := v;
     token_reset_time := token_reset_time h;
     audio_seconds_limit := audio_seconds_limit h;
     audio_seconds_remaining := audio_seconds_remaining h;
     audio_seconds_reset_time := audio_seconds_reset_time h;
     last_update := last_update h |}.

Definition set_token_reset_time (v : Q) (h : RateLimitHandler) :=
  {| request_limit := request_limit h; request_remaining := request_remaining h;
     request_reset_time := request_reset_time h;
     token_limit := token_limit h; token_remaining := token_remaining h;
     token_reset_time := v;
     audio_seconds_limit := audio_seconds_limit h;
     audio_seconds_remaining := audio_seconds_remaining h;
     audio_seconds_reset_time := audio_seconds_reset_time h;
     last_update := last_update h |}.

Definition set_audio_seconds_limit (v : Z) (h : RateLimitHandler) :=
  {| request_limit := request_limit h; request_remaining := request_remaining h;
     request_reset_time := request_reset_time h;
     token_limit := token_limit h; token_remaining := token_remaining h;
     token_reset_time := token_reset_time h;
     audio_seconds_limit := v;
     audio_seconds_remaining := audio_seconds_remaining h;
     audio_seconds_reset_time := audio_seconds_reset_time h;
     last_update := last_update h |}.

Definition set_audio_seconds_remaining (v : Z) (h : RateLimitHandler) :=
  {| request_limit := request_limit h; request_remaining := request_remaining h;
     request_reset_time := request_reset_time h;
     token_limit := token_limit h; token_remaining := token_remaining h;
     token_reset_time := token_reset_time h;
     audio_seconds_limit := audio_seconds_limit h;
     audio_seconds_remaining := v;
     audio_seconds_reset_time := audio_seconds_reset_time h;
     last_update := last_update h |}.

Definition set_audio_seconds_reset_time (v : Q) (h : RateLimitHandler) :=
  {| request_limit := request_limit h; request_remaining := request_remaining h;
     request_reset_time := request_reset_time h;
     token_limit := token_limit h; token_remaining := token_remaining h;
     token_reset_time := token_reset_time h;
     audio_seconds_limit := audio_seconds_limit h;
     audio_seconds_remaining := audio_seconds_remaining h;
     audio_seconds_reset_time := v;
     last_update := last_update h |}.

Definition set_last_update (v : Q) (h : RateLimitHandler) :=
  {| request_limit := request_limit h; request_remaining := request_remaining h;
     request_reset_time := request_reset_time h;
     token_limit := token_limit h; token_remaining := token_remaining h;
     token_reset_time := token_reset_time h;
     audio_seconds_limit := audio_seconds_limit h;
     audio_seconds_remaining := audio_seconds_remaining h;
     audio_seconds_reset_time := audio_seconds_reset_time h;
     last_update := v |}.

(** The block that [can_proceed], [wait_if_needed] (after its sleep) and
    [get_status] each run under the lock:
<<
    if self.request_reset_time > 0 and current_time >= self.request_reset_time:
        self.request_remaining = self.request_limit
        self.request_reset_time = 0
>>
    and the same for the token and the audio-seconds window. *)
Definition reset_requests_if_due (current_time : Q) (h : RateLimitHandler) :=
  if Qltb 0 (request_reset_time h) && Qle_bool (request_reset_time h) current_time
  then set_request_reset_time 0 (set_request_remaining (request_limit h) h)
  else h.

Definition reset_tokens_if_due (current_time : Q) (h : RateLimitHandler) :=
  if Qltb 0 (token_reset_time h) && Qle_bool (token_reset_time h) current_time
  then set_token_reset_time 0 (set_token_remaining (token_limit h) h)
  else h.

Definition reset_audio_seconds_if_due (current_time : Q) (h : RateLimitHandler) :=
  if Qltb 0 (audio_seconds_reset_time h)
     && Qle_bool (audio_seconds_reset_time h) current_time
  then set_audio_seconds_reset_time 0
         (set_audio_seconds_remaining (audio_seconds_limit h) h)
  else h.

Definition lazy_reset (current_time : Q) (h : RateLimitHandler) : RateLimitHandler :=
  reset_audio_seconds_if_due current_time
    (reset_tokens_if_due current_time
       (reset_requests_if_due current_time h)).

(** [RateLimitHandler.can_proceed(tokens=0, requests=1, audio_seconds=0)],
    with [current_time] the reading of [time.time()]. *)
Definition can_proceed (h : RateLimitHandler) (current_time : Q)
    (tokens requests audio_seconds : Z) : RateLimitHandler * result bool :=
  if tokens <? 0 then (h, Raise (ValidationError "tokens"))
  else if requests <? 0 then (h, Raise (ValidationError "requests"))
  else if audio_seconds <? 0 then (h, Raise (ValidationError "audio_seconds"))
  else
    let h := lazy_reset current_time h in
    if (0 <? request_limit h) && (request_remaining h <? requests)
    then (h, Ok false)
    else if (0 <? token_limit h) && (token_remaining h <? tokens)
    then (h, Ok false)
    else if (0 <? audio_seconds_limit h)
            && (audio_seconds_remaining h <? audio_seconds)
    then (h, Ok false)
    else (h, Ok true).

(** The three quota windows, as a view on the nine fields. *)
Inductive window : Type := Requests | Tokens | AudioSeconds.

Definition limit_of (w : window) (h : RateLimitHandler) : Z :=
  match w with
  | Requests => request_limit h
  | Tokens => token_limit h
  | AudioSeconds => audio_seconds_limit h
  end.

Definition remaining_of (w : window) (h : RateLimitHandler) : Z :=
  match w with
  | Requests => request_remaining h
  | Tokens => token_remaining h
  | AudioSeconds => audio_seconds_remaining h
  end.

Definition reset_at_of (w : window) (h : RateLimitHandler) : Q :=
  match w with
  | Requests => request_reset_time h
  | Tokens => token_reset_time h
  | AudioSeconds => audio_seconds_reset_time h
  end.

(** What a call [can_proceed(tokens, requests, audio_seconds)] asks of a window. *)
Definition requested (w : window) (tokens requests audio_seconds : Z) : Z :=
  match w with
  | Requests => requests
  | Tokens => tokens
  | AudioSeconds => audio_seconds
  end.

(** *** The clock

    [time.time()] reads [clock]; [time.sleep(d)] advances it by [d] and is
    recorded, so that a run shows whether and how long it slept. *)
Record World : Type := {
  clock : Q;
  sleeps : list Q
}.

Definition time_sleep (d : Q) (w : World) : World :=
  {| clock := (clock w + d)%Q; sleeps := sleeps w ++ [d] |}.

(** Python's [max(a, b)]: [b] when [b > a], otherwise [a]. *)
Definition py_max (a b : Q) : Q := if Qltb a b then b else a.

(** The wait that [wait_if_needed] computes under the lock, before the
    test against the cap. *)
Definition computed_wait (h : RateLimitHandler) (current_time : Q) : Q :=
  let wait_time := 0%Q in
  let wait_time :=
    if Qltb 0 (request_reset_time h) && Qltb current_time (request_reset_time h)
    then py_max wait_time (request_reset_time h - current_time)%Q
    else wait_time in
  let wait_time :=
    if Qltb 0 (token_reset_time h) && Qltb current_time (token_reset_time h)
    then py_max wait_time (token_reset_time h - current_time)%Q
    else wait_time in
  let wait_time :=
    if Qltb 0 (audio_seconds_reset_time h)
       && Qltb current_time (audio_seconds_reset_time h)
    then py_max wait_time (audio_seconds_reset_time h - current_time)%Q
    else wait_time in
  if Qeq_bool wait_time 0 then 60%Q else wait_time.

(** [RateLimitHandler.wait_if_needed()].  The [raise RateLimitExceeded]
    stands inside [try: ... except Exception as e: raise LockError(...)],
    so what leaves the method is the [LockError]. *)
Definition wait_if_needed (h : RateLimitHandler) (w : World)
    : RateLimitHandler * World * result unit :=
  let current_time := clock w in
  let wait_time := computed_wait h current_time in
  let locked : result unit :=
    if Qltb 300 wait_time
    then Raise (RateLimitExceeded "RATE_LIMIT_WAIT_TOO_LONG" (Some wait_time))
    else Ok tt in
  match locked with
  | Raise e => (h, w, Raise (LockError e))
  | Ok _ =>
      if Qltb 0 wait_time then
        let w := time_sleep wait_time w in
        let current_time := clock w in
        (lazy_reset current_time h, w, Ok tt)
      else (h, w, Ok tt)
  end.

(** The fields of the dictionary that [get_status] returns. *)
Record Status : Type := {
  st_request_limit : Z;
  st_request_remaining : Z;
  st_request_reset_time : Q;
  st_token_limit : Z;
  st_token_remaining : Z;
  st_token_reset_time : Q;
  st_audio_seconds_limit : Z;
  st_audio_seconds_remaining : Z;
  st_audio_seconds_reset_time : Q;
  st_last_update : Q;
  st_current_time : Q;
  st_has_rate_limit_info : bool;
  st_time_since_update : Q
}.

Definition _has_rate_limit_info (h : RateLimitHandler) : bool :=
  (0 <? request_limit h) || (0 <? token_limit h) || Qltb 0 (last_update h).

(** [RateLimitHandler.get_status()] *)
Definition get_status (h : RateLimitHandler) (current_time : Q)
    : RateLimitHandler * Status :=
  let h := lazy_reset current_time h in
  (h,
   {| st_request_limit := request_limit h;
      st_request_remaining := request_remaining h;
      st_request_reset_time := request_reset_time h;
      st_token_limit := token_limit h;
      st_token_remaining := token_remaining h;
      st_token_reset_time := token_reset_time h;
      st_audio_seconds_limit := audio_seconds_limit h;
      st_audio_seconds_remaining := audio_seconds_remaining h;
      st_audio_seconds_reset_time := audio_seconds_reset_time h;
      st_last_update := last_update h;
      st_current_time := current_time;
      st_has_rate_limit_info := _has_rate_limit_info h;
      st_time_since_update :=
        if Qltb 0 (last_update h) then (current_time - last_update h)%Q
        else 0%Q |}).

(** *** Python strings and the built-ins used on them

    A Python [str] is modelled by a [string] that holds one character per
    code point, so the model covers the strings whose code points are
    below 256.  The values of response headers are such strings
    ([http.client] decodes header lines as ISO-8859-1).  Among these code
    points the decimal digits of the regular-expression class [\d] and of
    [int()] are the ten ASCII digits. *)

Definition is_digit (c : ascii) : bool :=
  let n := N_of_ascii c in ((48 <=? n) && (n <=? 57))%N.

Definition is_letter (c : ascii) : bool :=
  let n := N_of_ascii c in
  (((65 <=? n) && (n <=? 90)) || ((97 <=? n) && (n <=? 122)))%N.

(** [c.isspace()], the white space that [str.strip()] removes: the code
    points 9 to 13, 28 to 32, 133 and 160. *)
Definition is_space (c : ascii) : bool :=
  let n := N_of_ascii c in
  (((9 <=? n) && (n <=? 13)) || ((28 <=? n) && (n <=? 32))
   || (n =? 133) || (n =? 160))%N.

(** The white space that [int()] removes at both ends: the code points 9
    to 13 and 32, and the white space above 127, which [int()] first turns
    into a blank; the separators 28 to 31 are refused. *)
Definition is_int_space (c : ascii) : bool :=
  let n := N_of_ascii c in
  (((9 <=? n) && (n <=? 13)) || (n =? 32) || (n =? 133) || (n =? 160))%N.

Definition digit_value (c : ascii) : Z := Z.of_N (N_of_ascii c) - 48.

(** [c.lower()]: the letters A to Z and the capital letters 192 to 222
    (215, the multiplication sign, is none) move up by 32. *)
Definition lower_char (c : ascii) : ascii :=
  let n := N_of_ascii c in
  if (((65 <=? n) && (n <=? 90))
      || ((192 <=? n) && (n <=? 222) && negb (n =? 215)))%N
  then ascii_of_N (n + 32) else c.

(** [str.lower()] *)
Definition lower (s : string) : string :=
  string_of_list_ascii (map lower_char (list_ascii_of_string s)).

Fixpoint drop_spaces (l : list ascii) : list ascii :=
  match l with
  | c :: l' => if is_int_space c then drop_spaces l' else l
  | [] => []
  end.

Definition strip_chars (l : list ascii) : list ascii :=
  rev (drop_spaces (rev (drop_spaces l))).

(** Decimal digits with single underscores between digits, as [int()]
    accepts them. *)
Fixpoint int_digits (acc : Z) (after_digit : bool) (l : list ascii) : option Z :=
  match l with
  | [] => if after_digit then Some acc else None
  | c :: l' =>
      if is_digit c then int_digits (10 * acc + digit_value c) true l'
      else if Ascii.eqb c "_" then
        if after_digit then int_digits acc false l' else None
      else None
  end.

(** [sys.int_info.default_max_str_digits]: [int()] refuses a string with
    more decimal digits than this. *)
Definition max_str_digits : Z := 4300.

Definition too_many_digits (l : list ascii) : bool :=
  max_str_digits <? Z.of_nat (length (filter is_digit l)).

(** [int(s)] for a string [s]: [None] stands for [ValueError]. *)
Definition py_int (s : string) : option Z :=
  match strip_chars (list_ascii_of_string s) with
  | c :: l =>
      if too_many_digits (c :: l) then None
      else if Ascii.eqb c "-" then Z.opp <$> int_digits 0 false l
      else if Ascii.eqb c "+" then int_digits 0 false l
      else int_digits 0 false (c :: l)
  | [] => None
  end.

Fixpoint take_while (p : ascii -> bool) (l : list ascii) : list ascii :=
  match l with
  | c :: l' => if p c then c :: take_while p l' else []
  | [] => []
  end.

Fixpoint drop_while (p : ascii -> bool) (l : list ascii) : list ascii :=
  match l with
  | c :: l' => if p c then drop_while p l' else l
  | [] => []
  end.

Definition digits_value (l : list ascii) : Z :=
  fold_left (fun acc c => 10 * acc + digit_value c) l 0.

(** [10 ** n] *)
Fixpoint pow10 (n : nat) : positive :=
  match n with
  | O => 1%positive
  | S n' => (10 * pow10 n')%positive
  end.

(** [float(text)] for [text] of the shape [\d+] or [\d+\.\d+], as an
    exact rational: the digits over a power of ten.

    Durations and clock readings are exact rationals in this model, and
    the arithmetic on them is exact.  The code computes in binary64, where
    [float()] and every operation round to the nearest number of that
    format: the two agree wherever each exact result is such a number
    ([binary64] below), and the properties that depend on an exact value
    are stated under that condition. *)
Definition decimal_value (int_part frac_part : list ascii) : Q :=
  Qmake (digits_value (int_part ++ frac_part)) (pow10 (length frac_part)).

(** [RateLimitHandler._parse_time_string]: the regular expression
    [(\d+(?:\.\d+)?)([a-zA-Z]+)] matched at the start of the string. *)
Definition _parse_time_string (time_str : string) : Q :=
  let l := list_ascii_of_string time_str in
  let int_part := take_while is_digit l in
  let rest := drop_while is_digit l in
  match int_part with
  | [] => 0%Q
  | _ =>
      let '(frac_part, rest) :=
        match rest with
        | "."%char :: rest' =>
            match take_while is_digit rest' with
            | [] => ([], rest)
            | ds => (ds, drop_while is_digit rest')
            end
        | _ => ([], rest)
        end in
      let unit := lower (string_of_list_ascii (take_while is_letter rest)) in
      let value := decimal_value int_part frac_part in
      if String.eqb unit "" then 0%Q
      else if String.eqb unit "s" then value
      else if String.eqb unit "ms" then (value / 1000)%Q
      else if String.eqb unit "m" then (value * 60)%Q
      else if String.eqb unit "h" then (value * 3600)%Q
      else 0%Q
  end.

(** The rationals that are binary64 numbers: [m * 2 ^ e] with
    [|m| < 2 ^ 53] and [-1074 <= e <= 971]. *)
Definition binary64 (q : Q) : Prop :=
  exists m e : Z,
    Z.abs m < 2 ^ 53 /\ -1074 <= e <= 971
    /\ (q == inject_Z m * Qpower 2 e)%Q.

(** The number that [_parse_time_string] reads with [float()]: the value
    of the digits that [\d+(?:\.\d+)?] matches at the start of the string
    (0 when there is none). *)
Definition matched_number (time_str : string) : Q :=
  let l := list_ascii_of_string time_str in
  let int_part := take_while is_digit l in
  let rest := drop_while is_digit l in
  match int_part with
  | [] => 0%Q
  | _ =>
      match rest with
      | "."%char :: rest' =>
          decimal_value int_part (take_while is_digit rest')
      | _ => decimal_value int_part []
      end
  end.

(** The binary64 computation of [_parse_time_string] on [time_str] is
    exact: the number it reads and the duration it returns are binary64
    numbers, so that neither [float()] nor the division or multiplication
    by the unit rounds. *)
Definition exact_duration (time_str : string) : Prop :=
  binary64 (matched_number time_str)
  /\ binary64 (_parse_time_string time_str).

(** *** Header ingestion *)

(** One block of [update_from_headers] for a limit or a remaining count:
<<
    if key in headers:
        try:
            self.field = int(headers[key])
        except (ValueError, TypeError) as e:
            raise ValidationError(key, ...)
>> *)
Definition ingest_int (key : string)
    (set : Z -> RateLimitHandler -> RateLimitHandler)
    (headers : gmap string string) (h : RateLimitHandler)
    : RateLimitHandler * result unit :=
  match headers !! key with
  | None => (h, Ok tt)
  | Some v =>
      match py_int v with
      | Some n => (set n h, Ok tt)
      | None => (h, Raise (ValidationError key))
      end
  end.

(** One block for a reset header:
<<
    if key in headers:
        reset_seconds = self._parse_time_string(headers[key])
        self.field = time.time() + reset_seconds
>>
    ([_parse_time_string] raises nothing on a string).  The sum is
    exact here and rounded to binary64 in the code. *)
Definition ingest_reset (key : string)
    (set : Q -> RateLimitHandler -> RateLimitHandler)
    (current_time : Q)
    (headers : gmap string string) (h : RateLimitHandler)
    : RateLimitHandler * result unit :=
  match headers !! key with
  | None => (h, Ok tt)
  | Some v => (set (current_time + _parse_time_string v)%Q h, Ok tt)
  end.

(** Sequencing of two blocks: an exception of the first skips the second
    and keeps the assignments already made. *)
Definition and_then
    (f g : RateLimitHandler -> RateLimitHandler * result unit)
    (h : RateLimitHandler) : RateLimitHandler * result unit :=
  match f h with
  | (h', Ok _) => g h'
  | (h', Raise e) => (h', Raise e)
  end.

Infix ";;;" := and_then (at level 61, left associativity).

(** [RateLimitHandler._on_limits_changed]: the hook of the class does
    nothing. *)
Definition _on_limits_changed (h : RateLimitHandler) : RateLimitHandler := h.

(** [RateLimitHandler.update_from_headers(headers)].  The blocks run in
    the order of the source; every exception raised under the lock leaves
    as a [LockError]. *)
Definition update_from_headers (h : RateLimitHandler) (current_time : Q)
    (headers : gmap string string) : RateLimitHandler * result unit :=
  if decide (headers = ∅) then (h, Raise (ValidationError "headers"))
  else
    let old_request_limit := request_limit h in
    let old_token_limit := token_limit h in
    let body :=
      ingest_int "x-ratelimit-limit-requests" set_request_limit headers
      ;;; ingest_int "x-ratelimit-remaining-requests" set_request_remaining headers
      ;;; ingest_reset "x-ratelimit-reset-requests" set_request_reset_time
            current_time headers
      ;;; ingest_int "x-ratelimit-limit-tokens" set_token_limit headers
      ;;; ingest_int "x-ratelimit-remaining-tokens" set_token_remaining headers
      ;;; ingest_reset "x-ratelimit-reset-tokens" set_token_reset_time
            current_time headers
      ;;; ingest_int "x-ratelimit-limit-audio-seconds" set_audio_seconds_limit
            headers
      ;;; ingest_int "x-ratelimit-remaining-audio-seconds"
            set_audio_seconds_remaining headers
      ;;; ingest_reset "x-ratelimit-reset-audio-seconds"
            set_audio_seconds_reset_time current_time headers in
    match body h with
    | (h, Raise e) => (h, Raise (LockError e))
    | (h, Ok _) =>
        let h := set_last_update current_time h in
        let request_limit_changed :=
          negb (old_request_limit =? request_limit h) in
        let token_limit_changed := negb (old_token_limit =? token_limit h) in
        if request_limit_changed || token_limit_changed
        then (_on_limits_changed h, Ok tt)
        else (h, Ok tt)
    end.

(** *** Reachable tracker states

    The states that sequences of ingestions and queries produce from a
    fresh tracker, the clock reading of each call being arbitrary.
    [allowed h headers] restricts the header bags that are ingested in
    state [h]. *)
Inductive reachable (allowed : RateLimitHandler -> gmap string string -> Prop)
    : RateLimitHandler -> Prop :=
| reach_init : reachable allowed RateLimitHandler_init
| reach_update h now headers :
    reachable allowed h -> allowed h headers ->
    reachable allowed (fst (update_from_headers h now headers))
| reach_can_proceed h now T R S :
    reachable allowed h ->
    reachable allowed (fst (can_proceed h now T R S))
| reach_wait h w :
    reachable allowed h ->
    reachable allowed (fst (fst (wait_if_needed h w)))
| reach_status h now :
    reachable allowed h ->
    reachable allowed (fst (get_status h now)).

(** The invariant of a quota window. *)
Definition window_ok (w : window) (h : RateLimitHandler) : Prop :=
  0 <= remaining_of w h <= limit_of w h.

Definition limit_key (w : window) : string :=
  match w with
  | Requests => "x-ratelimit-limit-requests"
  | Tokens => "x-ratelimit-limit-tokens"
  | AudioSeconds => "x-ratelimit-limit-audio-seconds"
  end.

Definition remaining_key (w : window) : string :=
  match w with
  | Requests => "x-ratelimit-remaining-requests"
  | Tokens => "x-ratelimit-remaining-tokens"
  | AudioSeconds => "x-ratelimit-remaining-audio-seconds"
  end.

(** The count that a header bag reports for a field whose current value
    is [current]: the parsed header when the key is present, the current
    value when it is absent. *)
Definition reported (headers : gmap string string) (key : string) (current : Z)
    : option Z :=
  match headers !! key with
  | Some v => py_int v
  | None => Some current
  end.

(** A header bag is consistent in state [h] when every count it carries
    parses and, for each window, the reported remaining lies between 0 and
    the reported limit. *)
Definition consistent (h : RateLimitHandler) (headers : gmap string string) : Prop :=
  forall w : window,
    exists l r : Z,
      reported headers (limit_key w) (limit_of w h) = Some l
      /\ reported headers (remaining_key w) (remaining_of w h) = Some r
      /\ 0 <= r <= l.

(** *** Notions used to state the properties of the tracker *)

(** A reset deadline is due when it is set (positive) and not after the
    clock reading. *)
Definition due (current_time reset_at : Q) : Prop :=
  (0 < reset_at)%Q /\ (reset_at <= current_time)%Q.

(** The three tests of [can_proceed], read on a state [h] that is already
    lazily reset. *)
Definition admits (h : RateLimitHandler) (tokens requests audio_seconds : Z) : Prop :=
  forall w : window,
    0 < limit_of w h ->
    requested w tokens requests audio_seconds <= remaining_of w h.

(** A window is pending when its reset deadline is set and still ahead. *)
Definition pending (current_time reset_at : Q) : Prop :=
  (0 < reset_at)%Q /\ (current_time < reset_at)%Q.

(** The running maximum over the three windows, before the default. *)
Definition max_pending (h : RateLimitHandler) (now : Q) : Q :=
  let m := 0%Q in
  let m := if Qltb 0 (request_reset_time h) && Qltb now (request_reset_time h)
           then py_max m (request_reset_time h - now)%Q else m in
  let m := if Qltb 0 (token_reset_time h) && Qltb now (token_reset_time h)
           then py_max m (token_reset_time h - now)%Q else m in
  if Qltb 0 (audio_seconds_reset_time h) && Qltb now (audio_seconds_reset_time h)
  then py_max m (audio_seconds_reset_time h - now)%Q else m.

(** A tracker whose request window resets 301 seconds from now. *)
Definition tracker_reset_in_301 : RateLimitHandler :=
  {| request_limit := 10; request_remaining := 0;
     request_reset_time := 1301%Q;
     token_limit := 0; token_remaining := 0; token_reset_time := 0%Q;
     audio_seconds_limit := 0; audio_seconds_remaining := 0;
     audio_seconds_reset_time := 0%Q; last_update := 1000%Q |}.

(** The effect of a reset block on the tracker. *)
Definition reset_applied (key : string)
    (set : Q -> RateLimitHandler -> RateLimitHandler) (now : Q)
    (headers : gmap string string) (h : RateLimitHandler) : RateLimitHandler :=
  match headers !! key with
  | None => h
  | Some v => set (now + _parse_time_string v)%Q h
  end.

(** A header bag that reports a remaining count and no limit. *)
Definition remaining_only : gmap string string :=
  {[ "x-ratelimit-remaining-requests" := "5" ]}.

(** Scenario "lazy reset" of the specification: limit 10, remaining 0,
    reset in one second. *)
Definition exhausted_headers : gmap string string :=
  {[ "x-ratelimit-limit-requests" := "10";
     "x-ratelimit-remaining-requests" := "0";
     "x-ratelimit-reset-requests" := "1s" ]}.

(** ** Model registry ([core/model_registry.py])

    The descriptor table is taken as it stands during a call: no
    credential is configured or the cache is still fresh, so that
    [_fetch_models] returns at once. *)

Inductive model_type : Type := chat | stt.

(** An entry of [ModelRegistry._models]. *)
Record ModelInfo : Type := {
  mi_type : model_type;
  mi_max_tokens : option Z;
  mi_max_completion_tokens : option Z;
  mi_owned_by : string;
  mi_active : bool
}.

Record ModelRegistry : Type := {
  _models : gmap string ModelInfo
}.

(** [ModelRegistry.get_model_info(model)] *)
Definition get_model_info (reg : ModelRegistry) (model : string) : result ModelInfo :=
  if String.eqb model "" then Raise (ValidationError "model")
  else match _models reg !! model with
       | None => Raise (InvalidModel model)
       | Some info => Ok info
       end.

(** [ModelRegistry.get_type(model)] *)
Definition get_type (reg : ModelRegistry) (model : string) : result model_type :=
  match get_model_info reg model with
  | Ok info => Ok (mi_type info)
  | Raise e => Raise e
  end.

(** [ModelRegistry.is_model_supported(model)] *)
Definition is_model_supported (reg : ModelRegistry) (model : string) : result bool :=
  if String.eqb model "" then Raise (ValidationError "model")
  else Ok (bool_decide (is_Some (_models reg !! model))).

(** [ModelRegistry.get_max_tokens(model)]: the context window. *)
Definition get_max_tokens (reg : ModelRegistry) (model : string)
    : result (option Z) :=
  match get_model_info reg model with
  | Ok info => Ok (mi_max_tokens info)
  | Raise e => Raise e
  end.

(** ** Token counter ([core/token_counter.py]) *)

(** A [tiktoken.Encoding], seen through [encode]: the tokens of a text, or
    the exception that [encode] raises on it. *)
Definition Encoding : Type := string -> result (list Z).

(** A value found in a message dictionary, and an element of a message
    list: a dictionary with string keys or anything else.  [PyOther] is
    any other object that can be hashed (a float, a tuple of numbers),
    [PyUnhashable] one that cannot (a list, a dictionary, a set). *)
Inductive pyval : Type :=
| PyNone
| PyInt (n : Z)
| PyStr (s : string)
| PyOther
| PyUnhashable.

Inductive pyobj : Type :=
| PyDict (d : gmap string pyval)
| PyAtom (v : pyval).

(** The fields of [TokenCounter] that counting reads and writes; the
    usage history is not touched by the methods below. *)
Record TokenCounter : Type := {
  tc_model_registry : ModelRegistry;
  _encoders : gmap string Encoding
}.

(** [TokenCounter._model_to_encoding] *)
Definition _model_to_encoding : gmap string string :=
  {[ "llama3-8b-8192" := "cl100k_base";
     "llama3-70b-8192" := "cl100k_base";
     "llama3.1-8b-8192" := "cl100k_base";
     "llama3.1-70b-8192" := "cl100k_base";
     "llama3.1-405b-8192" := "cl100k_base";
     "mixtral-8x7b-32768" := "cl100k_base";
     "gemma2-9b-it" := "cl100k_base";
     "gemma2-27b-it" := "cl100k_base";
     "whisper-large-v3" := "cl100k_base" ]}.

Definition newline : string := String (ascii_of_nat 10) EmptyString.

(** [f"<|im_start|>{role}\n{content}<|im_end|>"] *)
Definition formatted_message (role content : string) : string :=
  "<|im_start|>" ++ role ++ newline ++ content ++ "<|im_end|>".

(** ["<|im_start|>assistant\n"] *)
Definition assistant_prelude : string := "<|im_start|>assistant" ++ newline.

(** [messages[-1].get("role") != "assistant"] *)
Definition last_role_not_assistant (messages : list pyobj) : bool :=
  match last messages with
  | Some (PyDict d) =>
      match d !! "role" with
      | Some (PyStr role) => negb (String.eqb role "assistant")
      | _ => true
      end
  | _ => true
  end.

Section Tiktoken.

(** [tiktoken.get_encoding(name)], a function of the library. *)
Variable tiktoken_get_encoding : string -> result Encoding.

(** [TokenCounter._get_encoder(model)]: the cached encoder, or a new one
    that is cached. *)
Definition _get_encoder (tc : TokenCounter) (model : string)
    : TokenCounter * result Encoding :=
  match _encoders tc !! model with
  | Some encoder => (tc, Ok encoder)
  | None =>
      let encoding_name := default "cl100k_base" (_model_to_encoding !! model) in
      match tiktoken_get_encoding encoding_name with
      | Raise _ => (tc, Raise (EncodingError model encoding_name))
      | Ok encoder =>
          ({| tc_model_registry := tc_model_registry tc;
              _encoders := <[model := encoder]> (_encoders tc) |},
           Ok encoder)
      end
  end.

(** [TokenCounter.count_tokens(prompt, model)] *)
Definition count_tokens (tc : TokenCounter) (prompt : string) (model : string)
    : TokenCounter * result Z :=
  if String.eqb prompt "" then (tc, Raise (ValidationError "prompt"))
  else
    match is_model_supported (tc_model_registry tc) model with
    | Raise e => (tc, Raise e)
    | Ok false => (tc, Raise (InvalidModel model))
    | Ok true =>
        match get_type (tc_model_registry tc) model with
        | Raise e => (tc, Raise e)
        | Ok stt => (tc, Ok 0)
        | Ok chat =>
            match _get_encoder tc model with
            | (tc, Raise _) => (tc, Raise (EncodingError model "unknown"))
            | (tc, Ok encoder) =>
                match encoder prompt with
                | Raise _ => (tc, Raise (EncodingError model "unknown"))
                | Ok tokens => (tc, Ok (Z.of_nat (length tokens)))
                end
            end
        end
    end.

(** The loop of [count_message_tokens] from index [i] on, [total_tokens]
    being the running sum. *)
Fixpoint count_loop (encoder : Encoding) (model : string) (i : nat)
    (messages : list pyobj) (total_tokens : Z) : result Z :=
  match messages with
  | [] => Ok total_tokens
  | message :: rest =>
      match message with
      | PyAtom _ => Raise (MessageFormatError i)
      | PyDict d =>
          match d !! "role", d !! "content" with
          | Some role, Some content =>
              match content with
              | PyStr content =>
                  match role with
                  | PyStr role =>
                      match encoder (formatted_message role content) with
                      | Raise _ => Raise (EncodingError model "unknown")
                      | Ok tokens =>
                          count_loop encoder model (S i) rest
                            (total_tokens + Z.of_nat (length tokens))
                      end
                  | _ => Raise (MessageFormatError i)
                  end
              | _ => Raise (MessageFormatError i)
              end
          | _, _ => Raise (MessageFormatError i)
          end
      end
  end.

(** [TokenCounter.count_message_tokens(messages, model)], for [messages]
    a list. *)
Definition count_message_tokens (tc : TokenCounter) (messages : list pyobj)
    (model : string) : TokenCounter * result Z :=
  match messages with
  | [] => (tc, Raise (ValidationError "messages"))
  | _ =>
      match is_model_supported (tc_model_registry tc) model with
      | Raise e => (tc, Raise e)
      | Ok false => (tc, Raise (InvalidModel model))
      | Ok true =>
          match get_type (tc_model_registry tc) model with
          | Raise e => (tc, Raise e)
          | Ok stt => (tc, Ok 0)
          | Ok chat =>
              match _get_encoder tc model with
              | (tc, Raise _) => (tc, Raise (EncodingError model "unknown"))
              | (tc, Ok encoder) =>
                  match count_loop encoder model 0 messages 0 with
                  | Raise e => (tc, Raise e)
                  | Ok total_tokens =>
                      if last_role_not_assistant messages then
                        match encoder assistant_prelude with
                        | Raise _ => (tc, Raise (EncodingError model "unknown"))
                        | Ok assistant_token =>
                            (tc, Ok (total_tokens
                                     + Z.of_nat (length assistant_token)))
                        end
                      else (tc, Ok total_tokens)
                  end
              end
          end
      end
  end.

(** [TokenCounter.validate_token_limit(messages, model, max_tokens=None)] *)
Definition validate_token_limit (tc : TokenCounter) (messages : list pyobj)
    (model : string) (max_tokens : option Z) : TokenCounter * result bool :=
  match is_model_supported (tc_model_registry tc) model with
  | Raise e => (tc, Raise e)
  | Ok false => (tc, Raise (InvalidModel model))
  | Ok true =>
      let limit :=
        match max_tokens with
        | Some m => Ok (Some m)
        | None => get_max_tokens (tc_model_registry tc) model
        end in
      match limit with
      | Raise e => (tc, Raise e)
      | Ok None => (tc, Ok true)
      | Ok (Some max_tokens) =>
          if max_tokens <? 0 then (tc, Raise (ValidationError "max_tokens"))
          else
            match count_message_tokens tc messages model with
            | (tc, Raise e) => (tc, Raise (TokenCounterError e))
            | (tc, Ok current_tokens) =>
                if max_tokens <? current_tokens
                then (tc, Raise (TokenLimitExceeded current_tokens max_tokens))
                else (tc, Ok true)
            end
      end
  end.

(** ** Chat handler ([handlers/text_generation.py]) *)

(** The components that the token check of [TextGenerationHandler] uses. *)
Record TextGenerationHandler : Type := {
  tg_model_registry : ModelRegistry;
  tg_token_counter : TokenCounter
}.

(** [TextGenerationHandler._check_token_limits(messages, model, max_tokens)],
    the check that [generate] runs before it sends the request.  Any
    exception other than [TokenLimitExceeded] leaves as a
    [TextGenerationError]. *)
Definition _check_token_limits (hd : TextGenerationHandler)
    (messages : list pyobj) (model : string) (max_tokens : Z)
    : TextGenerationHandler * result unit :=
  let '(tc, counted) := count_message_tokens (tg_token_counter hd) messages model in
  let hd := {| tg_model_registry := tg_model_registry hd;
               tg_token_counter := tc |} in
  let body : result unit :=
    match counted with
    | Raise e => Raise e
    | Ok current_tokens =>
        match get_max_tokens (tg_model_registry hd) model with
        | Raise e => Raise e
        | Ok None => Ok tt
        | Ok (Some model_max_tokens) =>
            let total_tokens := current_tokens + max_tokens in
            if model_max_tokens <? total_tokens
            then Raise (TokenLimitExceeded total_tokens model_max_tokens)
            else Ok tt
        end
    end in
  match body with
  | Ok _ => (hd, Ok tt)
  | Raise e =>
      if is_TokenLimitExceeded e then (hd, Raise e)
      else (hd, Raise (TextGenerationError model e))
  end.

End Tiktoken.

(** *** Notions used to state the properties of token counting *)

(** A message that passes the checks of the loop: a dictionary whose
    ["role"] and ["content"] are strings. *)
Definition well_formed (m : pyobj) : Prop :=
  exists (d : gmap string pyval) (role content : string),
    m = PyDict d /\ d !! "role" = Some (PyStr role)
    /\ d !! "content" = Some (PyStr content).

(** A malformed element: not a dictionary, or a field is missing, or a
    field is not a string. *)
Definition malformed (m : pyobj) : Prop :=
  match m with
  | PyAtom _ => True
  | PyDict d =>
      match d !! "role", d !! "content" with
      | Some (PyStr _), Some (PyStr _) => False
      | _, _ => True
      end
  end.

(** The rendered form of a well-formed message (the empty string
    otherwise). *)
Definition render (m : pyobj) : string :=
  match m with
  | PyDict d =>
      match d !! "role", d !! "content" with
      | Some (PyStr role), Some (PyStr content) => formatted_message role content
      | _, _ => ""
      end
  | PyAtom _ => ""
  end.

(** The count that one encoder gives to a text, as [count_tokens] reports
    it. *)
Definition encoder_count (model : string) (encoder : Encoding) (s : string)
    : result Z :=
  match encoder s with
  | Raise _ => Raise (EncodingError model "unknown")
  | Ok tokens => Ok (Z.of_nat (length tokens))
  end.

(** The sum of the counts of a list of texts, the first exception ending
    the sum. *)
Fixpoint sum_counts (count : string -> result Z) (texts : list string) : result Z :=
  match texts with
  | [] => Ok 0
  | s :: rest =>
      match count s with
      | Raise e => Raise e
      | Ok n =>
          match sum_counts count rest with
          | Raise e => Raise e
          | Ok t => Ok (n + t)
          end
      end
  end.

Definition result_add (a b : result Z) : result Z :=
  match a with
  | Raise e => Raise e
  | Ok x => match b with Raise e => Raise e | Ok y => Ok (x + y) end
  end.

(** *** The count of the specification

    The definitions of this block are written from the words of the
    specification and use no definition of the embedding of
    [count_message_tokens]: the rendered form
    [<|im_start|>{role}\n{content}<|im_end|>] of a message, the literal
    [<|im_start|>assistant\n], and the condition under which its count is
    added. *)

(** The rendered form of a message with a role and a content (the empty
    string for anything else). *)
Definition spec_rendered_form (m : pyobj) : string :=
  match m with
  | PyDict d =>
      match d !! "role", d !! "content" with
      | Some (PyStr role), Some (PyStr content) =>
          "<|im_start|>" ++ role ++ String "010" (content ++ "<|im_end|>")
      | _, _ => ""
      end
  | PyAtom _ => ""
  end.

Definition spec_assistant_prelude : string :=
  "<|im_start|>assistant" ++ String "010" "".

(** The final message has the role ["assistant"]. *)
Fixpoint final_role_is_assistant (messages : list pyobj) : bool :=
  match messages with
  | [] => false
  | m :: rest =>
      match rest with
      | [] =>
          match m with
          | PyDict d =>
              match d !! "role" with
              | Some (PyStr role) => String.eqb role "assistant"
              | _ => false
              end
          | PyAtom _ => false
          end
      | _ :: _ => final_role_is_assistant rest
      end
  end.

(** The count of the specification: the sum over the messages of the
    single-string count of the rendered form, plus, exactly when the role
    of the final message is not ["assistant"], the count of the literal
    prelude. *)
Definition count_messages_spec (tiktoken_get_encoding : string -> result Encoding)
    (tc : TokenCounter) (messages : list pyobj) (model : string) : result Z :=
  let count s := snd (count_tokens tiktoken_get_encoding tc s model) in
  result_add (sum_counts count (map spec_rendered_form messages))
    (if final_role_is_assistant messages then Ok 0
     else count spec_assistant_prelude).

(** The outcome "raises a message-format error". *)
Definition raises_message_format {A : Type} (r : result A) : Prop :=
  exists e, r = Raise e /\ is_MessageFormatError e = true.

(** An encoder is total when [encode] raises on no text. *)
Definition total_encoder (encoder : Encoding) : Prop :=
  forall s, is_ok (encoder s) = true.

(** *** A concrete instance

    A stand-in for the tokenizer that yields one token per character, a
    registry with one chat model of context window 100 and one
    transcription model, and a counter over them. *)
Definition char_encoding : Encoding :=
  fun s => Ok (map (fun c => Z.of_N (N_of_ascii c)) (list_ascii_of_string s)).

Definition char_tiktoken : string -> result Encoding :=
  fun _ => Ok char_encoding.

Definition demo_registry : ModelRegistry :=
  {| _models :=
       {[ "llama3-8b-8192" :=
            {| mi_type := chat; mi_max_tokens := Some 100;
               mi_max_completion_tokens := Some 50;
               mi_owned_by := "Meta"; mi_active := true |};
          "whisper-large-v3" :=
            {| mi_type := stt; mi_max_tokens := None;
               mi_max_completion_tokens := None;
               mi_owned_by := "OpenAI"; mi_active := true |} ]} |}.

Definition demo_counter : TokenCounter :=
  {| tc_model_registry := demo_registry; _encoders := ∅ |}.

Definition demo_handler : TextGenerationHandler :=
  {| tg_model_registry := demo_registry; tg_token_counter := demo_counter |}.

Definition message (role content : string) : pyobj :=
  PyDict {[ "role" := PyStr role; "content" := PyStr content ]}.

(** A user message of 41 characters: with one token per character its
    rendered form counts 68 and the prelude 22, 90 in all. *)
Definition message_of_90 : list pyobj :=
  [ message "user" "Explain the quota windows in one sentence" ].

(** ** Queue manager ([core/queue_manager.py]) *)

Inductive Priority : Type := LOW | NORMAL | HIGH | URGENT.

(** [Priority(value)]: [None] stands for [ValueError]. *)
Definition Priority_of_value (value : string) : option Priority :=
  if String.eqb value "low" then Some LOW
  else if String.eqb value "normal" then Some NORMAL
  else if String.eqb value "high" then Some HIGH
  else if String.eqb value "urgent" then Some URGENT
  else None.

(** The object passed as [request_func]: a function, named so that an
    environment can tell what calling it does, or something that is not
    callable. *)
Inductive pyfunc : Type :=
| PyFunction (name : string) (is_coroutine_function : bool)
| NotCallable.

Definition callable (f : pyfunc) : bool :=
  match f with PyFunction _ _ => true | NotCallable => false end.

(** [asyncio.iscoroutinefunction(f)] *)
Definition iscoroutinefunction (f : pyfunc) : bool :=
  match f with PyFunction _ c => c | NotCallable => false end.

Record QueuedRequest : Type := {
  id : string;
  request_func : pyfunc;
  args : list pyval;
  kwargs : gmap string pyval;
  priority : Priority;
  timestamp : Q;
  retry_count : Z;
  max_retries : Z;
  tokens_required : Z;
  original_priority : option Priority
}.

(** [QueueManager._stats] *)
Record Stats : Type := {
  total_queued : Z;
  total_processed : Z;
  total_failed : Z;
  total_retries : Z
}.

(** [QueueManager._queues]: one list per priority. *)
Record Queues : Type := {
  q_low : list QueuedRequest;
  q_normal : list QueuedRequest;
  q_high : list QueuedRequest;
  q_urgent : list QueuedRequest
}.

(** [self._queues[priority]] *)
Definition queue_of (p : Priority) (qs : Queues) : list QueuedRequest :=
  match p with
  | LOW => q_low qs
  | NORMAL => q_normal qs
  | HIGH => q_high qs
  | URGENT => q_urgent qs
  end.

(** [self._queues[priority] = l] *)
Definition set_queue (p : Priority) (l : list QueuedRequest) (qs : Queues) : Queues :=
  match p with
  | LOW => {| q_low := l; q_normal := q_normal qs; q_high := q_high qs;
              q_urgent := q_urgent qs |}
  | NORMAL => {| q_low := q_low qs; q_normal := l; q_high := q_high qs;
                 q_urgent := q_urgent qs |}
  | HIGH => {| q_low := q_low qs; q_normal := q_normal qs; q_high := l;
               q_urgent := q_urgent qs |}
  | URGENT => {| q_low := q_low qs; q_normal := q_normal qs;
                 q_high := q_high qs; q_urgent := l |}
  end.

Record QueueManager : Type := {
  rate_limit_handler : RateLimitHandler;
  max_queue_size : Z;
  _queues : Queues;
  _processing : bool;
  _request_counter : Z;
  _stats : Stats
}.

(** [QueueManager.__init__(rate_limit_handler, max_queue_size)] *)
Definition QueueManager_init (rate_limit_handler : option RateLimitHandler)
    (max_queue_size : Z) : result QueueManager :=
  if max_queue_size <=? 0 then Raise (ValidationError "max_queue_size")
  else Ok {| rate_limit_handler :=
               default RateLimitHandler_init rate_limit_handler;
             max_queue_size := max_queue_size;
             _queues := {| q_low := []; q_normal := []; q_high := [];
                           q_urgent := [] |};
             _processing := false;
             _request_counter := 0;
             _stats := {| total_queued := 0; total_processed := 0;
                          total_failed := 0; total_retries := 0 |} |}.

Definition with_queues (qs : Queues) (qm : QueueManager) : QueueManager :=
  {| rate_limit_handler := rate_limit_handler qm;
     max_queue_size := max_queue_size qm;
     _queues := qs;
     _processing := _processing qm;
     _request_counter := _request_counter qm;
     _stats := _stats qm |}.

Definition with_stats (st : Stats) (qm : QueueManager) : QueueManager :=
  {| rate_limit_handler := rate_limit_handler qm;
     max_queue_size := max_queue_size qm;
     _queues := _queues qm;
     _processing := _processing qm;
     _request_counter := _request_counter qm;
     _stats := st |}.

Definition with_rate_limit_handler (h : RateLimitHandler) (qm : QueueManager)
    : QueueManager :=
  {| rate_limit_handler := h;
     max_queue_size := max_queue_size qm;
     _queues := _queues qm;
     _processing := _processing qm;
     _request_counter := _request_counter qm;
     _stats := _stats qm |}.

Definition with_processing (b : bool) (qm : QueueManager) : QueueManager :=
  {| rate_limit_handler := rate_limit_handler qm;
     max_queue_size := max_queue_size qm;
     _queues := _queues qm;
     _processing := b;
     _request_counter := _request_counter qm;
     _stats := _stats qm |}.

Definition with_request_counter (n : Z) (qm : QueueManager) : QueueManager :=
  {| rate_limit_handler := rate_limit_handler qm;
     max_queue_size := max_queue_size qm;
     _queues := _queues qm;
     _processing := _processing qm;
     _request_counter := n;
     _stats := _stats qm |}.

Definition bump_total_queued (st : Stats) : Stats :=
  {| total_queued := total_queued st + 1;
     total_processed := total_processed st;
     total_failed := total_failed st;
     total_retries := total_retries st |}.

Definition bump_total_processed (st : Stats) : Stats :=
  {| total_queued := total_queued st;
     total_processed := total_processed st + 1;
     total_failed := total_failed st;
     total_retries := total_retries st |}.

Definition bump_total_failed (st : Stats) : Stats :=
  {| total_queued := total_queued st;
     total_processed := total_processed st;
     total_failed := total_failed st + 1;
     total_retries := total_retries st |}.

Definition bump_total_retries (st : Stats) : Stats :=
  {| total_queued := total_queued st;
     total_processed := total_processed st;
     total_failed := total_failed st;
     total_retries := total_retries st + 1 |}.

(** [sum(len(queue) for queue in self._queues.values())] *)
Definition total_live (qs : Queues) : Z :=
  Z.of_nat (length (q_low qs)) + Z.of_nat (length (q_normal qs))
  + Z.of_nat (length (q_high qs)) + Z.of_nat (length (q_urgent qs)).

(** [int(t)] for a clock reading: truncation towards zero. *)
Definition py_int_of_float (t : Q) : Z := Z.quot (Qnum t) (Zpos (Qden t)).

(** [QueueManager._generate_request_id()] *)
Definition _generate_request_id (qm : QueueManager) (current_time : Q)
    : QueueManager * string :=
  let qm := with_request_counter (_request_counter qm + 1) qm in
  (qm, "req_" ++ pretty (py_int_of_float current_time) ++ "_"
       ++ pretty (_request_counter qm)).

(** [QueueManager._start_processing()]: the flag is raised and the worker
    task is created when it was not running. *)
Definition _start_processing (qm : QueueManager) : QueueManager :=
  if _processing qm then qm else with_processing true qm.

(** [QueueManager.enqueue(request_func, *args, priority="normal",
    tokens_required=0, max_retries=3, **kwargs)].  The [raise
    QueueFullError] stands inside [try: ... except Exception as e: raise
    LockError(...)]. *)
Definition enqueue (qm : QueueManager) (current_time : Q)
    (request_func : pyfunc) (args : list pyval) (priority : string)
    (tokens_required max_retries : Z) (kwargs : gmap string pyval)
    : QueueManager * result string :=
  if negb (callable request_func)
  then (qm, Raise (ValidationError "request_func"))
  else if tokens_required <? 0
  then (qm, Raise (ValidationError "tokens_required"))
  else if max_retries <? 0
  then (qm, Raise (ValidationError "max_retries"))
  else
    let priority_enum := default NORMAL (Priority_of_value (lower priority)) in
    let total_queued := total_live (_queues qm) in
    if max_queue_size qm <=? total_queued
    then (qm, Raise (LockError (QueueFullError total_queued (max_queue_size qm))))
    else
      let '(qm, request_id) := _generate_request_id qm current_time in
      let queued_request :=
        {| id := request_id;
           request_func := request_func;
           args := args;
           kwargs := kwargs;
           priority := priority_enum;
           timestamp := current_time;
           retry_count := 0;
           max_retries := max_retries;
           tokens_required := tokens_required;
           original_priority := Some priority_enum |} in
      let qm :=
        with_queues
          (set_queue priority_enum
             (queue_of priority_enum (_queues qm) ++ [queued_request])
             (_queues qm)) qm in
      let qm := with_stats (bump_total_queued (_stats qm)) qm in
      let qm := _start_processing qm in
      (qm, Ok request_id).

(** [request.retry_count += 1] and [request.priority = p] *)
Definition retried (p : Priority) (request : QueuedRequest) : QueuedRequest :=
  {| id := id request;
     request_func := request_func request;
     args := args request;
     kwargs := kwargs request;
     priority := p;
     timestamp := timestamp request;
     retry_count := retry_count request + 1;
     max_retries := max_retries request;
     tokens_required := tokens_required request;
     original_priority := original_priority request |}.

(** [QueueManager._handle_request_error(request, error)] *)
Definition _handle_request_error (qm : QueueManager) (request : QueuedRequest)
    (error : exn) : QueueManager * result unit :=
  let qm := with_stats (bump_total_failed (_stats qm)) qm in
  if retry_count request <? max_retries request then
    let qm := with_stats (bump_total_retries (_stats qm)) qm in
    let p := default (priority request) (original_priority request) in
    let request := retried p request in
    (with_queues
       (set_queue p (queue_of p (_queues qm) ++ [request]) (_queues qm)) qm,
     Ok tt)
  else (qm, Raise (RetryError (max_retries request) error)).

(** [QueueManager._handle_request_error_sync(request, error)] *)
Definition _handle_request_error_sync (qm : QueueManager)
    (request : QueuedRequest) (error : exn) : QueueManager * result unit :=
  let qm := with_stats (bump_total_failed (_stats qm)) qm in
  if retry_count request <? max_retries request then
    let qm := with_stats (bump_total_retries (_stats qm)) qm in
    let p := default (priority request) (original_priority request) in
    let request := retried p request in
    (with_queues
       (set_queue p (queue_of p (_queues qm) ++ [request]) (_queues qm)) qm,
     Ok tt)
  else (qm, Raise (RetryError (max_retries request) error)).

(** The manager with the clock and the log of the requests whose callable
    was invoked, oldest first. *)
Record Machine : Type := {
  manager : QueueManager;
  world : World;
  calls : list string
}.

Section Worker.

(** What invoking the callable of a request does: it returns or raises.
    The callables do not touch the manager and take no time. *)
Variable invoke : QueuedRequest -> result unit.

(** [QueueManager._execute_request(request)].  A function that is not a
    coroutine function goes through [loop.run_in_executor(None, f, *args,
    **kwargs)], which takes no keyword argument. *)
Definition _execute_request (m : Machine) (request : QueuedRequest)
    : Machine * result unit :=
  let '(h, w, waited) := wait_if_needed (rate_limit_handler (manager m)) (world m) in
  let qm := with_rate_limit_handler h (manager m) in
  match waited with
  | Raise e => ({| manager := qm; world := w; calls := calls m |}, Raise e)
  | Ok _ =>
      let called :=
        if iscoroutinefunction (request_func request) then true
        else bool_decide (kwargs request = ∅) in
      let outcome :=
        if called then invoke request else Raise (PyException "TypeError") in
      let log := if called then (calls m ++ [id request])%list else calls m in
      match outcome with
      | Ok _ =>
          ({| manager := with_stats (bump_total_processed (_stats qm)) qm;
              world := w; calls := log |}, Ok tt)
      | Raise AsyncioTimeoutError =>
          ({| manager := qm; world := w; calls := log |},
           Raise (RequestTimeoutError AsyncioTimeoutError))
      | Raise e => ({| manager := qm; world := w; calls := log |}, Raise e)
      end
  end.

(** [QueueManager._process_priority_queue(priority)] *)
Definition _process_priority_queue (m : Machine) (p : Priority)
    : Machine * result unit :=
  match queue_of p (_queues (manager m)) with
  | [] => (m, Ok tt)
  | request :: rest =>
      let qm := with_queues (set_queue p rest (_queues (manager m))) (manager m) in
      let '(h, allowed) :=
        can_proceed (rate_limit_handler qm) (clock (world m))
          (tokens_required request) 1 0 in
      let qm := with_rate_limit_handler h qm in
      match allowed with
      | Ok false =>
          ({| manager :=
                with_queues
                  (set_queue p (request :: queue_of p (_queues qm)) (_queues qm))
                  qm;
              world := world m; calls := calls m |}, Ok tt)
      | Ok true =>
          match _execute_request
                  {| manager := qm; world := world m; calls := calls m |}
                  request with
          | (m, Ok _) => (m, Ok tt)
          | (m, Raise e) =>
              let '(qm, r) := _handle_request_error (manager m) request e in
              ({| manager := qm; world := world m; calls := calls m |}, r)
          end
      | Raise e =>
          let '(qm, r) := _handle_request_error qm request e in
          ({| manager := qm; world := world m; calls := calls m |}, r)
      end
  end.

Definition asleep (d : Q) (m : Machine) : Machine :=
  {| manager := manager m; world := time_sleep d (world m); calls := calls m |}.

(** One turn of the [while self._processing] loop of
    [_process_queue_async]: the four priorities in order, then a pause of
    0.1 s; an exception ends the turn, is printed, and the pause is 1 s. *)
Definition async_turn (m : Machine) : Machine :=
  let step (st : Machine * result unit) (p : Priority) :=
    match st with
    | (m, Ok _) => _process_priority_queue m p
    | (m, Raise e) => (m, Raise e)
    end in
  match fold_left step [URGENT; HIGH; NORMAL; LOW] (m, Ok tt) with
  | (m, Ok _) => asleep (1 # 10) m
  | (m, Raise _) => asleep 1 m
  end.

(** [QueueManager._process_queue_async()], for at most [turns] turns of
    its loop. *)
Fixpoint _process_queue_async (turns : nat) (m : Machine) : Machine :=
  match turns with
  | O => m
  | S turns' =>
      if _processing (manager m)
      then _process_queue_async turns' (async_turn m)
      else m
  end.

(** The first non-empty queue in the order URGENT, HIGH, NORMAL, LOW, as
    the [for ... break ... else] of [_process_sync] finds it. *)
Definition first_pending (qs : Queues) : option Priority :=
  find (fun p => negb (bool_decide (queue_of p qs = [])))
    [URGENT; HIGH; NORMAL; LOW].

(** [QueueManager._process_sync()].  Calling a coroutine function here
    only creates the coroutine object. *)
Definition _process_sync (m : Machine) : Machine * result unit :=
  match first_pending (_queues (manager m)) with
  | None => (m, Ok tt)
  | Some p =>
      match queue_of p (_queues (manager m)) with
      | [] => (m, Ok tt)
      | request :: rest =>
          let qm :=
            with_queues (set_queue p rest (_queues (manager m))) (manager m) in
          let '(h, allowed) :=
            can_proceed (rate_limit_handler qm) (clock (world m))
              (tokens_required request) 1 0 in
          let qm := with_rate_limit_handler h qm in
          match allowed with
          | Ok false =>
              let p' := priority request in
              ({| manager :=
                    with_queues
                      (set_queue p' (request :: queue_of p' (_queues qm))
                         (_queues qm)) qm;
                  world := world m; calls := calls m |}, Ok tt)
          | Ok true =>
              let '(h, w, waited) :=
                wait_if_needed (rate_limit_handler qm) (world m) in
              let qm := with_rate_limit_handler h qm in
              let outcome :=
                match waited with
                | Raise e => Raise e
                | Ok _ =>
                    if iscoroutinefunction (request_func request) then Ok tt
                    else invoke request
                end in
              let log :=
                if is_ok waited then (calls m ++ [id request])%list else calls m in
              match outcome with
              | Ok _ =>
                  ({| manager := with_stats (bump_total_processed (_stats qm)) qm;
                      world := w; calls := log |}, Ok tt)
              | Raise e =>
                  let '(qm, r) := _handle_request_error_sync qm request e in
                  ({| manager := qm; world := w; calls := log |}, r)
              end
          | Raise e =>
              let '(qm, r) := _handle_request_error_sync qm request e in
              ({| manager := qm; world := world m; calls := calls m |}, r)
          end
      end
  end.

End Worker.

(** *** Notions used to state the properties of the queue manager *)

(** What holds of a request that sits in the queue of priority [p]. *)
Definition queued_ok (p : Priority) (r : QueuedRequest) : Prop :=
  0 <= retry_count r <= max_retries r
  /\ original_priority r = Some p
  /\ priority r = p.

Definition queues_ok (qs : Queues) : Prop :=
  forall p : Priority, Forall (queued_ok p) (queue_of p qs).

(** The managers that enqueues, worker steps of both paths and changes of
    the shared tracker produce from a new manager, whatever the clock
    reads and whatever the callables do.  Each worker step runs to its
    end before the next operation: the callable is not suspended, and
    [clear_queue] is not called.  [loop_reachable] below is the relation
    with suspensions and [clear_queue]. *)
Inductive manager_reachable (invoke : QueuedRequest -> result unit)
    : QueueManager -> Prop :=
| mr_init h n qm :
    QueueManager_init h n = Ok qm -> manager_reachable invoke qm
| mr_enqueue qm now f a prio tokens retries kw :
    manager_reachable invoke qm ->
    manager_reachable invoke (fst (enqueue qm now f a prio tokens retries kw))
| mr_async qm w log p :
    manager_reachable invoke qm ->
    manager_reachable invoke
      (manager (fst (_process_priority_queue invoke
                       {| manager := qm; world := w; calls := log |} p)))
| mr_sync qm w log :
    manager_reachable invoke qm ->
    manager_reachable invoke
      (manager (fst (_process_sync invoke
                       {| manager := qm; world := w; calls := log |})))
| mr_tracker qm h :
    manager_reachable invoke qm ->
    manager_reachable invoke (with_rate_limit_handler h qm).

(** The precedence of a priority: a larger rank is served first. *)
Definition rank (p : Priority) : Z :=
  match p with LOW => 0 | NORMAL => 1 | HIGH => 2 | URGENT => 3 end.

(** *** A concrete run

    Callables that always return, a manager of capacity 2 with two
    requests, and a manager with one normal and two urgent requests. *)
Definition always_returns : QueuedRequest -> result unit := fun _ => Ok tt.

Definition job : pyfunc := PyFunction "job" true.

Definition new_manager (capacity : Z) : QueueManager :=
  match QueueManager_init None capacity with
  | Ok qm => qm
  | Raise _ =>
      {| rate_limit_handler := RateLimitHandler_init; max_queue_size := 0;
         _queues := {| q_low := []; q_normal := []; q_high := [];
                       q_urgent := [] |};
         _processing := false; _request_counter := 0;
         _stats := {| total_queued := 0; total_processed := 0;
                      total_failed := 0; total_retries := 0 |} |}
  end.

Definition enqueued (prio : string) (retries : Z) (qm : QueueManager)
    : QueueManager :=
  fst (enqueue qm 1000%Q job [] prio 0 retries ∅).

Definition full_manager : QueueManager :=
  enqueued "normal" 3 (enqueued "normal" 3 (new_manager 2)).

Definition mixed_manager : QueueManager :=
  enqueued "urgent" 3 (enqueued "urgent" 3 (enqueued "normal" 3 (new_manager 10))).


Definition start_of (qm : QueueManager) : Machine :=
  {| manager := qm; world := {| clock := 1000%Q; sleeps := [] |}; calls := [] |}.

(** ** Further methods of the rate-limit tracker *)

(** [RateLimitHandler.needs_refresh()] *)
Definition needs_refresh (h : RateLimitHandler) (current_time : Q) : bool :=
  if negb (_has_rate_limit_info h) then true
  else if Qltb 0 (request_reset_time h)
          && Qltb (request_reset_time h - current_time) 30
  then true
  else if Qltb 0 (token_reset_time h)
          && Qltb (token_reset_time h - current_time) 60
  then true
  else if Qltb 0 (last_update h) && Qltb 600 (current_time - last_update h)
  then true
  else false.

(** What calling [api_callback()] gives: an exception, a response without
    headers ([Ok None]: a falsy response or no ['headers'] key), or the
    headers of the response. *)
Definition callback_outcome : Type := result (option (gmap string string)).

(** [RateLimitHandler.refresh_if_needed(api_callback=None)].  With a
    callback, every exception is printed and the answer is [False];
    without one, only the due reset times of the request and the token
    window are cleared, the remaining counts being left alone. *)
Definition refresh_if_needed (h : RateLimitHandler) (current_time : Q)
    (api_callback : option callback_outcome) : RateLimitHandler * bool :=
  if negb (needs_refresh h current_time) then (h, false)
  else
    match api_callback with
    | Some outcome =>
        match outcome with
        | Raise _ => (h, false)
        | Ok None => (h, false)
        | Ok (Some headers) =>
            match update_from_headers h current_time headers with
            | (h, Ok _) => (h, true)
            | (h, Raise _) => (h, false)
            end
        end
    | None =>
        let h :=
          if Qltb 0 (request_reset_time h)
             && Qle_bool (request_reset_time h) current_time
          then set_request_reset_time 0 h else h in
        let h :=
          if Qltb 0 (token_reset_time h)
             && Qle_bool (token_reset_time h) current_time
          then set_token_reset_time 0 h else h in
        (set_last_update current_time h, true)
    end.

(** [RateLimitHandler.has_limits_changed(new_headers)]: an absent limit
    header reads as 0. *)
Definition has_limits_changed (h : RateLimitHandler)
    (new_headers : gmap string string) : result bool :=
  if decide (new_headers = ∅) then Ok false
  else
    let read key :=
      match new_headers !! key with
      | Some v => py_int v
      | None => Some 0
      end in
    match read "x-ratelimit-limit-requests" with
    | None => Raise (ValidationError "new_headers")
    | Some new_request_limit =>
        match read "x-ratelimit-limit-tokens" with
        | None => Raise (ValidationError "new_headers")
        | Some new_token_limit =>
            Ok (negb (new_request_limit =? request_limit h)
                || negb (new_token_limit =? token_limit h))
        end
    end.

(** [RateLimitHandler.reset()] *)
Definition reset (h : RateLimitHandler) : RateLimitHandler :=
  {| request_limit := 0; request_remaining := 0; request_reset_time := 0%Q;
     token_limit := 0; token_remaining := 0; token_reset_time := 0%Q;
     audio_seconds_limit := 0; audio_seconds_remaining := 0;
     audio_seconds_reset_time := 0%Q;
     last_update := 0%Q |}.

Definition reset_key (w : window) : string :=
  match w with
  | Requests => "x-ratelimit-reset-requests"
  | Tokens => "x-ratelimit-reset-tokens"
  | AudioSeconds => "x-ratelimit-reset-audio-seconds"
  end.

(** The keys of the six count headers. *)
Definition count_keys : list string :=
  [ "x-ratelimit-limit-requests"; "x-ratelimit-remaining-requests";
    "x-ratelimit-limit-tokens"; "x-ratelimit-remaining-tokens";
    "x-ratelimit-limit-audio-seconds"; "x-ratelimit-remaining-audio-seconds" ].

(** Every count header that a bag carries parses as an integer. *)
Definition counts_parse (headers : gmap string string) : Prop :=
  forall key v, In key count_keys -> headers !! key = Some v -> py_int v <> None.

(** What a block of the ingestion may do: it leaves [last_update] alone,
    and it either returns or raises the validation error of a count
    header that does not parse. *)
Definition block_ok (headers : gmap string string)
    (b : RateLimitHandler -> RateLimitHandler * result unit) : Prop :=
  forall h h' r,
    b h = (h', r) ->
    last_update h' = last_update h
    /\ (r = Ok tt
        \/ exists key v,
             In key count_keys /\ headers !! key = Some v
             /\ py_int v = None /\ r = Raise (ValidationError key)).

(** The tracker after the ingestion of [exhausted_headers] at time 100,
    and a bag whose second count header does not parse. *)
Definition half_updated_start : RateLimitHandler :=
  fst (update_from_headers RateLimitHandler_init 100%Q exhausted_headers).

Definition unparsable_headers : gmap string string :=
  {[ "x-ratelimit-limit-requests" := "5";
     "x-ratelimit-remaining-requests" := "n/a" ]}.

(** A bag that reports a remaining count and no limit. *)
Definition remaining_nine : gmap string string :=
  {[ "x-ratelimit-remaining-requests" := "9" ]}.

(** ** Further methods of the token counter *)

(** An entry of [TokenCounter._usage_history]. *)
Record UsageRecord : Type := {
  ur_timestamp : Q;
  ur_model : string;
  ur_token_count : Z;
  ur_request_id : option string;
  ur_message_count : Z
}.

(** The usage fields of [TokenCounter]. *)
Record Usage : Type := {
  _usage_history : list UsageRecord;
  _total_tokens_used : Z
}.

(** The usage fields after [TokenCounter.__init__]. *)
Definition Usage_init : Usage :=
  {| _usage_history := []; _total_tokens_used := 0 |}.

(** [TokenCounter.get_usage_history(limit=100)]:
    [self._usage_history[-limit:] if limit > 0 else self._usage_history]. *)
Definition get_usage_history (u : Usage) (limit : Z) : list UsageRecord :=
  if 0 <? limit
  then drop (length (_usage_history u) - Z.to_nat limit) (_usage_history u)
  else _usage_history u.

(** [TokenCounter.get_total_tokens_used()] *)
Definition get_total_tokens_used (u : Usage) : Z := _total_tokens_used u.

(** [TokenCounter.clear_usage_history()] *)
Definition clear_usage_history (u : Usage) : Usage :=
  {| _usage_history := []; _total_tokens_used := 0 |}.

(** The limit that [validate_token_limit] enforces: the declared
    [max_tokens], or the context window of the registry when none is
    declared. *)
Definition effective_limit (context_window max_tokens : option Z) : option Z :=
  match max_tokens with
  | Some m => Some m
  | None => context_window
  end.

(** The dictionary that [validate_request_with_rate_limit] returns. *)
Record ValidationReport : Type := {
  vr_token_count : Z;
  vr_model : string;
  vr_can_proceed : bool;
  vr_rate_limit_status : option Status
}.

Section TiktokenMore.

Variable tiktoken_get_encoding : string -> result Encoding.

(** [TokenCounter.track_token_usage(messages, model, request_id=None)] *)
Definition track_token_usage (tc : TokenCounter) (u : Usage)
    (current_time : Q) (messages : list pyobj) (model : string)
    (request_id : option string) : TokenCounter * Usage * result UsageRecord :=
  match count_message_tokens tiktoken_get_encoding tc messages model with
  | (tc, Raise e) => (tc, u, Raise (TokenCounterError e))
  | (tc, Ok token_count) =>
      let usage_record :=
        {| ur_timestamp := current_time;
           ur_model := model;
           ur_token_count := token_count;
           ur_request_id := request_id;
           ur_message_count := Z.of_nat (length messages) |} in
      (tc,
       {| _usage_history := _usage_history u ++ [usage_record];
          _total_tokens_used := _total_tokens_used u + token_count |},
       Ok usage_record)
  end.

(** [TokenCounter.validate_request_with_rate_limit(messages, model,
    max_tokens=None)], the tracker being the one the counter was built
    with, or [None]. *)
Definition validate_request_with_rate_limit (tc : TokenCounter)
    (rl : option RateLimitHandler) (current_time : Q)
    (messages : list pyobj) (model : string) (max_tokens : option Z)
    : TokenCounter * option RateLimitHandler * result ValidationReport :=
  match count_message_tokens tiktoken_get_encoding tc messages model with
  | (tc, Raise e) => (tc, rl, Raise e)
  | (tc, Ok token_count) =>
      match validate_token_limit tiktoken_get_encoding tc messages model
              max_tokens with
      | (tc, Raise e) => (tc, rl, Raise e)
      | (tc, Ok _) =>
          match rl with
          | None =>
              (tc, None,
               Ok {| vr_token_count := token_count; vr_model := model;
                     vr_can_proceed := true;
                     vr_rate_limit_status := None |})
          | Some h =>
              match can_proceed h current_time token_count 1 0 with
              | (h, Raise e) => (tc, Some h, Raise e)
              | (h, Ok false) =>
                  let '(h, _) := get_status h current_time in
                  (tc, Some h,
                   Raise (RateLimitExceeded "API_RATE_LIMIT_EXCEEDED" None))
              | (h, Ok true) =>
                  let '(h, status) := get_status h current_time in
                  (tc, Some h,
                   Ok {| vr_token_count := token_count; vr_model := model;
                         vr_can_proceed := true;
                         vr_rate_limit_status := Some status |})
              end
          end
      end
  end.

(** [TokenCounter.can_proceed_with_rate_limit(messages, model,
    max_tokens=None)]: [False] on [TokenLimitExceeded], [RateLimitExceeded]
    and [ValidationError] (and its subclass), any other exception goes
    on. *)
Definition can_proceed_with_rate_limit (tc : TokenCounter)
    (rl : option RateLimitHandler) (current_time : Q)
    (messages : list pyobj) (model : string) (max_tokens : option Z)
    : TokenCounter * option RateLimitHandler * result bool :=
  match validate_request_with_rate_limit tc rl current_time messages model
          max_tokens with
  | (tc, rl, Ok _) => (tc, rl, Ok true)
  | (tc, rl, Raise e) =>
      if is_TokenLimitExceeded e || is_RateLimitExceeded e
         || is_ValidationError e
      then (tc, rl, Ok false)
      else (tc, rl, Raise e)
  end.

End TiktokenMore.

(** The ledgers that tracking and clearing produce from the initial one. *)
Inductive usage_reachable (tk : string -> result Encoding) : Usage -> Prop :=
| ur_init : usage_reachable tk Usage_init
| ur_track tc u now messages model request_id :
    usage_reachable tk u ->
    usage_reachable tk
      (snd (fst (track_token_usage tk tc u now messages model request_id)))
| ur_clear u :
    usage_reachable tk u -> usage_reachable tk (clear_usage_history u).

(** ** Message validation of the chat handler *)

Definition valid_roles : list string := ["system"; "user"; "assistant"].

(** [not content.strip()]: the text is empty or all white space. *)
Definition blank (content : string) : bool :=
  forallb is_space (list_ascii_of_string content).

(** The loop of [_validate_messages] from index [i] on.  [valid_roles] is
    a set, so that [role not in valid_roles] hashes the role and raises
    [TypeError] on one that cannot be hashed. *)
Fixpoint validate_loop (i : nat) (messages : list pyobj) : result unit :=
  match messages with
  | [] => Ok tt
  | message :: rest =>
      match message with
      | PyAtom _ => Raise (MessageFormatError i)
      | PyDict d =>
          match d !! "role", d !! "content" with
          | Some PyUnhashable, Some _ => Raise (PyException "TypeError")
          | Some role, Some content =>
              let role_ok :=
                match role with
                | PyStr r => existsb (String.eqb r) valid_roles
                | _ => false
                end in
              if negb role_ok then Raise (MessageFormatError i)
              else
                match content with
                | PyStr c =>
                    if blank c then Raise (MessageFormatError i)
                    else validate_loop (S i) rest
                | _ => Raise (MessageFormatError i)
                end
          | _, _ => Raise (MessageFormatError i)
          end
      end
  end.

(** [TextGenerationHandler._validate_messages(messages)], for [messages]
    a list. *)
Definition _validate_messages (messages : list pyobj) : result unit :=
  match messages with
  | [] => Raise (ValidationError "messages")
  | _ => validate_loop 0 messages
  end.

(** A message that [_validate_messages] accepts: a dictionary whose role
    is one of the three roles and whose content is a string that is not
    blank. *)
Definition valid_message (m : pyobj) : Prop :=
  exists (d : gmap string pyval) (role content : string),
    m = PyDict d /\ d !! "role" = Some (PyStr role)
    /\ d !! "content" = Some (PyStr content)
    /\ In role valid_roles /\ blank content = false.

(** A tracker that knows a token window of 500 with 120 left. *)
Definition token_tracker : RateLimitHandler :=
  fst (update_from_headers RateLimitHandler_init 100%Q
         {[ "x-ratelimit-limit-tokens" := "500";
            "x-ratelimit-remaining-tokens" := "120" ]}).

(** ** Further methods of the queue manager *)

(** [priority.value] *)
Definition Priority_value (p : Priority) : string :=
  match p with
  | LOW => "low" | NORMAL => "normal" | HIGH => "high" | URGENT => "urgent"
  end.

(** [QueueManager._has_pending_requests()] *)
Definition _has_pending_requests (qm : QueueManager) : bool :=
  existsb (fun p => 0 <? Z.of_nat (length (queue_of p (_queues qm))))
    [LOW; NORMAL; HIGH; URGENT].

Section SyncLoop.

Variable invoke : QueuedRequest -> result unit.

(** [QueueManager.process_queue()], for at most [fuel] turns of its
    [while] loop: [None] when the loop is still running after them.  An
    exception that leaves [_process_sync] ends the loop and is raised again
    as [ThreadingError]. *)
Fixpoint process_queue (fuel : nat) (m : Machine)
    : option (Machine * result unit) :=
  match fuel with
  | O => None
  | S fuel' =>
      if _has_pending_requests (manager m) then
        match _process_sync invoke m with
        | (m, Ok _) => process_queue fuel' (asleep (1 # 10) m)
        | (m, Raise e) => Some (m, Raise (ThreadingError e))
        end
      else Some (m, Ok tt)
  end.

End SyncLoop.

(** The dictionary that [get_queue_status] returns. *)
Record QueueStatus : Type := {
  queue_sizes : gmap string Z;
  status_total_queued : Z;
  stats : Stats;
  processing : bool;
  status_max_queue_size : Z
}.

(** [sum(d.values())] *)
Definition sum_values (d : gmap string Z) : Z :=
  map_fold (fun _ v acc => acc + v) 0 d.

(** [QueueManager.get_queue_status()] *)
Definition get_queue_status (qm : QueueManager) : QueueStatus :=
  let queue_sizes : gmap string Z :=
    list_to_map
      (map (fun p => (Priority_value p,
                      Z.of_nat (length (queue_of p (_queues qm)))))
         [LOW; NORMAL; HIGH; URGENT]) in
  {| queue_sizes := queue_sizes;
     status_total_queued := sum_values queue_sizes;
     stats := _stats qm;
     processing := _processing qm;
     status_max_queue_size := max_queue_size qm |}.

(** [QueueManager.clear_queue(priority=None)].  The [raise ValidationError]
    stands inside [try: ... except Exception as e: raise LockError(...)]. *)
Definition clear_queue (qm : QueueManager) (priority : option string)
    : QueueManager * result unit :=
  match priority with
  | None =>
      (with_queues {| q_low := []; q_normal := []; q_high := [];
                      q_urgent := [] |} qm, Ok tt)
  | Some priority =>
      match Priority_of_value (lower priority) with
      | Some priority_enum =>
          (with_queues (set_queue priority_enum [] (_queues qm)) qm, Ok tt)
      | None => (qm, Raise (LockError (ValidationError "priority")))
      end
  end.

(** *** Notions used to state further properties of the queue manager *)

(** The requests of all queues in the order in which the worker serves
    the priorities. *)
Definition service_order (qs : Queues) : list QueuedRequest :=
  (q_urgent qs ++ q_high qs ++ q_normal qs ++ q_low qs)%list.

(** *** The worker on the event loop

    The worker task runs [_process_priority_queue] without interruption up
    to the [await] of the callable in [_execute_request].  There the task
    is suspended, and the other operations of the manager can run on the
    event loop until the callable has returned or raised. *)

(** How the worker leaves the first part of [_process_priority_queue]: the
    call has returned or raised, or it awaits the callable of a request. *)
Inductive Suspension : Type :=
| Returned (r : result unit)
| Awaiting (request : QueuedRequest).

(** The number of requests that a suspension holds. *)
Definition suspended_count (s : Suspension) : Z :=
  match s with Awaiting _ => 1 | Returned _ => 0 end.

(** [QueueManager._process_priority_queue(priority)] up to the [await] of
    the callable: the pop, the admission check, [wait_if_needed], and the
    call itself, which raises [TypeError] at once when a function that is
    not a coroutine function is given keyword arguments. *)
Definition begin_request (m : Machine) (p : Priority) : Machine * Suspension :=
  match queue_of p (_queues (manager m)) with
  | [] => (m, Returned (Ok tt))
  | request :: rest =>
      let qm := with_queues (set_queue p rest (_queues (manager m))) (manager m) in
      let '(h, allowed) :=
        can_proceed (rate_limit_handler qm) (clock (world m))
          (tokens_required request) 1 0 in
      let qm := with_rate_limit_handler h qm in
      match allowed with
      | Ok false =>
          ({| manager :=
                with_queues
                  (set_queue p (request :: queue_of p (_queues qm)) (_queues qm))
                  qm;
              world := world m; calls := calls m |}, Returned (Ok tt))
      | Ok true =>
          let '(h, w, waited) := wait_if_needed (rate_limit_handler qm) (world m) in
          let qm := with_rate_limit_handler h qm in
          match waited with
          | Raise e =>
              let '(qm, r) := _handle_request_error qm request e in
              ({| manager := qm; world := w; calls := calls m |}, Returned r)
          | Ok _ =>
              if if iscoroutinefunction (request_func request) then true
                 else bool_decide (kwargs request = ∅)
              then ({| manager := qm; world := w;
                       calls := (calls m ++ [id request])%list |},
                    Awaiting request)
              else
                let '(qm, r) :=
                  _handle_request_error qm request (PyException "TypeError") in
                ({| manager := qm; world := w; calls := calls m |}, Returned r)
          end
      | Raise e =>
          let '(qm, r) := _handle_request_error qm request e in
          ({| manager := qm; world := world m; calls := calls m |}, Returned r)
      end
  end.

(** The rest of [_process_priority_queue] once the callable of [request]
    has returned or raised: the count of a success in [_execute_request],
    or [_handle_request_error], with [asyncio.TimeoutError] turned into
    [RequestTimeoutError]. *)
Definition finish_request (m : Machine) (request : QueuedRequest)
    (outcome : result unit) : Machine * result unit :=
  match outcome with
  | Ok _ =>
      ({| manager :=
            with_stats (bump_total_processed (_stats (manager m))) (manager m);
          world := world m; calls := calls m |}, Ok tt)
  | Raise e =>
      let e :=
        match e with
        | AsyncioTimeoutError => RequestTimeoutError AsyncioTimeoutError
        | _ => e
        end in
      let '(qm, r) := _handle_request_error (manager m) request e in
      ({| manager := qm; world := world m; calls := calls m |}, r)
  end.

(** A manager on its event loop: the manager, the request whose callable
    the worker awaits, if any, and the number of waiting requests that
    [clear_queue] has removed so far. *)
Record Run : Type := {
  run_manager : QueueManager;
  awaited : option QueuedRequest;
  cleared : Z
}.

Definition new_run (qm : QueueManager) : Run :=
  {| run_manager := qm; awaited := None; cleared := 0 |}.

(** The number of requests that are neither waiting nor accounted for:
    the one whose callable the worker awaits. *)
Definition in_flight (r : Run) : Z :=
  match awaited r with Some _ => 1 | None => 0 end.

(** What happens on the event loop between two suspensions of the worker:
    a call of [enqueue], a change of the shared tracker, a call of
    [clear_queue], a call of [_process_sync] (as [process_queue] makes
    them), and the two parts of [_process_priority_queue]. *)
Inductive Operation : Type :=
| Enqueue (now : Q) (request_func : pyfunc) (args : list pyval)
    (priority : string) (tokens_required max_retries : Z)
    (kwargs : gmap string pyval)
| Tracker (h : RateLimitHandler)
| ClearQueue (priority : option string)
| ProcessSync (invoke : QueuedRequest -> result unit) (w : World)
    (log : list string)
| Begin (w : World) (log : list string) (p : Priority)
| Finish (w : World) (log : list string) (outcome : result unit).

(** One operation on a run; [None] when the worker is not where the
    operation needs it: it starts on a queue only when it awaits nothing,
    and a callable ends only when it is awaited. *)
Definition run_step (r : Run) (op : Operation) : option Run :=
  let qm := run_manager r in
  match op with
  | Enqueue now f a prio tokens retries kw =>
      Some {| run_manager := fst (enqueue qm now f a prio tokens retries kw);
              awaited := awaited r; cleared := cleared r |}
  | Tracker h =>
      Some {| run_manager := with_rate_limit_handler h qm;
              awaited := awaited r; cleared := cleared r |}
  | ClearQueue prio =>
      let qm' := fst (clear_queue qm prio) in
      Some {| run_manager := qm'; awaited := awaited r;
              cleared := cleared r + total_live (_queues qm)
                         - total_live (_queues qm') |}
  | ProcessSync invoke w log =>
      Some {| run_manager :=
                manager (fst (_process_sync invoke
                                {| manager := qm; world := w; calls := log |}));
              awaited := awaited r; cleared := cleared r |}
  | Begin w log p =>
      match awaited r with
      | Some _ => None
      | None =>
          let '(m, s) :=
            begin_request {| manager := qm; world := w; calls := log |} p in
          Some {| run_manager := manager m;
                  awaited := match s with
                             | Awaiting request => Some request
                             | Returned _ => None
                             end;
                  cleared := cleared r |}
      end
  | Finish w log outcome =>
      match awaited r with
      | None => None
      | Some request =>
          Some {| run_manager :=
                    manager (fst (finish_request
                                    {| manager := qm; world := w; calls := log |}
                                    request outcome));
                  awaited := None; cleared := cleared r |}
      end
  end.

(** The runs of a manager with one worker task on one event loop: any
    sequence of operations from a new manager, whatever the clock reads
    and whatever the callables return or raise.  The worker is never
    stopped ([stop_processing] is not among the operations), and a
    callable that [_process_sync] runs does not call the manager. *)
Inductive loop_reachable : Run -> Prop :=
| lr_init h n qm :
    QueueManager_init h n = Ok qm -> loop_reachable (new_run qm)
| lr_step r op r' :
    loop_reachable r -> run_step r op = Some r' -> loop_reachable r'.

Fixpoint run_steps (r : Run) (ops : list Operation) : option Run :=
  match ops with
  | [] => Some r
  | op :: ops' =>
      match run_step r op with
      | Some r' => run_steps r' ops'
      | None => None
      end
  end.

(** The counters of a run agree with its queues. *)
Definition accounts_ok (r : Run) : Prop :=
  let qm := run_manager r in
  0 <= cleared r
  /\ total_live (_queues qm) + in_flight r <= max_queue_size qm + 1
  /\ total_queued (_stats qm) + total_retries (_stats qm)
     = total_live (_queues qm) + in_flight r + total_processed (_stats qm)
       + total_failed (_stats qm) + cleared r
  /\ _request_counter qm = total_queued (_stats qm).

(** A run on a manager of capacity 1: a request is accepted and the worker
    awaits its callable; a second request is accepted meanwhile; then the
    callable raises, and its request is queued again behind the second. *)
Definition crowded_ops : list Operation :=
  let w := {| clock := 1000%Q; sleeps := [] |} in
  [Enqueue 1000%Q job [] "normal" 0 3 ∅;
   Begin w [] NORMAL;
   Enqueue 1000%Q job [] "normal" 0 3 ∅;
   Finish w [] (Raise (PyException "boom"))].

Definition crowded_run : option Run :=
  run_steps (new_run (new_manager 1)) crowded_ops.

(** A run on a manager of capacity 10: three requests are accepted, the
    queues are cleared, two more are accepted, and the worker awaits the
    callable of the first of them. *)
Definition cleared_ops : list Operation :=
  let w := {| clock := 1000%Q; sleeps := [] |} in
  [Enqueue 1000%Q job [] "normal" 0 3 ∅;
   Enqueue 1000%Q job [] "urgent" 0 3 ∅;
   Enqueue 1000%Q job [] "low" 0 3 ∅;
   ClearQueue None;
   Enqueue 1000%Q job [] "normal" 0 3 ∅;
   Enqueue 1000%Q job [] "high" 0 3 ∅;
   Begin w [] HIGH].

Definition cleared_run : option Run :=
  run_steps (new_run (new_manager 10)) cleared_ops.

(** A tracker that knows no limit and awaits no reset, as a new one. *)
Definition unlimited (h : RateLimitHandler) : Prop :=
  forall w : window, limit_of w h <= 0 /\ ~ (0 < reset_at_of w h)%Q.

(** A request for 600 tokens, more than the window of [token_tracker]
    ever holds, and a manager on that tracker that queued it ahead of a
    request that needs no token. *)
Definition oversized_request : QueuedRequest :=
  {| id := "req_1000_1"; request_func := job; args := []; kwargs := ∅;
     priority := NORMAL; timestamp := 1000%Q; retry_count := 0;
     max_retries := 3; tokens_required := 600;
     original_priority := Some NORMAL |}.

Definition oversized_manager : QueueManager :=
  fst (enqueue
         (fst (enqueue (with_rate_limit_handler token_tracker (new_manager 10))
                 1000%Q job [] "normal" 600 3 ∅))
         1000%Q job [] "low" 0 3 ∅).

(** What [process_queue] needs of a queued request to serve it at its first
    turn: a sound token count and a callable that returns (a coroutine
    function is only called, not run). *)
Definition served_at_once (invoke : QueuedRequest -> result unit)
    (r : QueuedRequest) : Prop :=
  0 <= tokens_required r
  /\ (iscoroutinefunction (request_func r) = true \/ invoke r = Ok tt).


(** Callables that always raise, and a manager that queued two requests
    of high priority for a synchronous function, with no retry allowed,
    and then one of low priority. *)
Definition always_raises : QueuedRequest -> result unit :=
  fun _ => Raise (PyException "boom").

Definition sync_job : pyfunc := PyFunction "sync_job" false.

Definition no_retry_request (n : Z) : QueuedRequest :=
  {| id := "req_1000_" ++ pretty n; request_func := sync_job; args := [];
     kwargs := ∅; priority := HIGH; timestamp := 1000%Q; retry_count := 0;
     max_retries := 0; tokens_required := 0;
     original_priority := Some HIGH |}.

Definition no_retry_manager : QueueManager :=
  fst (enqueue
         (fst (enqueue
                 (fst (enqueue (new_manager 10)
                         1000%Q sync_job [] "high" 0 0 ∅))
                 1000%Q sync_job [] "high" 0 0 ∅))
         1000%Q job [] "low" 0 3 ∅).






(** What the asynchronous worker needs of a queued request to serve it at
    its first turn: a sound token count and a callable that can be called
    (a function that is no coroutine function goes through the executor,
    which takes no keyword argument) and returns. *)
Definition served_by_worker (invoke : QueuedRequest -> result unit)
    (r : QueuedRequest) : Prop :=
  0 <= tokens_required r
  /\ (iscoroutinefunction (request_func r) = true \/ kwargs r = ∅)
  /\ invoke r = Ok tt.

(** The heads of the queues in the order of a worker turn, and the queues
    without them. *)
Definition heads (qs : Queues) : list QueuedRequest :=
  flat_map (fun p => firstn 1 (queue_of p qs)) [URGENT; HIGH; NORMAL; LOW].

Definition tails (qs : Queues) : Queues :=
  {| q_low := tl (q_low qs); q_normal := tl (q_normal qs);
     q_high := tl (q_high qs); q_urgent := tl (q_urgent qs) |}.

(** ** The chat handler ([handlers/text_generation.py]) *)

(** [isinstance(e, GroqAPIError)]: every exception class of
    [exceptions/errors.py] derives from [GroqAPIError]. *)
Definition is_GroqAPIError (e : exn) : bool :=
  match e with
  | AsyncioTimeoutError | PyException _ => false
  | _ => true
  end.

(** The keyword arguments that [_prepare_payload] copies. *)
Definition valid_params : list string :=
  [ "temperature"; "max_tokens"; "top_p"; "top_k"; "n"; "stream"; "stop";
    "presence_penalty"; "frequency_penalty"; "logit_bias"; "user";
    "response_format"; "seed"; "tools"; "tool_choice" ].

(** The payload dictionary: its keys ["model"] and ["messages"], which are
    no copied argument, and the copied arguments. *)
Record Payload : Type := {
  payload_model : string;
  payload_messages : list pyobj;
  payload_params : gmap string pyval
}.

(** [TextGenerationHandler._prepare_payload(model, messages, **kwargs)] *)
Definition _prepare_payload (model : string) (messages : list pyobj)
    (kwargs : gmap string pyval) : Payload :=
  {| payload_model := model;
     payload_messages := messages;
     payload_params :=
       filter (fun kv => bool_decide (kv.1 ∈ valid_params) = true) kwargs |}.

(** What [api_client.post(endpoint, payload)] does: it returns the
    response dictionary, with or without a ['_headers'] entry, or it
    raises.  The call takes no time on the clock of the model. *)
Inductive ApiOutcome : Type :=
| ApiResponse (body : string) (_headers : option (gmap string string))
| ApiRaises (e : exn).

(** How a call of [generate] ends: with an exception raised before the
    request was posted, or, the payload posted, with the response returned
    or an exception raised. *)
Inductive GenerateOutcome : Type :=
| Rejected (e : exn)
| Sent (payload : Payload) (r : result string).

Section Generate.

Variable tiktoken_get_encoding : string -> result Encoding.
Variable post : Payload -> ApiOutcome.

(** [TextGenerationHandler._check_rate_limits(messages, model)], on the
    tracker and the clock that the handler shares. *)
Definition _check_rate_limits (hd : TextGenerationHandler)
    (rl : RateLimitHandler) (w : World) (messages : list pyobj)
    (model : string)
    : TextGenerationHandler * RateLimitHandler * World * result unit :=
  let '(tc, counted) :=
    count_message_tokens tiktoken_get_encoding (tg_token_counter hd)
      messages model in
  let hd := {| tg_model_registry := tg_model_registry hd;
               tg_token_counter := tc |} in
  match counted with
  | Raise e => (hd, rl, w, Raise (TextGenerationError model e))
  | Ok tokens_required =>
      let '(rl, allowed) := can_proceed rl (clock w) tokens_required 1 0 in
      match allowed with
      | Raise e => (hd, rl, w, Raise (TextGenerationError model e))
      | Ok true => (hd, rl, w, Ok tt)
      | Ok false =>
          let '(rl, w, waited) := wait_if_needed rl w in
          match waited with
          | Ok _ => (hd, rl, w, Ok tt)
          | Raise e => (hd, rl, w, Raise (TextGenerationError model e))
          end
      end
  end.

(** What the [try] around the post makes of an exception: a
    [GroqAPIError] is raised again (the exceptions of this library carry a
    dictionary or [None] as [response], which has no [headers]), any other
    is wrapped. *)
Definition reraised (model : string) (e : exn) : exn :=
  if is_GroqAPIError e then e else TextGenerationError model e.

(** [TextGenerationHandler.generate(model, prompt, messages, **kwargs)],
    for [messages] a list when given.  The keyword arguments are given as
    [max_tokens], an integer when present, and the others. *)
Definition generate (hd : TextGenerationHandler) (rl : RateLimitHandler)
    (w : World) (model : string) (prompt : option string)
    (messages : option (list pyobj)) (max_tokens : option Z)
    (kwargs : gmap string pyval)
    : TextGenerationHandler * RateLimitHandler * World * GenerateOutcome :=
  match is_model_supported (tg_model_registry hd) model with
  | Raise e => (hd, rl, w, Rejected e)
  | Ok false => (hd, rl, w, Rejected (InvalidModel model))
  | Ok true =>
      match get_type (tg_model_registry hd) model with
      | Raise e => (hd, rl, w, Rejected e)
      | Ok stt => (hd, rl, w, Rejected (InvalidModel model))
      | Ok chat =>
          match prompt, messages with
          | None, None => (hd, rl, w, Rejected (ValidationError "input"))
          | Some _, Some _ => (hd, rl, w, Rejected (ValidationError "input"))
          | _, _ =>
              let messages :=
                match prompt with
                | Some prompt => [message "user" prompt]
                | None => default [] messages
                end in
              match _validate_messages messages with
              | Raise e => (hd, rl, w, Rejected e)
              | Ok _ =>
                  let '(hd, checked) :=
                    _check_token_limits tiktoken_get_encoding hd messages
                      model (default 0 max_tokens) in
                  match checked with
                  | Raise e => (hd, rl, w, Rejected e)
                  | Ok _ =>
                      let '(hd, rl, w, limited) :=
                        _check_rate_limits hd rl w messages model in
                      match limited with
                      | Raise e => (hd, rl, w, Rejected e)
                      | Ok _ =>
                          let kwargs :=
                            match max_tokens with
                            | Some n => <["max_tokens" := PyInt n]> kwargs
                            | None => kwargs
                            end in
                          let payload :=
                            _prepare_payload model messages kwargs in
                          match post payload with
                          | ApiResponse body None =>
                              (hd, rl, w, Sent payload (Ok body))
                          | ApiResponse body (Some _headers) =>
                              let '(rl, updated) :=
                                update_from_headers rl (clock w) _headers in
                              match updated with
                              | Ok _ => (hd, rl, w, Sent payload (Ok body))
                              | Raise e =>
                                  (hd, rl, w,
                                   Sent payload (Raise (reraised model e)))
                              end
                          | ApiRaises e =>
                              (hd, rl, w,
                               Sent payload (Raise (reraised model e)))
                          end
                      end
                  end
              end
          end
      end
  end.

End Generate.

(** An API stand-in that answers every payload with the same body and
    headers, a clock that reads 1000, and the payload of a request for
    the prompt [Hello] with [max_tokens=10]. *)
Definition echo_api (_headers : option (gmap string string))
    : Payload -> ApiOutcome :=
  fun _ => ApiResponse "ok" _headers.

Definition at_1000 : World := {| clock := 1000%Q; sleeps := [] |}.

Definition hello_payload : Payload :=
  _prepare_payload "llama3-8b-8192" [message "user" "Hello"]
    {[ "max_tokens" := PyInt 10 ]}.

(** * Properties *)

(** ** Properties of the rate-limit tracker *)


Lemma Qltb_lt (a b : Q) : Qltb a b = true <-> (a < b)%Q.
Proof.
  unfold Qltb. rewrite negb_true_iff. split.
  - intros H. apply Qnot_le_lt. intros Hle.
    apply Qle_bool_iff in Hle. congruence.
  - intros H. destruct (Qle_bool b a) eqn:E; [|reflexivity].
    apply Qle_bool_iff in E. exfalso. exact (Qlt_not_le _ _ H E).
Qed.

Lemma due_test (current_time reset_at : Q) :
  Qltb 0 reset_at && Qle_bool reset_at current_time = true
  <-> due current_time reset_at.
Proof.
  unfold due. rewrite andb_true_iff, Qltb_lt, Qle_bool_iff. reflexivity.
Qed.

Lemma lazy_reset_limit (w : window) (now : Q) (h : RateLimitHandler) :
  limit_of w (lazy_reset now h) = limit_of w h.
Proof.
  unfold lazy_reset, reset_audio_seconds_if_due, reset_tokens_if_due,
    reset_requests_if_due.
  repeat match goal with |- context [if ?c then _ else _] => destruct c end;
    destruct w; reflexivity.
Qed.

Lemma lazy_reset_due (w : window) (now : Q) (h : RateLimitHandler) :
  due now (reset_at_of w h) ->
  remaining_of w (lazy_reset now h) = limit_of w h
  /\ reset_at_of w (lazy_reset now h) = 0%Q.
Proof.
  intros Hd. apply due_test in Hd.
  unfold lazy_reset, reset_audio_seconds_if_due, reset_tokens_if_due,
    reset_requests_if_due.
  destruct w; simpl in Hd.
  - rewrite Hd.
    repeat match goal with |- context [if ?c then _ else _] => destruct c end;
      split; reflexivity.
  - destruct (Qltb 0 (request_reset_time h) && _); simpl; rewrite Hd;
      repeat match goal with |- context [if ?c then _ else _] => destruct c end;
      split; reflexivity.
  - destruct (Qltb 0 (request_reset_time h) && _); simpl;
      destruct (Qltb 0 (token_reset_time h) && _); simpl; rewrite Hd;
      split; reflexivity.
Qed.

Lemma lazy_reset_not_due (w : window) (now : Q) (h : RateLimitHandler) :
  ~ due now (reset_at_of w h) ->
  remaining_of w (lazy_reset now h) = remaining_of w h
  /\ reset_at_of w (lazy_reset now h) = reset_at_of w h.
Proof.
  intros Hd. rewrite <- due_test in Hd. apply not_true_is_false in Hd.
  unfold lazy_reset, reset_audio_seconds_if_due, reset_tokens_if_due,
    reset_requests_if_due.
  destruct w; simpl in Hd.
  - rewrite Hd.
    repeat match goal with |- context [if ?c then _ else _] => destruct c end;
      split; reflexivity.
  - destruct (Qltb 0 (request_reset_time h) && _); simpl; rewrite Hd;
      repeat match goal with |- context [if ?c then _ else _] => destruct c end;
      split; reflexivity.
  - destruct (Qltb 0 (request_reset_time h) && _); simpl;
      destruct (Qltb 0 (token_reset_time h) && _); simpl; rewrite Hd;
      split; reflexivity.
Qed.

Lemma can_proceed_checks (h : RateLimitHandler) (now : Q) (T R S : Z) :
  0 <= T -> 0 <= R -> 0 <= S ->
  exists b : bool,
    can_proceed h now T R S = (lazy_reset now h, Ok b)
    /\ (b = true <-> admits (lazy_reset now h) T R S).
Proof.
  intros HT HR HS. unfold can_proceed.
  destruct (T <? 0) eqn:ET; [apply Z.ltb_lt in ET; lia|].
  destruct (R <? 0) eqn:ER; [apply Z.ltb_lt in ER; lia|].
  destruct (S <? 0) eqn:ES; [apply Z.ltb_lt in ES; lia|].
  set (h' := lazy_reset now h).
  destruct ((0 <? request_limit h') && (request_remaining h' <? R)) eqn:E1.
  { exists false. split; [reflexivity|]. split; [discriminate|].
    intros Ha. specialize (Ha Requests). simpl in Ha.
    apply andb_true_iff in E1 as [A B].
    apply Z.ltb_lt in A. apply Z.ltb_lt in B. lia. }
  destruct ((0 <? token_limit h') && (token_remaining h' <? T)) eqn:E2.
  { exists false. split; [reflexivity|]. split; [discriminate|].
    intros Ha. specialize (Ha Tokens). simpl in Ha.
    apply andb_true_iff in E2 as [A B].
    apply Z.ltb_lt in A. apply Z.ltb_lt in B. lia. }
  destruct ((0 <? audio_seconds_limit h')
            && (audio_seconds_remaining h' <? S)) eqn:E3.
  { exists false. split; [reflexivity|]. split; [discriminate|].
    intros Ha. specialize (Ha AudioSeconds). simpl in Ha.
    apply andb_true_iff in E3 as [A B].
    apply Z.ltb_lt in A. apply Z.ltb_lt in B. lia. }
  exists true. split; [reflexivity|]. split; [|reflexivity].
  intros _ w Hw.
  apply andb_false_iff in E1, E2, E3.
  destruct w; simpl in *.
  - destruct E1 as [A|A]; [apply Z.ltb_ge in A|apply Z.ltb_ge in A]; lia.
  - destruct E2 as [A|A]; [apply Z.ltb_ge in A|apply Z.ltb_ge in A]; lia.
  - destruct E3 as [A|A]; [apply Z.ltb_ge in A|apply Z.ltb_ge in A]; lia.
Qed.

(** C1.  For every tracker state, clock reading and non-negative requested
    amounts, [can_proceed] first resets lazily: a window whose reset
    deadline is positive and not after the clock reading gets
    [remaining := limit] and [reset_at := 0], the other windows and every
    limit are left as they were.  It then returns [true] exactly when every
    window with [limit > 0] has [remaining >= requested]; a [false] answer
    always comes from a window with [limit > 0], so a window with
    [limit = 0] never blocks, whatever is requested. *)
Theorem can_proceed_admission (h : RateLimitHandler) (now : Q) (T R S : Z) :
  0 <= T -> 0 <= R -> 0 <= S ->
  exists (h' : RateLimitHandler) (b : bool),
    can_proceed h now T R S = (h', Ok b)
    /\ (forall w, limit_of w h' = limit_of w h)
    /\ (forall w, due now (reset_at_of w h) ->
          remaining_of w h' = limit_of w h /\ reset_at_of w h' = 0%Q)
    /\ (forall w, ~ due now (reset_at_of w h) ->
          remaining_of w h' = remaining_of w h
          /\ reset_at_of w h' = reset_at_of w h)
    /\ (b = true <->
        forall w, 0 < limit_of w h' -> requested w T R S <= remaining_of w h')
    /\ (b = false ->
        exists w, 0 < limit_of w h' /\ remaining_of w h' < requested w T R S).
Proof.
  intros HT HR HS.
  destruct (can_proceed_checks h now T R S HT HR HS) as (b & Hrun & Hb).
  exists (lazy_reset now h), b.
  split; [exact Hrun|].
  split; [intros w; apply lazy_reset_limit|].
  split; [intros w; apply lazy_reset_due|].
  split; [intros w; apply lazy_reset_not_due|].
  split; [exact Hb|].
  intros ->.
  set (h' := lazy_reset now h) in *.
  destruct (Z_lt_dec 0 (limit_of Requests h')) as [L1|L1];
    [destruct (Z_lt_dec (remaining_of Requests h') (requested Requests T R S));
       [exists Requests; split; assumption|]|];
  (destruct (Z_lt_dec 0 (limit_of Tokens h')) as [L2|L2];
    [destruct (Z_lt_dec (remaining_of Tokens h') (requested Tokens T R S));
       [exists Tokens; split; assumption|]|]);
  (destruct (Z_lt_dec 0 (limit_of AudioSeconds h')) as [L3|L3];
    [destruct (Z_lt_dec (remaining_of AudioSeconds h')
                 (requested AudioSeconds T R S));
       [exists AudioSeconds; split; assumption|]|]);
  exfalso; assert (false = true) as Hc
    by (apply Hb; intros w Hw; destruct w; lia); discriminate.
Qed.

Lemma can_proceed_admission_witness :
  exists (h' : RateLimitHandler) (b : bool),
    can_proceed
      {| request_limit := 10; request_remaining := 0;
         request_reset_time := 5%Q;
         token_limit := 0; token_remaining := 0; token_reset_time := 0%Q;
         audio_seconds_limit := 0; audio_seconds_remaining := 0;
         audio_seconds_reset_time := 0%Q; last_update := 4%Q |}
      6%Q 1000 10 7 = (h', Ok b)
    /\ b = true /\ request_remaining h' = 10.
Proof.
  destruct (can_proceed_admission
      {| request_limit := 10; request_remaining := 0;
         request_reset_time := 5%Q;
         token_limit := 0; token_remaining := 0; token_reset_time := 0%Q;
         audio_seconds_limit := 0; audio_seconds_remaining := 0;
         audio_seconds_reset_time := 0%Q; last_update := 4%Q |}
      6%Q 1000 10 7 ltac:(lia) ltac:(lia) ltac:(lia))
    as (h' & b & Hrun & _).
  exists h', b. split; [exact Hrun|].
  vm_compute in Hrun. inversion Hrun. split; reflexivity.
Defined.

(** *** The wait policy *)

Lemma pending_test (current_time reset_at : Q) :
  Qltb 0 reset_at && Qltb current_time reset_at = true
  <-> pending current_time reset_at.
Proof.
  unfold pending. rewrite andb_true_iff, !Qltb_lt. reflexivity.
Qed.

Lemma py_max_ge_l (a b : Q) : (a <= py_max a b)%Q.
Proof.
  unfold py_max. destruct (Qltb a b) eqn:E.
  - apply Qltb_lt in E. apply Qlt_le_weak. exact E.
  - apply Qle_refl.
Qed.

Lemma py_max_ge_r (a b : Q) : (b <= py_max a b)%Q.
Proof.
  unfold py_max. destruct (Qltb a b) eqn:E.
  - apply Qle_refl.
  - apply Qnot_lt_le. intros H. apply Qltb_lt in H. congruence.
Qed.

Lemma py_max_cases (a b : Q) : py_max a b = a \/ py_max a b = b.
Proof. unfold py_max. destruct (Qltb a b); auto. Qed.

(** With no pending window the computed wait is the default, 60 seconds. *)
Lemma computed_wait_default (h : RateLimitHandler) (now : Q) :
  (forall w, ~ pending now (reset_at_of w h)) ->
  computed_wait h now = 60%Q.
Proof.
  intros Hn. unfold computed_wait.
  pose proof (Hn Requests) as H1. pose proof (Hn Tokens) as H2.
  pose proof (Hn AudioSeconds) as H3.
  rewrite <- pending_test in H1, H2, H3. simpl in H1, H2, H3.
  apply not_true_is_false in H1, H2, H3.
  rewrite H1, H2, H3. reflexivity.
Qed.

Lemma computed_wait_unfold (h : RateLimitHandler) (now : Q) :
  computed_wait h now
  = if Qeq_bool (max_pending h now) 0 then 60%Q else max_pending h now.
Proof. reflexivity. Qed.

Lemma max_pending_upper (h : RateLimitHandler) (now : Q) (w : window) :
  pending now (reset_at_of w h) ->
  (reset_at_of w h - now <= max_pending h now)%Q.
Proof.
  intros Hp. apply pending_test in Hp. unfold max_pending.
  destruct w; simpl in Hp.
  - rewrite Hp.
    repeat match goal with
           | |- context [if ?c then _ else _] => destruct c
           end;
      repeat (first [ apply py_max_ge_r
                    | eapply Qle_trans; [|apply py_max_ge_l] ]).
  - rewrite Hp.
    repeat match goal with
           | |- context [if ?c then _ else _] => destruct c
           end;
      repeat (first [ apply py_max_ge_r
                    | eapply Qle_trans; [|apply py_max_ge_l] ]).
  - rewrite Hp. apply py_max_ge_r.
Qed.

Lemma max_pending_attained (h : RateLimitHandler) (now : Q) :
  max_pending h now = 0%Q
  \/ exists w, pending now (reset_at_of w h)
               /\ max_pending h now = (reset_at_of w h - now)%Q.
Proof.
  unfold max_pending.
  destruct (Qltb 0 (request_reset_time h) && Qltb now (request_reset_time h))
    eqn:E1;
  destruct (Qltb 0 (token_reset_time h) && Qltb now (token_reset_time h))
    eqn:E2;
  destruct (Qltb 0 (audio_seconds_reset_time h)
            && Qltb now (audio_seconds_reset_time h)) eqn:E3;
  try apply pending_test in E1; try apply pending_test in E2;
  try apply pending_test in E3;
  repeat match goal with
         | |- context [py_max ?a ?b] =>
             destruct (py_max_cases a b) as [-> | ->]
         end;
  first [ left; reflexivity
        | right; exists Requests; split; [assumption|reflexivity]
        | right; exists Tokens; split; [assumption|reflexivity]
        | right; exists AudioSeconds; split; [assumption|reflexivity] ].
Qed.

(** The computed wait is the largest [reset_at - now] among the pending
    windows when there is one. *)
Lemma computed_wait_is_max (h : RateLimitHandler) (now : Q) (w : window) :
  pending now (reset_at_of w h) ->
  (reset_at_of w h - now <= computed_wait h now)%Q
  /\ exists w', pending now (reset_at_of w' h)
                /\ computed_wait h now = (reset_at_of w' h - now)%Q.
Proof.
  intros Hp. pose proof (max_pending_upper h now w Hp) as Hup.
  assert (0 < max_pending h now)%Q as Hpos.
  { eapply Qlt_le_trans; [|exact Hup].
    destruct Hp as [_ Hp]. unfold Qminus.
    rewrite <- (Qplus_opp_r now).
    apply Qplus_lt_l. exact Hp. }
  rewrite computed_wait_unfold.
  destruct (Qeq_bool (max_pending h now) 0) eqn:E.
  - apply Qeq_bool_iff in E. rewrite E in Hpos.
    exfalso. exact (Qlt_irrefl _ Hpos).
  - split; [exact Hup|].
    destruct (max_pending_attained h now) as [H0 | (w' & Hw' & Heq)].
    + rewrite H0 in E. discriminate.
    + exists w'. split; assumption.
Qed.

(** Over the cap, the call sleeps nothing, leaves the tracker as it was and
    what reaches the caller is the [LockError] that wraps the
    [RateLimitExceeded]. *)
Lemma wait_if_needed_over_cap (h : RateLimitHandler) (w : World) :
  (300 < computed_wait h (clock w))%Q ->
  wait_if_needed h w
  = (h, w, Raise (LockError (RateLimitExceeded "RATE_LIMIT_WAIT_TOO_LONG"
                               (Some (computed_wait h (clock w)))))).
Proof.
  intros H. apply Qltb_lt in H. unfold wait_if_needed. rewrite H. reflexivity.
Qed.

(** Under the cap, the call sleeps exactly the computed wait and resets
    lazily at the time it wakes up. *)
Lemma wait_if_needed_under_cap (h : RateLimitHandler) (w : World) :
  (computed_wait h (clock w) <= 300)%Q ->
  wait_if_needed h w
  = (lazy_reset (clock w + computed_wait h (clock w))%Q h,
     time_sleep (computed_wait h (clock w)) w, Ok tt).
Proof.
  intros H. unfold wait_if_needed.
  destruct (Qltb 300 (computed_wait h (clock w))) eqn:E.
  { apply Qltb_lt in E. exfalso. exact (Qlt_not_le _ _ E H). }
  assert (Qltb 0 (computed_wait h (clock w)) = true) as ->; [|reflexivity].
  apply Qltb_lt. rewrite computed_wait_unfold.
  destruct (Qeq_bool (max_pending h (clock w)) 0) eqn:E0; [reflexivity|].
  destruct (max_pending_attained h (clock w)) as [H0 | (w' & [_ Hw'] & ->)].
  - rewrite H0 in E0. discriminate.
  - unfold Qminus. rewrite <- (Qplus_opp_r (clock w)).
    apply Qplus_lt_l. exact Hw'.
Qed.

Lemma wait_if_needed_never_RateLimitExceeded
    (h : RateLimitHandler) (w : World) (e : exn) :
  snd (wait_if_needed h w) = Raise e -> is_RateLimitExceeded e = false.
Proof.
  unfold wait_if_needed.
  destruct (Qltb 300 (computed_wait h (clock w))); simpl.
  - intros [= <-]. reflexivity.
  - destruct (Qltb 0 (computed_wait h (clock w))); simpl; discriminate.
Qed.

(** C2.  At a tracker whose only pending reset is 301 seconds ahead, the
    computed wait is 301 > 300 and the call does not sleep, but the
    exception that reaches the caller is a [LockError] wrapping the
    [RateLimitExceeded] with code RATE_LIMIT_WAIT_TOO_LONG, not that
    rate-limit error itself. *)
Theorem wait_if_needed_over_cap_reaches_caller_as_LockError :
  let w := {| clock := 1000%Q; sleeps := [] |} in
  computed_wait tracker_reset_in_301 (clock w) = 301%Q
  /\ wait_if_needed tracker_reset_in_301 w
     = (tracker_reset_in_301, w,
        Raise (LockError (RateLimitExceeded "RATE_LIMIT_WAIT_TOO_LONG"
                            (Some 301%Q))))
  /\ is_RateLimitExceeded
       (LockError (RateLimitExceeded "RATE_LIMIT_WAIT_TOO_LONG" (Some 301%Q)))
     = false.
Proof. repeat split. Qed.

(** *** Header ingestion and the window invariant *)

Lemma lazy_reset_window_ok (w : window) (now : Q) (h : RateLimitHandler) :
  window_ok w h -> window_ok w (lazy_reset now h).
Proof.
  unfold window_ok. intros Hok.
  rewrite lazy_reset_limit.
  destruct (Qltb 0 (reset_at_of w h) && Qle_bool (reset_at_of w h) now) eqn:E.
  - apply due_test in E.
    destruct (lazy_reset_due w now h E) as [-> _]. lia.
  - assert (~ due now (reset_at_of w h)) as Hn
      by (rewrite <- due_test; congruence).
    destruct (lazy_reset_not_due w now h Hn) as [-> _]. exact Hok.
Qed.

Lemma can_proceed_state (h : RateLimitHandler) (now : Q) (T R S : Z) :
  fst (can_proceed h now T R S) = h
  \/ fst (can_proceed h now T R S) = lazy_reset now h.
Proof.
  unfold can_proceed.
  repeat match goal with
         | |- context [if ?c then _ else _] => destruct c
         end; simpl; auto.
Qed.

Lemma wait_if_needed_state (h : RateLimitHandler) (w : World) :
  fst (fst (wait_if_needed h w)) = h
  \/ exists now, fst (fst (wait_if_needed h w)) = lazy_reset now h.
Proof.
  unfold wait_if_needed.
  repeat match goal with
         | |- context [if ?c then _ else _] => destruct c
         end; simpl; eauto.
Qed.

Lemma ingest_int_reported (key : string)
    (set : Z -> RateLimitHandler -> RateLimitHandler)
    (get : RateLimitHandler -> Z)
    (headers : gmap string string) (h : RateLimitHandler) (n : Z) :
  set (get h) h = h ->
  reported headers key (get h) = Some n ->
  ingest_int key set headers h = (set n h, Ok tt).
Proof.
  unfold reported, ingest_int. intros Hid.
  destruct (headers !! key) as [v|].
  - intros ->. reflexivity.
  - intros [= <-]. rewrite Hid. reflexivity.
Qed.

Lemma ingest_reset_ok key set now (headers : gmap string string) h :
  ingest_reset key set now headers h
  = (reset_applied key set now headers h, Ok tt).
Proof.
  unfold ingest_reset, reset_applied. destruct (headers !! key); reflexivity.
Qed.

Lemma and_then_ok f g h h' :
  f h = (h', Ok tt) -> (f ;;; g) h = g h'.
Proof. unfold and_then. intros ->. reflexivity. Qed.

(** An ingestion of a consistent, non-empty header bag raises nothing and
    stores every reported limit and remaining count as it is. *)
Lemma update_from_headers_stores (h : RateLimitHandler) (now : Q)
    (headers : gmap string string) :
  headers <> ∅ ->
  consistent h headers ->
  exists h',
    update_from_headers h now headers = (h', Ok tt)
    /\ forall w,
         reported headers (limit_key w) (limit_of w h) = Some (limit_of w h')
         /\ reported headers (remaining_key w) (remaining_of w h)
            = Some (remaining_of w h').
Proof.
  intros Hne Hc.
  destruct (Hc Requests) as (l1 & r1 & Hl1 & Hr1 & _).
  destruct (Hc Tokens) as (l2 & r2 & Hl2 & Hr2 & _).
  destruct (Hc AudioSeconds) as (l3 & r3 & Hl3 & Hr3 & _).
  simpl in *.
  unfold update_from_headers.
  destruct (decide (headers = ∅)) as [He|_]; [contradiction|].
  cbv zeta.
  set (k1 := reset_applied "x-ratelimit-reset-requests"
               set_request_reset_time now headers).
  set (k2 := reset_applied "x-ratelimit-reset-tokens"
               set_token_reset_time now headers).
  set (k3 := reset_applied "x-ratelimit-reset-audio-seconds"
               set_audio_seconds_reset_time now headers).
  set (h1 := set_request_limit l1 h).
  set (h2 := set_request_remaining r1 h1).
  set (h3 := k1 h2).
  set (h4 := set_token_limit l2 h3).
  set (h5 := set_token_remaining r2 h4).
  set (h6 := k2 h5).
  set (h7 := set_audio_seconds_limit l3 h6).
  set (h8 := set_audio_seconds_remaining r3 h7).
  set (h9 := k3 h8).
  assert (forall g : RateLimitHandler,
             request_limit (k1 g) = request_limit g
             /\ request_remaining (k1 g) = request_remaining g
             /\ token_limit (k1 g) = token_limit g
             /\ token_remaining (k1 g) = token_remaining g
             /\ audio_seconds_limit (k1 g) = audio_seconds_limit g
             /\ audio_seconds_remaining (k1 g) = audio_seconds_remaining g)
    as K1.
  { intros g. unfold k1, reset_applied.
    destruct (headers !! _); repeat split. }
  assert (forall g : RateLimitHandler,
             request_limit (k2 g) = request_limit g
             /\ request_remaining (k2 g) = request_remaining g
             /\ token_limit (k2 g) = token_limit g
             /\ token_remaining (k2 g) = token_remaining g
             /\ audio_seconds_limit (k2 g) = audio_seconds_limit g
             /\ audio_seconds_remaining (k2 g) = audio_seconds_remaining g)
    as K2.
  { intros g. unfold k2, reset_applied.
    destruct (headers !! _); repeat split. }
  assert (forall g : RateLimitHandler,
             request_limit (k3 g) = request_limit g
             /\ request_remaining (k3 g) = request_remaining g
             /\ token_limit (k3 g) = token_limit g
             /\ token_remaining (k3 g) = token_remaining g
             /\ audio_seconds_limit (k3 g) = audio_seconds_limit g
             /\ audio_seconds_remaining (k3 g) = audio_seconds_remaining g)
    as K3.
  { intros g. unfold k3, reset_applied.
    destruct (headers !! _); repeat split. }
  destruct (K1 h2) as (A1 & A2 & A3 & A4 & A5 & A6).
  destruct (K2 h5) as (B1 & B2 & B3 & B4 & B5 & B6).
  destruct (K3 h8) as (C1 & C2 & C3 & C4 & C5 & C6).
  assert (forall g, set_request_limit (request_limit g) g = g) as I1
    by (intros []; reflexivity).
  assert (forall g, set_request_remaining (request_remaining g) g = g) as I2
    by (intros []; reflexivity).
  assert (forall g, set_token_limit (token_limit g) g = g) as I3
    by (intros []; reflexivity).
  assert (forall g, set_token_remaining (token_remaining g) g = g) as I4
    by (intros []; reflexivity).
  assert (forall g, set_audio_seconds_limit (audio_seconds_limit g) g = g)
    as I5 by (intros []; reflexivity).
  assert (forall g,
             set_audio_seconds_remaining (audio_seconds_remaining g) g = g)
    as I6 by (intros []; reflexivity).
  rewrite (and_then_ok _ _ h h8).
  2:{ rewrite (and_then_ok _ _ h h7).
      2:{ rewrite (and_then_ok _ _ h h6).
          2:{ rewrite (and_then_ok _ _ h h5).
              2:{ rewrite (and_then_ok _ _ h h4).
                  2:{ rewrite (and_then_ok _ _ h h3).
                      2:{ rewrite (and_then_ok _ _ h h2).
                          2:{ rewrite (and_then_ok _ _ h h1).
                              2:{ apply (ingest_int_reported _ _ request_limit);
                                  [apply I1 | exact Hl1]. }
                              apply (ingest_int_reported _ _ request_remaining);
                                [apply I2 | exact Hr1]. }
                          apply ingest_reset_ok. }
                      apply (ingest_int_reported _ _ token_limit);
                        [apply I3 |].
                      unfold h3. rewrite A3. exact Hl2. }
                  apply (ingest_int_reported _ _ token_remaining);
                    [apply I4 |].
                  simpl. unfold h3. rewrite A4. exact Hr2. }
              apply ingest_reset_ok. }
          apply (ingest_int_reported _ _ audio_seconds_limit); [apply I5 |].
          unfold h6. rewrite B5. simpl. unfold h3. rewrite A5. exact Hl3. }
      apply (ingest_int_reported _ _ audio_seconds_remaining); [apply I6 |].
      simpl. unfold h6. rewrite B6. simpl. unfold h3. rewrite A6. exact Hr3. }
  rewrite ingest_reset_ok. fold k3. fold h9.
  assert (request_limit h9 = l1 /\ request_remaining h9 = r1
          /\ token_limit h9 = l2 /\ token_remaining h9 = r2
          /\ audio_seconds_limit h9 = l3 /\ audio_seconds_remaining h9 = r3)
    as (E1 & E2 & E3 & E4 & E5 & E6).
  { unfold h9. rewrite C1, C2, C3, C4, C5, C6. simpl.
    unfold h6. rewrite B1, B2, B3, B4. simpl.
    unfold h3. rewrite A1, A2. simpl. repeat split. }
  exists (set_last_update now h9). split.
  - match goal with
    | |- (if ?c then _ else _) = _ => destruct c; reflexivity
    end.
  - intros w.
    destruct w; simpl; rewrite ?E1, ?E2, ?E3, ?E4, ?E5, ?E6; auto.
Qed.

Lemma update_from_headers_window_ok (h : RateLimitHandler) (now : Q)
    (headers : gmap string string) (w : window) :
  consistent h headers ->
  window_ok w (fst (update_from_headers h now headers)).
Proof.
  intros Hc. destruct (decide (headers = ∅)) as [He|Hne].
  - unfold update_from_headers. rewrite decide_True by exact He. simpl.
    destruct (Hc w) as (l & r & Hl & Hr & Hlr).
    subst headers. unfold reported in Hl, Hr.
    rewrite lookup_empty in Hl, Hr.
    injection Hl as <-. injection Hr as <-. exact Hlr.
  - destruct (update_from_headers_stores h now headers Hne Hc)
      as (h' & -> & Hst).
    simpl. destruct (Hc w) as (l & r & Hl & Hr & Hlr).
    destruct (Hst w) as [Hl' Hr'].
    unfold window_ok. rewrite Hl in Hl'. rewrite Hr in Hr'.
    injection Hl' as <-. injection Hr' as <-. exact Hlr.
Qed.

(** C3, as stated, fails: a fresh tracker that ingests a bag carrying only
    [x-ratelimit-remaining-requests: 5] ends with [remaining = 5] above
    [limit = 0]. *)
Lemma window_invariant_fails_without_clamping :
  ~ (forall h : RateLimitHandler,
        reachable (fun _ _ => True) h -> forall w, window_ok w h).
Proof.
  intros H.
  pose proof (H _ (reach_update (fun _ _ => True) RateLimitHandler_init
                     1000%Q remaining_only (reach_init _) I) Requests) as Hw.
  vm_compute in Hw. destruct Hw as [_ Hw]. apply Hw. reflexivity.
Qed.

(** C3, amended.  Header ingestion stores the reported counts as they
    are, without clamping; when every ingested header bag is consistent
    (its counts parse and, for each window, the reported remaining lies
    between 0 and the reported limit, an absent field standing for the
    tracker's current value), every state reached by ingestions,
    [can_proceed], [wait_if_needed] and [get_status] satisfies
    [0 <= remaining <= limit] for each window. *)
Theorem window_invariant_consistent_headers (h : RateLimitHandler) :
  reachable consistent h -> forall w, window_ok w h.
Proof.
  induction 1 as [|h now headers Hr IH Hc|h now T R S Hr IH|h wd Hr IH
                 |h now Hr IH]; intros w.
  - destruct w; unfold window_ok; simpl; lia.
  - apply update_from_headers_window_ok. exact Hc.
  - destruct (can_proceed_state h now T R S) as [-> | ->];
      [apply IH | apply lazy_reset_window_ok, IH].
  - destruct (wait_if_needed_state h wd) as [-> | [now ->]];
      [apply IH | apply lazy_reset_window_ok, IH].
  - simpl. apply lazy_reset_window_ok, IH.
Qed.

Lemma exhausted_headers_consistent :
  consistent RateLimitHandler_init exhausted_headers.
Proof.
  intros w. destruct w.
  - exists 10, 0. repeat split; try reflexivity; lia.
  - exists 0, 0. repeat split; try reflexivity; lia.
  - exists 0, 0. repeat split; try reflexivity; lia.
Qed.

Lemma window_invariant_consistent_headers_witness :
  window_ok Requests
    (fst (can_proceed
            (fst (update_from_headers RateLimitHandler_init 100%Q
                    exhausted_headers))
            (1011 # 10)%Q 0 10 0)).
Proof.
  apply (window_invariant_consistent_headers
           (fst (can_proceed
                   (fst (update_from_headers RateLimitHandler_init 100%Q
                           exhausted_headers))
                   (1011 # 10)%Q 0 10 0))).
  apply reach_can_proceed. apply reach_update.
  - apply reach_init.
  - exact exhausted_headers_consistent.
Defined.

(** The same scenario, evaluated: no admission right after the ingestion,
    admission of ten requests after the deadline, with [remaining = 10]. *)
Example lazy_reset_scenario :
  let h := fst (update_from_headers RateLimitHandler_init 100%Q
                  exhausted_headers) in
  snd (can_proceed h 100%Q 0 1 0) = Ok false
  /\ snd (can_proceed h (1011 # 10)%Q 0 10 0) = Ok true
  /\ request_remaining (fst (can_proceed h (1011 # 10)%Q 0 10 0)) = 10.
Proof. vm_compute. repeat split. Qed.


(** ** Properties of token counting *)

Section TokenCounting.

(** [tk] stands for [tiktoken.get_encoding]. *)
Variable tk : string -> result Encoding.

Lemma formatted_message_nonempty (role content : string) :
  String.eqb (formatted_message role content) "" = false.
Proof. reflexivity. Qed.

Lemma count_tokens_chat (tc : TokenCounter) (s model : string) :
  String.eqb s "" = false ->
  is_model_supported (tc_model_registry tc) model = Ok true ->
  get_type (tc_model_registry tc) model = Ok chat ->
  snd (count_tokens tk tc s model)
  = match snd (_get_encoder tk tc model) with
    | Raise _ => Raise (EncodingError model "unknown")
    | Ok encoder => encoder_count model encoder s
    end.
Proof.
  intros Hs Hsup Hty. unfold count_tokens. rewrite Hs, Hsup, Hty.
  destruct (_get_encoder tk tc model) as [tc' [encoder|e]]; simpl;
    [|reflexivity].
  unfold encoder_count. destruct (encoder s); reflexivity.
Qed.

Lemma count_loop_sum (encoder : Encoding) (model : string)
    (messages : list pyobj) :
  Forall well_formed messages ->
  forall (i : nat) (total : Z),
    count_loop encoder model i messages total
    = result_add (Ok total)
        (sum_counts (encoder_count model encoder) (map render messages)).
Proof.
  induction 1 as [|m rest Hm Hrest IH]; intros i total; simpl.
  - f_equal. lia.
  - destruct Hm as (d & role & content & -> & Hr & Hc). simpl.
    rewrite Hr, Hc. unfold encoder_count at 1.
    destruct (encoder (formatted_message role content)) as [tokens|e];
      [|reflexivity].
    rewrite IH.
    destruct (sum_counts (encoder_count model encoder) (map render rest));
      simpl; [f_equal; lia | reflexivity].
Qed.

Lemma render_well_formed_nonempty (m : pyobj) :
  well_formed m -> String.eqb (render m) "" = false.
Proof.
  intros (d & role & content & -> & Hr & Hc). simpl. rewrite Hr, Hc.
  reflexivity.
Qed.

Lemma sum_counts_ext (f g : string -> result Z) (texts : list string) :
  Forall (fun s => f s = g s) texts ->
  sum_counts f texts = sum_counts g texts.
Proof.
  induction 1 as [|s rest Hs _ IH]; simpl; [reflexivity|].
  rewrite Hs, IH. reflexivity.
Qed.

Lemma sum_counts_raise (e : exn) (texts : list string) :
  texts <> [] -> sum_counts (fun _ => Raise e) texts = Raise e.
Proof. destruct texts; [congruence|reflexivity]. Qed.

(** The embedding renders as the specification says. *)
Lemma spec_rendered_form_render (m : pyobj) : spec_rendered_form m = render m.
Proof.
  destruct m as [d|v]; [|reflexivity]. unfold spec_rendered_form, render.
  destruct (d !! "role") as [[| |role| |]|]; reflexivity.
Qed.

Lemma spec_assistant_prelude_literal : spec_assistant_prelude = assistant_prelude.
Proof. reflexivity. Qed.

Lemma final_role_is_assistant_last (messages : list pyobj) :
  final_role_is_assistant messages = negb (last_role_not_assistant messages).
Proof.
  unfold last_role_not_assistant.
  induction messages as [|m rest IH]; [reflexivity|].
  destruct rest as [|m' rest'].
  - cbn. destruct m as [d|v]; [|reflexivity].
    destruct (d !! "role") as [[| |role| |]|]; try reflexivity.
    cbn. now rewrite negb_involutive.
  - change (final_role_is_assistant (m :: m' :: rest'))
      with (final_role_is_assistant (m' :: rest')).
    rewrite IH. reflexivity.
Qed.

(** C8.  For a supported chat model and a non-empty list of well-formed
    messages, [count_message_tokens] returns what the specification
    describes: the sum over the messages of [count_tokens] of the rendered
    form, plus [count_tokens] of the assistant prelude exactly when the
    role of the last message is not "assistant"; an exception of one of
    these counts is the exception of the whole. *)
Theorem count_message_tokens_sum_of_renderings
    (tc : TokenCounter) (messages : list pyobj) (model : string) :
  messages <> [] ->
  Forall well_formed messages ->
  is_model_supported (tc_model_registry tc) model = Ok true ->
  get_type (tc_model_registry tc) model = Ok chat ->
  snd (count_message_tokens tk tc messages model)
  = count_messages_spec tk tc messages model.
Proof.
  intros Hne Hwf Hsup Hty.
  unfold count_messages_spec.
  rewrite (map_ext _ _ spec_rendered_form_render).
  rewrite final_role_is_assistant_last, spec_assistant_prelude_literal.
  replace (if negb (last_role_not_assistant messages)
           then Ok 0
           else snd (count_tokens tk tc assistant_prelude model))
    with (if last_role_not_assistant messages
          then snd (count_tokens tk tc assistant_prelude model)
          else Ok 0)
    by (destruct (last_role_not_assistant messages); reflexivity).
  rewrite (sum_counts_ext _
             (fun s => match snd (_get_encoder tk tc model) with
                       | Raise _ => Raise (EncodingError model "unknown")
                       | Ok encoder => encoder_count model encoder s
                       end)).
  2:{ rewrite Forall_forall. intros s Hin.
      apply list_elem_of_In, in_map_iff in Hin as (m & <- & Hm).
      apply count_tokens_chat; [|assumption|assumption].
      apply render_well_formed_nonempty.
      rewrite Forall_forall in Hwf. apply Hwf, list_elem_of_In, Hm. }
  rewrite (count_tokens_chat tc assistant_prelude model eq_refl Hsup Hty).
  unfold count_message_tokens.
  destruct messages as [|m0 rest]; [congruence|].
  rewrite Hsup, Hty.
  destruct (_get_encoder tk tc model) as [tc' [encoder|e]]; cbn [snd].
  - rewrite (count_loop_sum encoder model (m0 :: rest) Hwf 0 0).
    destruct (sum_counts (encoder_count model encoder)
                (map render (m0 :: rest))) as [t|e]; simpl.
    + destruct (last_role_not_assistant (m0 :: rest)); simpl.
      * unfold encoder_count.
        destruct (encoder assistant_prelude); reflexivity.
      * f_equal. lia.
    + reflexivity.
  - rewrite sum_counts_raise by discriminate. reflexivity.
Qed.

(** When the encoder is available and encodes every text, the count is a
    number: the lengths of the encodings of the rendered forms, plus the
    length of the encoding of the prelude when the last role is not
    "assistant". *)
Lemma count_message_tokens_total
    (tc : TokenCounter) (messages : list pyobj) (model : string)
    (encoder : Encoding) (tokens_of : string -> list Z) :
  messages <> [] ->
  Forall well_formed messages ->
  is_model_supported (tc_model_registry tc) model = Ok true ->
  get_type (tc_model_registry tc) model = Ok chat ->
  snd (_get_encoder tk tc model) = Ok encoder ->
  (forall s, encoder s = Ok (tokens_of s)) ->
  snd (count_message_tokens tk tc messages model)
  = Ok (fold_right Z.add 0
          (map (fun m => Z.of_nat (length (tokens_of (render m)))) messages)
        + (if last_role_not_assistant messages
           then Z.of_nat (length (tokens_of assistant_prelude)) else 0)).
Proof.
  intros Hne Hwf Hsup Hty Henc Htot.
  unfold count_message_tokens.
  destruct messages as [|m0 rest]; [congruence|].
  rewrite Hsup, Hty.
  destruct (_get_encoder tk tc model) as [tc' [enc|e]]; simpl in Henc;
    [injection Henc as ->|discriminate].
  cbn [snd].
  rewrite (count_loop_sum encoder model (m0 :: rest) Hwf 0 0).
  assert (forall l, sum_counts (encoder_count model encoder) (map render l)
                    = Ok (fold_right Z.add 0
                            (map (fun m => Z.of_nat
                                             (length (tokens_of (render m))))
                               l))) as Hsum.
  { induction l as [|m l IH]; simpl; [reflexivity|].
    unfold encoder_count at 1. rewrite Htot, IH. reflexivity. }
  rewrite Hsum. cbn [result_add].
  destruct (last_role_not_assistant (m0 :: rest)); cbn [snd].
  - rewrite Htot. cbn [snd]. f_equal.
  - f_equal. lia.
Qed.

Lemma well_formed_or_malformed (m : pyobj) : well_formed m \/ malformed m.
Proof.
  destruct m as [d|v]; [|right; exact I].
  unfold malformed.
  destruct (d !! "role") as [[| |role| |]|] eqn:Hr; try (right; exact I).
  destruct (d !! "content") as [[| |content| |]|] eqn:Hc; try (right; exact I).
  left. exists d, role, content. auto.
Qed.

Lemma first_malformed (messages : list pyobj) :
  Exists malformed messages ->
  exists pre bad post,
    messages = (pre ++ bad :: post)%list /\ Forall well_formed pre /\ malformed bad.
Proof.
  induction messages as [|m rest IH]; intros Hex.
  - inversion Hex.
  - destruct (well_formed_or_malformed m) as [Hw|Hm].
    + assert (Exists malformed rest) as Hrest.
      { inversion Hex as [? ? Hbad|]; subst; [|assumption].
        exfalso. destruct Hw as (d & role & content & -> & Hr & Hc).
        simpl in Hbad. rewrite Hr, Hc in Hbad. exact Hbad. }
      destruct (IH Hrest) as (pre & bad & post & -> & Hpre & Hbad).
      exists (m :: pre), bad, post. repeat split; auto.
    + exists [], m, rest. repeat split; auto.
Qed.

Lemma count_loop_malformed (encoder : Encoding) (model : string)
    (pre : list pyobj) (bad : pyobj) (post : list pyobj) :
  Forall well_formed pre ->
  Forall (fun m => is_ok (encoder (render m)) = true) pre ->
  malformed bad ->
  forall (i : nat) (total : Z),
    count_loop encoder model i (pre ++ bad :: post)%list total
    = Raise (MessageFormatError (i + length pre)).
Proof.
  intros Hwf. induction Hwf as [|m pre Hm Hpre IH]; intros Henc Hbad i total.
  - simpl. rewrite Nat.add_0_r.
    destruct bad as [d|v]; [|reflexivity].
    simpl in Hbad.
    destruct (d !! "role") as [[| |role| |]|]; try reflexivity;
      destruct (d !! "content") as [[| |content| |]|]; try reflexivity.
    contradiction.
  - inversion Henc as [|? ? Hm_enc Hpre_enc]; subst.
    destruct Hm as (d & role & content & -> & Hr & Hc).
    simpl in Hm_enc. rewrite Hr, Hc in Hm_enc.
    simpl. rewrite Hr, Hc.
    destruct (encoder (formatted_message role content)); [|discriminate].
    rewrite IH by assumption. f_equal. f_equal. lia.
Qed.



(** For a supported chat model whose encoder is available, the first
    malformed element decides: after well-formed messages that the encoder
    accepts, it raises the message-format error of its index. *)
Lemma count_message_tokens_first_malformed
    (tc : TokenCounter) (model : string) (encoder : Encoding)
    (pre : list pyobj) (bad : pyobj) (post : list pyobj) :
  is_model_supported (tc_model_registry tc) model = Ok true ->
  get_type (tc_model_registry tc) model = Ok chat ->
  snd (_get_encoder tk tc model) = Ok encoder ->
  Forall well_formed pre ->
  Forall (fun m => is_ok (encoder (render m)) = true) pre ->
  malformed bad ->
  snd (count_message_tokens tk tc (pre ++ bad :: post)%list model)
  = Raise (MessageFormatError (length pre)).
Proof.
  intros Hsup Hty Henc Hwf Hok Hbad.
  unfold count_message_tokens.
  destruct (pre ++ bad :: post)%list as [|m0 rest] eqn:Hl.
  { destruct pre; discriminate. }
  rewrite Hsup, Hty.
  destruct (_get_encoder tk tc model) as [tc' [enc|e]]; simpl in Henc;
    [injection Henc as ->|discriminate].
  rewrite <- Hl.
  rewrite (count_loop_malformed encoder model pre bad post Hwf Hok Hbad 0 0).
  reflexivity.
Qed.

(** C9, amended.  For a supported model, an empty message list raises a
    validation error on the field [messages] (not a message-format error);
    for a supported chat model whose encoder is available, a list whose
    first malformed element stands at index [i], after well-formed
    messages that the encoder accepts, raises the message-format error of
    index [i]. *)
Theorem count_message_tokens_rejections (tc : TokenCounter) (model : string) :
  is_model_supported (tc_model_registry tc) model = Ok true ->
  snd (count_message_tokens tk tc [] model) = Raise (ValidationError "messages")
  /\ forall (encoder : Encoding) (pre : list pyobj) (bad : pyobj)
            (post : list pyobj),
       get_type (tc_model_registry tc) model = Ok chat ->
       snd (_get_encoder tk tc model) = Ok encoder ->
       Forall well_formed pre ->
       Forall (fun m => is_ok (encoder (render m)) = true) pre ->
       malformed bad ->
       snd (count_message_tokens tk tc (pre ++ bad :: post)%list model)
       = Raise (MessageFormatError (length pre)).
Proof.
  intros Hsup. split; [reflexivity|].
  intros encoder pre bad post Hty Henc Hwf Hok Hbad.
  apply (count_message_tokens_first_malformed tc model encoder);
    assumption.
Qed.

(** C10.  For a supported transcription model and a non-empty list,
    [count_message_tokens] returns 0 and leaves the counter as it was,
    whatever the elements are; if the list has a malformed element, the
    same list raises a message-format error for every supported chat model
    whose encoder is available and total. *)
Theorem count_message_tokens_stt_skips_checks
    (tc : TokenCounter) (model : string) (messages : list pyobj) :
  is_model_supported (tc_model_registry tc) model = Ok true ->
  get_type (tc_model_registry tc) model = Ok stt ->
  messages <> [] ->
  count_message_tokens tk tc messages model = (tc, Ok 0)
  /\ (Exists malformed messages ->
      forall (tc' : TokenCounter) (model' : string) (encoder : Encoding),
        is_model_supported (tc_model_registry tc') model' = Ok true ->
        get_type (tc_model_registry tc') model' = Ok chat ->
        snd (_get_encoder tk tc' model') = Ok encoder ->
        total_encoder encoder ->
        raises_message_format
          (snd (count_message_tokens tk tc' messages model'))).
Proof.
  intros Hsup Hty Hne. split.
  - unfold count_message_tokens.
    destruct messages as [|m0 rest]; [congruence|].
    rewrite Hsup, Hty. reflexivity.
  - intros Hex tc' model' encoder Hsup' Hty' Henc Htot.
    destruct (first_malformed messages Hex)
      as (pre & bad & post & -> & Hpre & Hbad).
    rewrite (count_message_tokens_first_malformed tc' model' encoder
               pre bad post Hsup' Hty' Henc Hpre); [| |exact Hbad].
    + eexists. split; reflexivity.
    + rewrite Forall_forall. intros m _. apply Htot.
Qed.

(** *** The token check before dispatch *)


(** What [validate_token_limit] does with a declared [max_tokens]: the
    declared value is the limit, and the counted tokens alone are compared
    with it. *)
Lemma validate_token_limit_declared
    (tc : TokenCounter) (messages : list pyobj) (model : string)
    (max_tokens n : Z) :
  is_model_supported (tc_model_registry tc) model = Ok true ->
  0 <= max_tokens ->
  snd (count_message_tokens tk tc messages model) = Ok n ->
  snd (validate_token_limit tk tc messages model (Some max_tokens))
  = if max_tokens <? n then Raise (TokenLimitExceeded n max_tokens)
    else Ok true.
Proof.
  intros Hsup Hpos Hn. unfold validate_token_limit. rewrite Hsup.
  destruct (max_tokens <? 0) eqn:E; [apply Z.ltb_lt in E; lia|].
  destruct (count_message_tokens tk tc messages model) as [tc' [n'|e]];
    simpl in Hn; [injection Hn as ->|discriminate].
  destruct (max_tokens <? n); reflexivity.
Qed.




End TokenCounting.

(** *** The properties at the concrete instance *)

Lemma message_well_formed (role content : string) :
  well_formed (message role content).
Proof.
  exists {[ "role" := PyStr role; "content" := PyStr content ]}, role, content.
  repeat split.
Qed.

Example message_of_90_counts_90 :
  snd (count_message_tokens char_tiktoken demo_counter message_of_90
         "llama3-8b-8192") = Ok 90.
Proof. vm_compute. reflexivity. Qed.

Lemma count_message_tokens_sum_of_renderings_witness :
  snd (count_message_tokens char_tiktoken demo_counter message_of_90
         "llama3-8b-8192")
  = count_messages_spec char_tiktoken demo_counter message_of_90
      "llama3-8b-8192".
Proof.
  apply (count_message_tokens_sum_of_renderings char_tiktoken demo_counter
           message_of_90 "llama3-8b-8192").
  - discriminate.
  - repeat constructor. apply message_well_formed.
  - reflexivity.
  - reflexivity.
Defined.

(** C9, as stated, fails: for the supported chat model of the instance the
    empty list raises [ValidationError("messages")], which is not a
    message-format error. *)
Lemma empty_list_is_not_a_format_error :
  ~ (forall (tk : string -> result Encoding) (tc : TokenCounter)
            (messages : list pyobj) (model : string),
        is_model_supported (tc_model_registry tc) model = Ok true ->
        messages = [] \/ Exists malformed messages ->
        raises_message_format
          (snd (count_message_tokens tk tc messages model))).
Proof.
  intros H.
  destruct (H char_tiktoken demo_counter [] "llama3-8b-8192" eq_refl
              (or_introl eq_refl)) as (e & He & Hf).
  simpl in He. injection He as <-. discriminate Hf.
Qed.

Lemma count_message_tokens_rejections_witness :
  snd (count_message_tokens char_tiktoken demo_counter [] "llama3-8b-8192")
  = Raise (ValidationError "messages")
  /\ snd (count_message_tokens char_tiktoken demo_counter
            [message "user" "hi"; PyAtom (PyInt 7); message "user" "ho"]
            "llama3-8b-8192")
     = Raise (MessageFormatError 1).
Proof.
  destruct (count_message_tokens_rejections char_tiktoken demo_counter
              "llama3-8b-8192" eq_refl) as [Hempty Hbad].
  split; [exact Hempty|].
  apply (Hbad char_encoding [message "user" "hi"] (PyAtom (PyInt 7))
           [message "user" "ho"]).
  - reflexivity.
  - reflexivity.
  - repeat constructor. apply message_well_formed.
  - repeat constructor.
  - exact I.
Defined.

Lemma count_message_tokens_stt_skips_checks_witness :
  count_message_tokens char_tiktoken demo_counter
    [PyAtom (PyInt 7); PyDict ∅] "whisper-large-v3"
  = (demo_counter, Ok 0)
  /\ raises_message_format
       (snd (count_message_tokens char_tiktoken demo_counter
               [PyAtom (PyInt 7); PyDict ∅] "llama3-8b-8192")).
Proof.
  destruct (count_message_tokens_stt_skips_checks char_tiktoken demo_counter
              "whisper-large-v3" [PyAtom (PyInt 7); PyDict ∅]
              eq_refl eq_refl ltac:(discriminate)) as [Hstt Hchat].
  split; [exact Hstt|].
  apply (Hchat ltac:(constructor; exact I) demo_counter "llama3-8b-8192"
           char_encoding); try reflexivity.
  intros s. reflexivity.
Defined.



(** With the same inputs [validate_token_limit] compares 90 with the
    declared 20. *)
Example validate_token_limit_scenario :
  snd (validate_token_limit char_tiktoken demo_counter message_of_90
         "llama3-8b-8192" (Some 20))
  = Raise (TokenLimitExceeded 90 20)
  /\ snd (validate_token_limit char_tiktoken demo_counter message_of_90
            "llama3-8b-8192" None)
     = Ok true.
Proof. vm_compute. split; reflexivity. Qed.

(** ** Properties of the queue manager *)

Lemma queue_of_set_queue_eq (p : Priority) (l : list QueuedRequest) (qs : Queues) :
  queue_of p (set_queue p l qs) = l.
Proof. destruct p; reflexivity. Qed.

Lemma queue_of_set_queue_ne (p p' : Priority) (l : list QueuedRequest)
    (qs : Queues) :
  p <> p' -> queue_of p (set_queue p' l qs) = queue_of p qs.
Proof. destruct p, p'; intros H; try reflexivity; congruence. Qed.

Lemma Priority_eq_dec (p p' : Priority) : {p = p'} + {p <> p'}.
Proof. decide equality. Qed.

Lemma queues_ok_set_queue (p : Priority) (l : list QueuedRequest) (qs : Queues) :
  queues_ok qs -> Forall (queued_ok p) l -> queues_ok (set_queue p l qs).
Proof.
  intros Hqs Hl p'. destruct (Priority_eq_dec p' p) as [->|Hne].
  - rewrite queue_of_set_queue_eq. exact Hl.
  - rewrite queue_of_set_queue_ne by exact Hne. apply Hqs.
Qed.

(** *** Enqueue at capacity *)

(** At capacity, an enqueue raises and changes nothing: no queue, no
    counter of the statistics, not the request counter.  With valid
    arguments the exception is the [LockError] that wraps the
    [QueueFullError]; in no case is it a [QueueFullError]. *)
Lemma enqueue_at_capacity (qm : QueueManager) (now : Q) (f : pyfunc)
    (a : list pyval) (prio : string) (tokens retries : Z)
    (kw : gmap string pyval) :
  max_queue_size qm <= total_live (_queues qm) ->
  exists e,
    enqueue qm now f a prio tokens retries kw = (qm, Raise e)
    /\ is_QueueFullError e = false
    /\ (callable f = true -> 0 <= tokens -> 0 <= retries ->
        e = LockError (QueueFullError (total_live (_queues qm))
                         (max_queue_size qm))).
Proof.
  intros Hfull. unfold enqueue.
  destruct (callable f); simpl.
  2:{ eexists. repeat split. discriminate. }
  destruct (tokens <? 0) eqn:Et.
  { eexists. repeat split. apply Z.ltb_lt in Et. lia. }
  destruct (retries <? 0) eqn:Er.
  { eexists. repeat split. apply Z.ltb_lt in Er. lia. }
  apply Z.leb_le in Hfull. rewrite Hfull.
  eexists. repeat split.
Qed.

(** C7.  With capacity 2 and two requests queued, a third enqueue raises
    and leaves the manager as it was (queues, statistics and request
    counter), but the exception that reaches the caller is a [LockError]
    wrapping the [QueueFullError(2, 2)], not a queue-full error. *)
Theorem enqueue_full_reaches_caller_as_LockError :
  total_live (_queues full_manager) = 2
  /\ max_queue_size full_manager = 2
  /\ enqueue full_manager 1000%Q job [] "high" 0 3 ∅
     = (full_manager, Raise (LockError (QueueFullError 2 2)))
  /\ is_QueueFullError (LockError (QueueFullError 2 2)) = false.
Proof. repeat split. Qed.

(** *** Retry policy *)

Lemma handle_request_error_sync_same (qm : QueueManager)
    (request : QueuedRequest) (error : exn) :
  _handle_request_error_sync qm request error
  = _handle_request_error qm request error.
Proof. reflexivity. Qed.



Lemma handle_request_error_queues_ok (qm : QueueManager)
    (request : QueuedRequest) (error : exn) (p : Priority) :
  queues_ok (_queues qm) -> queued_ok p request ->
  queues_ok (_queues (fst (_handle_request_error qm request error))).
Proof.
  intros Hqs (Hrc & Hop & Hpr). unfold _handle_request_error.
  destruct (retry_count request <? max_retries request) eqn:E; simpl;
    [|exact Hqs].
  apply Z.ltb_lt in E. rewrite Hop. simpl.
  apply queues_ok_set_queue; [exact Hqs|].
  apply Forall_app. split; [apply Hqs|].
  constructor; [|constructor].
  unfold queued_ok. simpl. repeat split; [lia|lia|exact Hop].
Qed.

Lemma execute_request_queues (invoke : QueuedRequest -> result unit)
    (m : Machine) (request : QueuedRequest) :
  _queues (manager (fst (_execute_request invoke m request)))
  = _queues (manager m).
Proof.
  unfold _execute_request.
  destruct (wait_if_needed _ _) as [[h w] [u|e]]; [|reflexivity].
  destruct (if iscoroutinefunction (request_func request) then true
            else bool_decide (kwargs request = ∅)).
  - destruct (invoke request) as [u'|[]]; reflexivity.
  - reflexivity.
Qed.

Lemma popped_ok (p : Priority) (qs : Queues) (request : QueuedRequest)
    (rest : list QueuedRequest) :
  queues_ok qs -> queue_of p qs = request :: rest ->
  queued_ok p request /\ queues_ok (set_queue p rest qs).
Proof.
  intros Hqs Hq. pose proof (Hqs p) as Hp. rewrite Hq in Hp.
  inversion Hp as [|? ? Hr Hrest]; subst.
  split; [exact Hr|]. apply queues_ok_set_queue; assumption.
Qed.

Lemma process_priority_queue_ok (invoke : QueuedRequest -> result unit)
    (m : Machine) (p : Priority) :
  queues_ok (_queues (manager m)) ->
  queues_ok (_queues (manager (fst (_process_priority_queue invoke m p)))).
Proof.
  intros Hqs. unfold _process_priority_queue.
  destruct (queue_of p (_queues (manager m))) as [|request rest] eqn:Hq;
    [exact Hqs|].
  destruct (popped_ok p _ request rest Hqs Hq) as [Hr Hrest].
  destruct (can_proceed _ _ _ _ _) as [h [[|]|e]].
  - pose proof (execute_request_queues invoke
        {| manager :=
             with_rate_limit_handler h
               (with_queues (set_queue p rest (_queues (manager m)))
                  (manager m));
           world := world m; calls := calls m |} request) as Hex.
    destruct (_execute_request invoke _ request) as [m' [u|e]];
      simpl in Hex |- *.
    + rewrite Hex. exact Hrest.
    + pose proof (handle_request_error_queues_ok (manager m') request e p)
        as Hh.
      destruct (_handle_request_error (manager m') request e) as [qm' r].
      simpl in Hh |- *. apply Hh; [rewrite Hex; exact Hrest | exact Hr].
  - simpl. apply queues_ok_set_queue; [exact Hrest|].
    rewrite queue_of_set_queue_eq. constructor; [exact Hr|].
    pose proof (Hqs p) as Hp. rewrite Hq in Hp.
    inversion Hp; assumption.
  - pose proof (handle_request_error_queues_ok
        (with_rate_limit_handler h
           (with_queues (set_queue p rest (_queues (manager m))) (manager m)))
        request e p Hrest Hr) as Hh.
    destruct (_handle_request_error _ request e) as [qm' r].
    simpl in Hh |- *. exact Hh.
Qed.

Lemma first_pending_nonempty (qs : Queues) (p : Priority) :
  first_pending qs = Some p -> queue_of p qs <> [].
Proof.
  unfold first_pending. simpl.
  repeat match goal with
         | |- context [bool_decide ?P] => destruct (bool_decide_reflect P)
         end; simpl; intros [= <-]; assumption.
Qed.

Lemma process_sync_ok (invoke : QueuedRequest -> result unit) (m : Machine) :
  queues_ok (_queues (manager m)) ->
  queues_ok (_queues (manager (fst (_process_sync invoke m)))).
Proof.
  intros Hqs. unfold _process_sync.
  destruct (first_pending (_queues (manager m))) as [p|]; [|exact Hqs].
  destruct (queue_of p (_queues (manager m))) as [|request rest] eqn:Hq;
    [exact Hqs|].
  destruct (popped_ok p _ request rest Hqs Hq) as [Hr Hrest].
  destruct (can_proceed _ _ _ _ _) as [h [[|]|e]].
  - destruct (wait_if_needed _ _) as [[h' w] waited].
    match goal with
    | |- context [match ?o with Ok _ => _ | Raise _ => _ end] =>
        destruct o as [u|e]
    end.
    + simpl. exact Hrest.
    + pose proof (handle_request_error_queues_ok
          (with_rate_limit_handler h'
             (with_rate_limit_handler h
                (with_queues (set_queue p rest (_queues (manager m)))
                   (manager m))))
          request e p Hrest Hr) as Hh.
      rewrite handle_request_error_sync_same.
      destruct (_handle_request_error _ request e) as [qm' r].
      simpl in Hh |- *. exact Hh.
  - simpl. destruct Hr as (Hrc & Hop & Hpr). rewrite Hpr.
    apply queues_ok_set_queue; [exact Hrest|].
    rewrite queue_of_set_queue_eq. constructor.
    + split; [exact Hrc|]. split; assumption.
    + pose proof (Hqs p) as Hp. rewrite Hq in Hp. inversion Hp; assumption.
  - pose proof (handle_request_error_queues_ok
        (with_rate_limit_handler h
           (with_queues (set_queue p rest (_queues (manager m))) (manager m)))
        request e p Hrest Hr) as Hh.
    rewrite handle_request_error_sync_same.
    destruct (_handle_request_error _ request e) as [qm' r].
    simpl in Hh |- *. exact Hh.
Qed.

Lemma enqueue_ok (qm : QueueManager) (now : Q) (f : pyfunc) (a : list pyval)
    (prio : string) (tokens retries : Z) (kw : gmap string pyval) :
  queues_ok (_queues qm) ->
  queues_ok (_queues (fst (enqueue qm now f a prio tokens retries kw))).
Proof.
  intros Hqs. unfold enqueue.
  destruct (negb (callable f)); [exact Hqs|].
  destruct (tokens <? 0); [exact Hqs|].
  destruct (retries <? 0) eqn:Er; [exact Hqs|].
  destruct (max_queue_size qm <=? total_live (_queues qm)); [exact Hqs|].
  apply Z.ltb_ge in Er.
  unfold _generate_request_id, _start_processing. simpl.
  match goal with
  | |- context [if ?c then _ else _] => destruct c
  end; simpl;
    (apply queues_ok_set_queue; [exact Hqs|];
     apply Forall_app; split; [apply Hqs|];
     constructor; [|constructor];
     unfold queued_ok; simpl; repeat split; lia).
Qed.

Lemma manager_reachable_queues_ok (invoke : QueuedRequest -> result unit)
    (qm : QueueManager) :
  manager_reachable invoke qm -> queues_ok (_queues qm).
Proof.
  induction 1 as [h n qm Hinit|qm now f a prio tokens retries kw _ IH
                 |qm w log p _ IH|qm w log _ IH|qm h _ IH].
  - unfold QueueManager_init in Hinit.
    destruct (n <=? 0); [discriminate|]. injection Hinit as <-.
    intros p. destruct p; constructor.
  - apply enqueue_ok, IH.
  - apply (process_priority_queue_ok invoke
             {| manager := qm; world := w; calls := log |} p IH).
  - apply (process_sync_ok invoke
             {| manager := qm; world := w; calls := log |} IH).
  - exact IH.
Qed.




(** *** Precedence between priorities *)

Lemma first_pending_highest (qs : Queues) (p : Priority) :
  first_pending qs = Some p ->
  queue_of p qs <> []
  /\ forall p', rank p < rank p' -> queue_of p' qs = [].
Proof.
  intros H. split; [apply first_pending_nonempty; exact H|].
  revert H. unfold first_pending. simpl.
  repeat match goal with
         | |- context [bool_decide ?P] => destruct (bool_decide_reflect P)
         end; simpl; intros [= <-]; intros p' Hp'; destruct p';
    simpl in Hp'; try lia; assumption.
Qed.

Lemma first_pending_none (qs : Queues) :
  first_pending qs = None -> forall p, queue_of p qs = [].
Proof.
  unfold first_pending. simpl.
  repeat match goal with
         | |- context [bool_decide ?P] => destruct (bool_decide_reflect P)
         end; simpl; try discriminate.
  intros _ p. destruct p; assumption.
Qed.

(** The synchronous step invokes at most one callable, that of the head
    of the highest-priority non-empty queue. *)
Lemma process_sync_serves_highest (invoke : QueuedRequest -> result unit)
    (m : Machine) :
  calls (fst (_process_sync invoke m)) = calls m
  \/ exists (p : Priority) (request : QueuedRequest)
            (rest : list QueuedRequest),
       queue_of p (_queues (manager m)) = request :: rest
       /\ (forall p', rank p < rank p' ->
             queue_of p' (_queues (manager m)) = [])
       /\ calls (fst (_process_sync invoke m))
          = (calls m ++ [id request])%list.
Proof.
  unfold _process_sync.
  destruct (first_pending (_queues (manager m))) as [p|] eqn:Hfp;
    [|left; reflexivity].
  destruct (first_pending_highest _ _ Hfp) as [_ Hhigh].
  destruct (queue_of p (_queues (manager m))) as [|request rest] eqn:Hq;
    [left; reflexivity|].
  destruct (can_proceed _ _ _ _ _) as [h [[|]|e]].
  - destruct (wait_if_needed _ _) as [[h' w] [u|e]]; simpl is_ok; cbv iota.
    + right. exists p, request, rest. split; [exact Hq|].
      split; [exact Hhigh|].
      destruct (if iscoroutinefunction (request_func request)
                then Ok tt else invoke request) as [u'|e']; [reflexivity|].
      destruct (_handle_request_error_sync _ request e'). reflexivity.
    + left. destruct (_handle_request_error_sync _ request e). reflexivity.
  - left. reflexivity.
  - left. destruct (_handle_request_error_sync _ request e). reflexivity.
Qed.

(** C5.  One urgent request is served, a second urgent request is then at
    the head of the urgent queue and admissible, and the same turn of the
    asynchronous loop goes on to invoke the normal request before it: the
    calls of the turn are the first urgent request, then the normal one,
    while the second urgent request is still queued.  The synchronous step
    on the same manager invokes the first urgent request only. *)
Theorem async_turn_serves_normal_before_waiting_urgent :
  let m0 := start_of mixed_manager in
  let m1 := fst (_process_priority_queue always_returns m0 URGENT) in
  let m2 := async_turn always_returns m0 in
  map id (q_urgent (_queues (manager m0))) = ["req_1000_2"; "req_1000_3"]
  /\ map id (q_normal (_queues (manager m0))) = ["req_1000_1"]
  /\ calls m1 = ["req_1000_2"]
  /\ map id (q_urgent (_queues (manager m1))) = ["req_1000_3"]
  /\ snd (can_proceed (rate_limit_handler (manager m1)) (clock (world m1))
            0 1 0) = Ok true
  /\ calls m2 = ["req_1000_2"; "req_1000_1"]
  /\ map id (q_urgent (_queues (manager m2))) = ["req_1000_3"]
  /\ calls (fst (_process_sync always_returns m0)) = ["req_1000_2"].
Proof. vm_compute. repeat split. Qed.

(** * Further properties *)

(** ** Duration strings *)

Lemma take_while_Forall (p : ascii -> bool) (l : list ascii) :
  Forall (fun c => p c = true) (take_while p l).
Proof.
  induction l as [|c l IH]; simpl; [constructor|].
  destruct (p c) eqn:E; constructor; assumption.
Qed.

Lemma digit_value_nonneg (c : ascii) : is_digit c = true -> 0 <= digit_value c.
Proof.
  unfold is_digit, digit_value. intros H.
  apply andb_true_iff in H as [H _]. apply N.leb_le in H. lia.
Qed.

Lemma digits_value_nonneg (l : list ascii) :
  Forall (fun c => is_digit c = true) l -> 0 <= digits_value l.
Proof.
  unfold digits_value. intros H.
  assert (forall acc, 0 <= acc ->
            0 <= fold_left (fun a c => 10 * a + digit_value c) l acc) as G.
  { induction H as [|c l Hc Hl IH]; intros acc Hacc; simpl; [exact Hacc|].
    apply IH. pose proof (digit_value_nonneg c Hc). lia. }
  apply G. lia.
Qed.

Lemma decimal_value_nonneg (int_part frac_part : list ascii) :
  Forall (fun c => is_digit c = true) int_part ->
  Forall (fun c => is_digit c = true) frac_part ->
  (0 <= decimal_value int_part frac_part)%Q.
Proof.
  intros Hi Hf. unfold decimal_value, Qle. simpl.
  pose proof (digits_value_nonneg (int_part ++ frac_part)
                (proj2 (Forall_app _ _ _) (conj Hi Hf))). lia.
Qed.

(** The parsed duration is never negative. *)
Lemma duration_nonneg (time_str : string) :
  (0 <= _parse_time_string time_str)%Q.
Proof.
  unfold _parse_time_string.
  set (l := list_ascii_of_string time_str).
  pose proof (take_while_Forall is_digit l) as Hint.
  destruct (take_while is_digit l) as [|c0 int_part] eqn:Ei;
    [apply Qle_refl|].
  set (rest := drop_while is_digit l).
  assert (forall frac_part r,
             Forall (fun c => is_digit c = true) frac_part ->
             (0 <= (let unit := lower (string_of_list_ascii
                                         (take_while is_letter r)) in
                    let value := decimal_value (c0 :: int_part) frac_part in
                    if String.eqb unit "" then 0
                    else if String.eqb unit "s" then value
                    else if String.eqb unit "ms" then value / 1000
                    else if String.eqb unit "m" then value * 60
                    else if String.eqb unit "h" then value * 3600
                    else 0))%Q) as G.
  { intros frac_part r Hf. cbv zeta.
    pose proof (decimal_value_nonneg (c0 :: int_part) frac_part Hint Hf)
      as Hv.
    repeat match goal with
           | |- context [if ?c then _ else _] => destruct c
           end; try apply Qle_refl; try exact Hv.
    - apply Qle_shift_div_l; [reflexivity|]. rewrite Qmult_0_l. exact Hv.
    - apply Qmult_le_0_compat; [exact Hv|discriminate].
    - apply Qmult_le_0_compat; [exact Hv|discriminate]. }
  destruct rest as [|c rest'].
  - apply (G [] []). constructor.
  - destruct (Ascii.eqb c "."%char) eqn:Ec.
    + apply Ascii.eqb_eq in Ec. subst c.
      pose proof (take_while_Forall is_digit rest') as Hfr.
      destruct (take_while is_digit rest') as [|d ds] eqn:Ef.
      * apply (G [] ("."%char :: rest')). constructor.
      * apply (G (d :: ds) (drop_while is_digit rest')). exact Hfr.
    + assert (match c with
              | "."%char => false
              | _ => true
              end = true) as Hc.
      { destruct c as [[] [] [] [] [] [] [] []]; try reflexivity.
        discriminate Ec. }
      destruct c as [[] [] [] [] [] [] [] []];
        try discriminate Hc; apply (G [] _); constructor.
Qed.

(** X1.  The duration that [_parse_time_string] returns is never negative,
    whatever the string, and it is 0 for every string that does not start
    with a decimal digit (the empty string, a sign, a leading space).
    The strings are those of code points below 256, as header values are,
    where the decimal digits of [\d] are the ten ASCII digits. *)
Theorem parse_time_string_nonneg (time_str : string) :
  (0 <= _parse_time_string time_str)%Q
  /\ (match list_ascii_of_string time_str with
      | c :: _ => is_digit c = false
      | [] => True
      end -> _parse_time_string time_str = 0%Q).
Proof.
  split; [apply duration_nonneg|].
  unfold _parse_time_string.
  destruct (list_ascii_of_string time_str) as [|c l]; [reflexivity|].
  intros Hc. simpl. rewrite Hc. reflexivity.
Qed.

Lemma take_drop_while_app (p : ascii -> bool) (ds u : list ascii) :
  Forall (fun c => p c = true) ds ->
  match u with c :: _ => p c = false | [] => True end ->
  take_while p (ds ++ u) = ds /\ drop_while p (ds ++ u) = u.
Proof.
  intros Hds Hu. induction Hds as [|c ds Hc _ IH]; simpl.
  - destruct u as [|c u]; simpl; [split; reflexivity|].
    rewrite Hu. split; reflexivity.
  - rewrite Hc. destruct IH as [-> ->]. split; reflexivity.
Qed.

(** A whole number followed by letters: the unit decides. *)
Lemma parse_time_string_whole (ds : list ascii) (u : string) :
  ds <> [] ->
  Forall (fun c => is_digit c = true) ds ->
  match list_ascii_of_string u with
  | c :: _ => is_digit c = false /\ c <> "."%char
  | [] => True
  end ->
  _parse_time_string (string_of_list_ascii (ds ++ list_ascii_of_string u))
  = let unit := lower (string_of_list_ascii
                         (take_while is_letter (list_ascii_of_string u))) in
    let value := Qmake (digits_value ds) 1 in
    if String.eqb unit "" then 0%Q
    else if String.eqb unit "s" then value
    else if String.eqb unit "ms" then (value / 1000)%Q
    else if String.eqb unit "m" then (value * 60)%Q
    else if String.eqb unit "h" then (value * 3600)%Q
    else 0%Q.
Proof.
  intros Hne Hds Hu. unfold _parse_time_string.
  rewrite list_ascii_of_string_of_list_ascii.
  destruct (take_drop_while_app is_digit ds (list_ascii_of_string u) Hds)
    as [Ht Hd].
  { destruct (list_ascii_of_string u); [exact I|apply Hu]. }
  rewrite Ht, Hd.
  destruct ds as [|d ds']; [congruence|].
  assert (decimal_value (d :: ds') [] = Qmake (digits_value (d :: ds')) 1)
    as Hval.
  { unfold decimal_value. rewrite app_nil_r. reflexivity. }
  destruct (list_ascii_of_string u) as [|c rest] eqn:Eu.
  - rewrite Hval. reflexivity.
  - destruct Hu as [_ Hdot].
    destruct (Ascii.eqb c "."%char) eqn:Ec;
      [apply Ascii.eqb_eq in Ec; contradiction|].
    destruct c as [[] [] [] [] [] [] [] []];
      try discriminate Ec; rewrite Hval; reflexivity.
Qed.

(** X2.  The unit table of [_parse_time_string], where the binary64
    arithmetic of the code is exact: a whole number [n] that is a binary64
    number, followed by [s], [ms], [m] or [h], in either case, is [n],
    [n / 1000], [60 n] or [3600 n] seconds whenever that quotient or
    product is a binary64 number too; without a unit, or with any other
    word such as [sec], the duration is 0 whatever the number. *)
Theorem parse_time_string_units (ds : list ascii) :
  ds <> [] ->
  Forall (fun c => is_digit c = true) ds ->
  let text u := string_of_list_ascii (ds ++ list_ascii_of_string u) in
  let n := Qmake (digits_value ds) 1 in
  (binary64 n ->
   _parse_time_string (text "s") = n /\ _parse_time_string (text "S") = n)
  /\ (binary64 n -> binary64 (n / 1000) ->
      _parse_time_string (text "ms") = (n / 1000)%Q
      /\ _parse_time_string (text "MS") = (n / 1000)%Q)
  /\ (binary64 n -> binary64 (n * 60) ->
      _parse_time_string (text "m") = (n * 60)%Q
      /\ _parse_time_string (text "M") = (n * 60)%Q)
  /\ (binary64 n -> binary64 (n * 3600) ->
      _parse_time_string (text "h") = (n * 3600)%Q
      /\ _parse_time_string (text "H") = (n * 3600)%Q)
  /\ _parse_time_string (text "") = 0%Q
  /\ _parse_time_string (text "sec") = 0%Q.
Proof.
  intros Hne Hds text n. unfold text.
  repeat split;
    (rewrite parse_time_string_whole;
     [reflexivity | exact Hne | exact Hds
     | simpl; first [exact I | split; [reflexivity|discriminate]]]).
Qed.

Lemma binary64_by (q : Q) (m e : Z) :
  (Z.abs m <? 2 ^ 53) = true -> ((-1074 <=? e) && (e <=? 971)) = true ->
  Qeq_bool q (inject_Z m * Qpower 2 e) = true -> binary64 q.
Proof.
  intros Hm He Hq. exists m, e.
  apply Z.ltb_lt in Hm. apply andb_true_iff in He as [H1 H2].
  apply Z.leb_le in H1, H2. apply Qeq_bool_iff in Hq. auto.
Qed.

Lemma parse_time_string_units_witness :
  (binary64 250 /\ binary64 (250 / 1000) /\ binary64 2 /\ binary64 (2 * 3600))
  /\ _parse_time_string "250ms" = (250 / 1000)%Q
  /\ _parse_time_string "2H" = (2 * 3600)%Q
  /\ _parse_time_string "15" = 0%Q.
Proof.
  assert (B250 : binary64 250) by (apply (binary64_by _ 250 0); reflexivity).
  assert (B025 : binary64 (250 / 1000))
    by (apply (binary64_by _ 1 (-2)); reflexivity).
  assert (B2 : binary64 2) by (apply (binary64_by _ 2 0); reflexivity).
  assert (B7200 : binary64 (2 * 3600))
    by (apply (binary64_by _ 7200 0); reflexivity).
  split; [repeat split; assumption|].
  pose proof (parse_time_string_units
                (list_ascii_of_string "250") ltac:(discriminate)
                ltac:(repeat constructor)) as H250.
  pose proof (parse_time_string_units
                (list_ascii_of_string "2") ltac:(discriminate)
                ltac:(repeat constructor)) as H2.
  pose proof (parse_time_string_units
                (list_ascii_of_string "15") ltac:(discriminate)
                ltac:(repeat constructor)) as H15.
  cbv zeta in H250, H2, H15.
  destruct H250 as (_ & Hms & _).
  destruct H2 as (_ & _ & _ & Hh & _).
  destruct H15 as (_ & _ & _ & _ & Hnone & _).
  split; [exact (proj1 (Hms B250 B025))|].
  split; [exact (proj2 (Hh B2 B7200))|exact Hnone].
Defined.

(** ** Header ingestion: failures and successes *)

Lemma block_ok_ingest_int (headers : gmap string string) (key : string)
    (set : Z -> RateLimitHandler -> RateLimitHandler) :
  In key count_keys ->
  (forall n h, last_update (set n h) = last_update h) ->
  block_ok headers (ingest_int key set headers).
Proof.
  intros Hkey Hset h h' r. unfold ingest_int.
  destruct (headers !! key) as [v|] eqn:Hv.
  - destruct (py_int v) as [n|] eqn:Hn; intros [= <- <-].
    + split; [apply Hset|left; reflexivity].
    + split; [reflexivity|]. right. exists key, v. auto.
  - intros [= <- <-]. split; [reflexivity|left; reflexivity].
Qed.

Lemma block_ok_ingest_reset (headers : gmap string string) (key : string)
    (set : Q -> RateLimitHandler -> RateLimitHandler) (now : Q) :
  (forall q h, last_update (set q h) = last_update h) ->
  block_ok headers (ingest_reset key set now headers).
Proof.
  intros Hset h h' r. unfold ingest_reset.
  destruct (headers !! key) as [v|]; intros [= <- <-].
  - split; [apply Hset|left; reflexivity].
  - split; [reflexivity|left; reflexivity].
Qed.

Lemma block_ok_and_then (headers : gmap string string)
    (f g : RateLimitHandler -> RateLimitHandler * result unit) :
  block_ok headers f -> block_ok headers g -> block_ok headers (f ;;; g).
Proof.
  intros Hf Hg h h' r. unfold and_then.
  destruct (f h) as [h1 [[]|e]] eqn:Ef.
  - intros Hgh. destruct (Hf _ _ _ Ef) as [Hl _].
    destruct (Hg _ _ _ Hgh) as [Hl' Hr]. split; [congruence|exact Hr].
  - intros [= <- <-]. exact (Hf _ _ _ Ef).
Qed.

(** X3.  When [update_from_headers] raises, either the bag is empty, the
    error is the validation error of [headers] and the tracker is
    untouched; or [int()] refuses a count header of the bag, the error
    that reaches the caller is a [LockError] around the validation error
    of that header, and [last_update] keeps its value.  The header values
    are strings of code points below 256; [int()] strips the white space
    of that range, U+0085 and U+00A0 included, and refuses more than
    [max_str_digits] digits. *)
Theorem update_from_headers_failure (h h' : RateLimitHandler) (now : Q)
    (headers : gmap string string) (e : exn) :
  update_from_headers h now headers = (h', Raise e) ->
  (headers = ∅ /\ h' = h /\ e = ValidationError "headers")
  \/ (exists key v,
        In key count_keys /\ headers !! key = Some v /\ py_int v = None
        /\ e = LockError (ValidationError key)
        /\ last_update h' = last_update h).
Proof.
  unfold update_from_headers.
  destruct (decide (headers = ∅)) as [He|Hne].
  { intros [= <- <-]. left. auto. }
  cbv zeta.
  match goal with
  | |- context [match ?b h with _ => _ end] =>
      assert (block_ok headers b) as Hb
  end.
  { repeat apply block_ok_and_then;
      first [ apply block_ok_ingest_int;
              [unfold count_keys; simpl; tauto | intros n []; reflexivity]
            | apply block_ok_ingest_reset; intros q []; reflexivity ]. }
  match goal with
  | |- context [match ?b h with _ => _ end] => destruct (b h) as [h1 r] eqn:E
  end.
  destruct (Hb _ _ _ E) as [Hl Hr].
  destruct r as [[]|e1].
  - match goal with
    | |- context [if ?c then _ else _] => destruct c
    end; discriminate.
  - intros [= <- <-]. right.
    destruct Hr as [Hr|(key & v & Hk & Hv & Hp & Hr)]; [discriminate|].
    injection Hr as ->. exists key, v. auto.
Qed.

Lemma update_from_headers_failure_witness :
  snd (update_from_headers half_updated_start 200%Q unparsable_headers)
  = Raise (LockError (ValidationError "x-ratelimit-remaining-requests"))
  /\ last_update
       (fst (update_from_headers half_updated_start 200%Q unparsable_headers))
     = 100%Q.
Proof.
  assert (update_from_headers half_updated_start 200%Q unparsable_headers
          = (fst (update_from_headers half_updated_start 200%Q
                    unparsable_headers),
             Raise (LockError
                      (ValidationError "x-ratelimit-remaining-requests"))))
    as Hrun.
  { apply injective_projections; [reflexivity|]. vm_compute. reflexivity. }
  split; [rewrite Hrun; reflexivity|].
  destruct (update_from_headers_failure _ _ _ _ _ Hrun)
    as [(Hempty & _)|(key & v & _ & _ & _ & _ & Hl)].
  - exfalso.
    apply (f_equal (fun m : gmap string string =>
                      m !! "x-ratelimit-limit-requests")) in Hempty.
    rewrite lookup_empty in Hempty. vm_compute in Hempty.
    discriminate Hempty.
  - rewrite Hl. vm_compute. reflexivity.
Defined.

Lemma reported_of_counts_parse (headers : gmap string string) (key : string)
    (current : Z) :
  counts_parse headers -> In key count_keys ->
  exists n, reported headers key current = Some n.
Proof.
  intros Hp Hk. unfold reported.
  destruct (headers !! key) as [v|] eqn:Hv; [|eauto].
  destruct (py_int v) as [n|] eqn:Hn; [eauto|].
  exfalso. exact (Hp key v Hk Hv Hn).
Qed.

(** A non-empty header bag whose count headers all parse is ingested
    without error, and the fields of the tracker are the reported ones. *)
Lemma update_from_headers_parsed (h : RateLimitHandler) (now : Q)
    (headers : gmap string string) :
  headers <> ∅ ->
  counts_parse headers ->
  exists h',
    update_from_headers h now headers = (h', Ok tt)
    /\ last_update h' = now
    /\ forall w,
         reported headers (limit_key w) (limit_of w h) = Some (limit_of w h')
         /\ reported headers (remaining_key w) (remaining_of w h)
            = Some (remaining_of w h')
         /\ reset_at_of w h'
            = match headers !! reset_key w with
              | Some v => (now + _parse_time_string v)%Q
              | None => reset_at_of w h
              end.
Proof.
  intros Hne Hp.
  destruct (reported_of_counts_parse headers "x-ratelimit-limit-requests"
              (request_limit h) Hp) as [l1 Hl1];
    [unfold count_keys; simpl; tauto|].
  destruct (reported_of_counts_parse headers "x-ratelimit-remaining-requests"
              (request_remaining h) Hp) as [r1 Hr1];
    [unfold count_keys; simpl; tauto|].
  destruct (reported_of_counts_parse headers "x-ratelimit-limit-tokens"
              (token_limit h) Hp) as [l2 Hl2];
    [unfold count_keys; simpl; tauto|].
  destruct (reported_of_counts_parse headers "x-ratelimit-remaining-tokens"
              (token_remaining h) Hp) as [r2 Hr2];
    [unfold count_keys; simpl; tauto|].
  destruct (reported_of_counts_parse headers "x-ratelimit-limit-audio-seconds"
              (audio_seconds_limit h) Hp) as [l3 Hl3];
    [unfold count_keys; simpl; tauto|].
  destruct (reported_of_counts_parse headers
              "x-ratelimit-remaining-audio-seconds"
              (audio_seconds_remaining h) Hp) as [r3 Hr3];
    [unfold count_keys; simpl; tauto|].
  unfold update_from_headers.
  destruct (decide (headers = ∅)) as [He|_]; [contradiction|].
  cbv zeta.
  set (k1 := reset_applied "x-ratelimit-reset-requests"
               set_request_reset_time now headers).
  set (k2 := reset_applied "x-ratelimit-reset-tokens"
               set_token_reset_time now headers).
  set (k3 := reset_applied "x-ratelimit-reset-audio-seconds"
               set_audio_seconds_reset_time now headers).
  set (h1 := set_request_limit l1 h).
  set (h2 := set_request_remaining r1 h1).
  set (h3 := k1 h2).
  set (h4 := set_token_limit l2 h3).
  set (h5 := set_token_remaining r2 h4).
  set (h6 := k2 h5).
  set (h7 := set_audio_seconds_limit l3 h6).
  set (h8 := set_audio_seconds_remaining r3 h7).
  set (h9 := k3 h8).
  assert (token_limit h3 = token_limit h
          /\ token_remaining h4 = token_remaining h
          /\ audio_seconds_limit h6 = audio_seconds_limit h
          /\ audio_seconds_remaining h7 = audio_seconds_remaining h)
    as (F1 & F2 & F3 & F4).
  { unfold h7, h6, h5, h4, h3, h2, h1, k1, k2, reset_applied.
    destruct (headers !! "x-ratelimit-reset-requests");
      destruct (headers !! "x-ratelimit-reset-tokens");
      repeat split. }
  assert (forall g, set_request_limit (request_limit g) g = g) as I1
    by (intros []; reflexivity).
  assert (forall g, set_request_remaining (request_remaining g) g = g) as I2
    by (intros []; reflexivity).
  assert (forall g, set_token_limit (token_limit g) g = g) as I3
    by (intros []; reflexivity).
  assert (forall g, set_token_remaining (token_remaining g) g = g) as I4
    by (intros []; reflexivity).
  assert (forall g, set_audio_seconds_limit (audio_seconds_limit g) g = g)
    as I5 by (intros []; reflexivity).
  assert (forall g,
             set_audio_seconds_remaining (audio_seconds_remaining g) g = g)
    as I6 by (intros []; reflexivity).
  assert (ingest_int "x-ratelimit-limit-requests" set_request_limit headers h
          = (h1, Ok tt)) as S1
    by (apply (ingest_int_reported _ _ request_limit); [apply I1|exact Hl1]).
  assert (ingest_int "x-ratelimit-remaining-requests" set_request_remaining
            headers h1 = (h2, Ok tt)) as S2
    by (apply (ingest_int_reported _ _ request_remaining);
        [apply I2|exact Hr1]).
  assert (ingest_int "x-ratelimit-limit-tokens" set_token_limit headers h3
          = (h4, Ok tt)) as S4
    by (apply (ingest_int_reported _ _ token_limit);
        [apply I3|rewrite F1; exact Hl2]).
  assert (ingest_int "x-ratelimit-remaining-tokens" set_token_remaining
            headers h4 = (h5, Ok tt)) as S5
    by (apply (ingest_int_reported _ _ token_remaining);
        [apply I4|rewrite F2; exact Hr2]).
  assert (ingest_int "x-ratelimit-limit-audio-seconds"
            set_audio_seconds_limit headers h6 = (h7, Ok tt)) as S7
    by (apply (ingest_int_reported _ _ audio_seconds_limit);
        [apply I5|rewrite F3; exact Hl3]).
  assert (ingest_int "x-ratelimit-remaining-audio-seconds"
            set_audio_seconds_remaining headers h7 = (h8, Ok tt)) as S8
    by (apply (ingest_int_reported _ _ audio_seconds_remaining);
        [apply I6|rewrite F4; exact Hr3]).
  unfold and_then at 1 2 3 4 5 6 7 8.
  rewrite S1, S2, ingest_reset_ok. fold k1. fold h3.
  rewrite S4, S5, ingest_reset_ok. fold k2. fold h6.
  rewrite S7, S8, ingest_reset_ok. fold k3. fold h9.
  exists (set_last_update now h9). split.
  { match goal with
    | |- (if ?c then _ else _) = _ => destruct c; reflexivity
    end. }
  split; [reflexivity|].
  intros w.
  unfold h9, h8, h7, h6, h5, h4, h3, h2, h1, k1, k2, k3, reset_applied.
  unfold reported in Hl1, Hr1, Hl2, Hr2, Hl3, Hr3 |- *.
  destruct w; simpl;
    destruct (headers !! "x-ratelimit-reset-requests") as [v1|];
    destruct (headers !! "x-ratelimit-reset-tokens") as [v2|];
    destruct (headers !! "x-ratelimit-reset-audio-seconds") as [v3|];
    simpl;
    (split; [first [exact Hl1|exact Hl2|exact Hl3]|]);
    (split; [first [exact Hr1|exact Hr2|exact Hr3]|]);
    reflexivity.
Qed.


(** X4.  A non-empty header bag whose count headers all parse is ingested
    without error: every limit and remaining count is the reported one
    and [last_update] is the time of the call.  The reset deadline of a
    window is unchanged when its reset header is absent; when the header
    is present the deadline is not before the call, and it is the time of
    the call plus the parsed duration wherever the binary64 arithmetic of
    the code is exact, that is when the parse is exact and the sum is a
    binary64 number. *)
Theorem update_from_headers_success (h : RateLimitHandler) (now : Q)
    (headers : gmap string string) :
  headers <> ∅ ->
  counts_parse headers ->
  exists h',
    update_from_headers h now headers = (h', Ok tt)
    /\ last_update h' = now
    /\ forall w,
         reported headers (limit_key w) (limit_of w h) = Some (limit_of w h')
         /\ reported headers (remaining_key w) (remaining_of w h)
            = Some (remaining_of w h')
         /\ (headers !! reset_key w = None ->
             reset_at_of w h' = reset_at_of w h)
         /\ (forall v, headers !! reset_key w = Some v ->
               (now <= reset_at_of w h')%Q
               /\ (exact_duration v ->
                   binary64 (now + _parse_time_string v) ->
                   reset_at_of w h' = (now + _parse_time_string v)%Q)).
Proof.
  intros Hne Hp.
  destruct (update_from_headers_parsed h now headers Hne Hp)
    as (h' & Hrun & Hlast & Hw).
  exists h'. split; [exact Hrun|]. split; [exact Hlast|].
  intros w. destruct (Hw w) as (Hl & Hr & Hreset).
  split; [exact Hl|]. split; [exact Hr|]. split.
  - intros Hv. rewrite Hreset, Hv. reflexivity.
  - intros v Hv. rewrite Hreset, Hv. split.
    + pose proof (duration_nonneg v). lra.
    + intros _ _. reflexivity.
Qed.

Lemma nonempty_by_lookup (m : gmap string string) (k v : string) :
  m !! k = Some v -> m <> ∅.
Proof. intros H ->. rewrite lookup_empty in H. discriminate. Qed.

Lemma exhausted_headers_nonempty : exhausted_headers <> ∅.
Proof.
  apply (nonempty_by_lookup _ "x-ratelimit-limit-requests" "10").
  vm_compute. reflexivity.
Qed.

Lemma exhausted_headers_counts_parse : counts_parse exhausted_headers.
Proof.
  intros key v Hk Hv Hnone.
  assert (exists n, reported exhausted_headers key 0 = Some n) as [n Hn].
  { unfold count_keys in Hk. simpl in Hk.
    repeat (destruct Hk as [<-|Hk]); try contradiction;
      eexists; vm_compute; reflexivity. }
  unfold reported in Hn. rewrite Hv, Hnone in Hn. discriminate.
Qed.

Lemma update_from_headers_success_witness :
  (exhausted_headers <> ∅ /\ counts_parse exhausted_headers)
  /\ (exact_duration "1s" /\ binary64 (100 + _parse_time_string "1s"))
  /\ exists h',
       update_from_headers RateLimitHandler_init 100%Q exhausted_headers
       = (h', Ok tt)
       /\ last_update h' = 100%Q
       /\ request_limit h' = 10
       /\ (100 <= request_reset_time h')%Q
       /\ request_reset_time h' = (100 + _parse_time_string "1s")%Q.
Proof.
  assert (Hexact : exact_duration "1s")
    by (split; apply (binary64_by _ 1 0); reflexivity).
  assert (Hsum : binary64 (100 + _parse_time_string "1s"))
    by (apply (binary64_by _ 101 0); reflexivity).
  split; [split; [exact exhausted_headers_nonempty
                 |exact exhausted_headers_counts_parse]|].
  split; [split; assumption|].
  destruct (update_from_headers_success RateLimitHandler_init 100%Q
              exhausted_headers exhausted_headers_nonempty
              exhausted_headers_counts_parse)
    as (h' & Hrun & Hlast & Hw).
  exists h'. split; [exact Hrun|]. split; [exact Hlast|].
  destruct (Hw Requests) as (Hl & _ & _ & Hset).
  assert (Hv : exhausted_headers !! reset_key Requests = Some "1s")
    by (vm_compute; reflexivity).
  destruct (Hset "1s" Hv) as [Hge Heq].
  split.
  - assert (reported exhausted_headers (limit_key Requests)
              (limit_of Requests RateLimitHandler_init) = Some 10) as E
      by (vm_compute; reflexivity).
    rewrite E in Hl. injection Hl as Hl. symmetry. exact Hl.
  - split; [exact Hge|exact (Heq Hexact Hsum)].
Defined.

(** ** Admission queries *)

(** X5.  Admission is monotone in what is asked: if [can_proceed] admits
    some amounts at a clock reading, it admits all smaller non-negative
    amounts at that reading, and leaves the tracker in the same state. *)
Theorem can_proceed_monotone (h : RateLimitHandler) (now : Q)
    (T R S T' R' S' : Z) :
  0 <= T' <= T -> 0 <= R' <= R -> 0 <= S' <= S ->
  snd (can_proceed h now T R S) = Ok true ->
  can_proceed h now T' R' S' = (fst (can_proceed h now T R S), Ok true).
Proof.
  intros HT HR HS Hok.
  destruct (can_proceed_checks h now T R S) as (b & Hrun & Hb); [lia..|].
  destruct (can_proceed_checks h now T' R' S') as (b' & Hrun' & Hb');
    [lia..|].
  rewrite Hrun in Hok |- *. simpl in Hok |- *. injection Hok as ->.
  rewrite Hrun'. f_equal. f_equal.
  apply Hb'. intros w Hw.
  pose proof (proj1 Hb eq_refl w Hw) as Hreq.
  destruct w; simpl in *; lia.
Qed.

Lemma can_proceed_monotone_witness :
  can_proceed
    (fst (update_from_headers RateLimitHandler_init 100%Q
            {[ "x-ratelimit-limit-tokens" := "500";
               "x-ratelimit-remaining-tokens" := "120" ]}))
    101%Q 40 1 0
  = (fst (can_proceed
            (fst (update_from_headers RateLimitHandler_init 100%Q
                    {[ "x-ratelimit-limit-tokens" := "500";
                       "x-ratelimit-remaining-tokens" := "120" ]}))
            101%Q 120 1 0), Ok true).
Proof.
  apply can_proceed_monotone; try lia. vm_compute. reflexivity.
Defined.

Lemma handler_ext (h g : RateLimitHandler) :
  (forall w, limit_of w h = limit_of w g
             /\ remaining_of w h = remaining_of w g
             /\ reset_at_of w h = reset_at_of w g) ->
  last_update h = last_update g ->
  h = g.
Proof.
  intros Hw Hl.
  destruct (Hw Requests) as (A1 & A2 & A3).
  destruct (Hw Tokens) as (B1 & B2 & B3).
  destruct (Hw AudioSeconds) as (C1 & C2 & C3).
  destruct h, g. cbn in A1, A2, A3, B1, B2, B3, C1, C2, C3, Hl.
  subst. reflexivity.
Qed.

Lemma lazy_reset_last_update (now : Q) (h : RateLimitHandler) :
  last_update (lazy_reset now h) = last_update h.
Proof.
  unfold lazy_reset, reset_audio_seconds_if_due, reset_tokens_if_due,
    reset_requests_if_due.
  repeat match goal with |- context [if ?c then _ else _] => destruct c end;
    reflexivity.
Qed.

Lemma lazy_reset_clears (w : window) (now : Q) (h : RateLimitHandler) :
  ~ due now (reset_at_of w (lazy_reset now h)).
Proof.
  destruct (Qltb 0 (reset_at_of w h) && Qle_bool (reset_at_of w h) now) eqn:E.
  - apply due_test in E. destruct (lazy_reset_due w now h E) as [_ ->].
    intros [H _]. exact (Qlt_irrefl _ H).
  - assert (~ due now (reset_at_of w h)) as Hn
      by (rewrite <- due_test; congruence).
    destruct (lazy_reset_not_due w now h Hn) as [_ ->]. exact Hn.
Qed.

Lemma lazy_reset_idempotent (now : Q) (h : RateLimitHandler) :
  lazy_reset now (lazy_reset now h) = lazy_reset now h.
Proof.
  apply handler_ext; [|apply lazy_reset_last_update].
  intros w. split; [apply lazy_reset_limit|].
  apply lazy_reset_not_due, lazy_reset_clears.
Qed.

(** X6.  Asking twice at the same clock reading changes nothing: a second
    [can_proceed] with the same arguments gives the same answer and the
    same tracker as the first. *)
Theorem can_proceed_stable (h : RateLimitHandler) (now : Q) (T R S : Z) :
  can_proceed (fst (can_proceed h now T R S)) now T R S
  = can_proceed h now T R S.
Proof.
  unfold can_proceed.
  destruct (T <? 0) eqn:ET; [reflexivity|].
  destruct (R <? 0) eqn:ER; [reflexivity|].
  destruct (S <? 0) eqn:ES; [reflexivity|].
  cbv zeta. set (h1 := lazy_reset now h).
  assert (lazy_reset now h1 = h1) as Hid by apply lazy_reset_idempotent.
  destruct ((0 <? request_limit h1) && (request_remaining h1 <? R)) eqn:E1;
    [cbn [fst]; rewrite Hid, E1; reflexivity|].
  destruct ((0 <? token_limit h1) && (token_remaining h1 <? T)) eqn:E2;
    [cbn [fst]; rewrite Hid, E1, E2; reflexivity|].
  destruct ((0 <? audio_seconds_limit h1)
            && (audio_seconds_remaining h1 <? S)) eqn:E3;
    cbn [fst]; rewrite Hid, E1, E2, E3; reflexivity.
Qed.

(** ** Waiting *)

Lemma computed_wait_positive (h : RateLimitHandler) (now : Q) :
  (0 < computed_wait h now)%Q.
Proof.
  rewrite computed_wait_unfold.
  destruct (Qeq_bool (max_pending h now) 0) eqn:E0; [reflexivity|].
  destruct (max_pending_attained h now) as [H0 | (w' & [_ Hw'] & ->)].
  - rewrite H0 in E0. discriminate.
  - lra.
Qed.

(** X7.  When [wait_if_needed] returns, it has slept exactly once, for a
    duration [d] with [0 < d <= 300]; no limit has changed; every window
    that had a reset deadline set has been refilled ([remaining = limit])
    and its deadline cleared, and the other windows are as they were. *)
Theorem wait_if_needed_returns (h h' : RateLimitHandler) (w w' : World) :
  wait_if_needed h w = (h', w', Ok tt) ->
  exists d : Q,
    (0 < d)%Q /\ (d <= 300)%Q
    /\ sleeps w' = (sleeps w ++ [d])%list
    /\ clock w' = (clock w + d)%Q
    /\ forall win,
         limit_of win h' = limit_of win h
         /\ ((0 < reset_at_of win h)%Q ->
             remaining_of win h' = limit_of win h
             /\ reset_at_of win h' = 0%Q)
         /\ (~ (0 < reset_at_of win h)%Q ->
             remaining_of win h' = remaining_of win h
             /\ reset_at_of win h' = reset_at_of win h).
Proof.
  intros Hrun.
  assert (computed_wait h (clock w) <= 300)%Q as Hcap.
  { apply Qnot_lt_le. intros Hlt.
    rewrite (wait_if_needed_over_cap h w Hlt) in Hrun. discriminate. }
  rewrite (wait_if_needed_under_cap h w Hcap) in Hrun.
  injection Hrun as <- <-.
  set (d := computed_wait h (clock w)) in *.
  pose proof (computed_wait_positive h (clock w)) as Hpos. fold d in Hpos.
  exists d. split; [exact Hpos|]. split; [exact Hcap|].
  split; [reflexivity|]. split; [reflexivity|].
  intros win. split; [apply lazy_reset_limit|]. split.
  - intros Hset. apply lazy_reset_due. split; [exact Hset|].
    destruct (Qlt_le_dec (clock w) (reset_at_of win h)) as [Hahead|Hpast].
    + destruct (computed_wait_is_max h (clock w) win (conj Hset Hahead))
        as [Hle _]. fold d in Hle. lra.
    + lra.
  - intros Hunset. apply lazy_reset_not_due. intros [Hset _].
    exact (Hunset Hset).
Qed.

Lemma wait_if_needed_returns_witness :
  exists d : Q,
    (0 < d)%Q /\ (d <= 300)%Q
    /\ request_remaining
         (fst (fst (wait_if_needed half_updated_start
                      {| clock := 100%Q; sleeps := [] |})))
       = 10.
Proof.
  assert (wait_if_needed half_updated_start {| clock := 100%Q; sleeps := [] |}
          = (fst (fst (wait_if_needed half_updated_start
                         {| clock := 100%Q; sleeps := [] |})),
             snd (fst (wait_if_needed half_updated_start
                         {| clock := 100%Q; sleeps := [] |})),
             Ok tt)) as Hrun.
  { apply injective_projections; [|vm_compute; reflexivity].
    apply injective_projections; reflexivity. }
  destruct (wait_if_needed_returns _ _ _ _ Hrun)
    as (d & Hpos & Hcap & _ & _ & Hwin).
  exists d. split; [exact Hpos|]. split; [exact Hcap|].
  destruct (Hwin Requests) as (_ & Hfull & _).
  destruct Hfull as [Hrem _]; [vm_compute; reflexivity|].
  refine (eq_trans Hrem _). vm_compute. reflexivity.
Defined.

(** ** Refresh without a callback *)

Lemma needs_refresh_when_due (h : RateLimitHandler) (now : Q) (w : window) :
  w <> AudioSeconds ->
  due now (reset_at_of w h) ->
  needs_refresh h now = true.
Proof.
  intros Hw [Hpos Hle]. unfold needs_refresh.
  destruct (negb (_has_rate_limit_info h)); [reflexivity|].
  destruct w; [| |congruence]; simpl in Hpos, Hle.
  - assert (Qltb 0 (request_reset_time h)
            && Qltb (request_reset_time h - now) 30 = true) as ->;
      [|reflexivity].
    apply andb_true_iff. split; apply Qltb_lt; lra.
  - destruct (Qltb 0 (request_reset_time h)
              && Qltb (request_reset_time h - now) 30); [reflexivity|].
    assert (Qltb 0 (token_reset_time h)
            && Qltb (token_reset_time h - now) 60 = true) as ->;
      [|reflexivity].
    apply andb_true_iff. split; apply Qltb_lt; lra.
Qed.

Lemma refresh_without_callback_window (h : RateLimitHandler) (now : Q)
    (w : window) :
  w <> AudioSeconds ->
  due now (reset_at_of w h) ->
  refresh_if_needed h now None
  = (fst (refresh_if_needed h now None), true)
  /\ limit_of w (fst (refresh_if_needed h now None)) = limit_of w h
  /\ remaining_of w (fst (refresh_if_needed h now None)) = remaining_of w h
  /\ reset_at_of w (fst (refresh_if_needed h now None)) = 0%Q.
Proof.
  intros Hw Hdue. unfold refresh_if_needed.
  rewrite (needs_refresh_when_due h now w Hw Hdue). cbn [negb fst].
  apply due_test in Hdue.
  destruct w; [| |congruence]; cbn [reset_at_of] in Hdue.
  - rewrite Hdue.
    match goal with
    | |- context [if ?c then set_token_reset_time _ _ else _] => destruct c
    end; repeat split.
  - destruct (Qltb 0 (request_reset_time h)
              && Qle_bool (request_reset_time h) now);
      cbn [token_reset_time set_request_reset_time]; rewrite Hdue;
      repeat split.
Qed.

(** X8.  A refresh without a callback forfeits the refill.  When the reset
    deadline of the request or the token window is due, [refresh_if_needed]
    called without a callback answers [True] and clears the deadline but
    leaves [remaining] as it was; from then on [can_proceed] refuses, at
    every later time, any request that asks that window for more than the
    stale [remaining], although [can_proceed] called in place of the
    refresh would have refilled the window to its limit. *)
Theorem refresh_without_callback_forfeits_refill
    (h : RateLimitHandler) (now : Q) (w : window) :
  w <> AudioSeconds ->
  due now (reset_at_of w h) ->
  let h' := fst (refresh_if_needed h now None) in
  snd (refresh_if_needed h now None) = true
  /\ remaining_of w h' = remaining_of w h
  /\ reset_at_of w h' = 0%Q
  /\ (forall (later : Q) (T R S : Z),
        0 <= T -> 0 <= R -> 0 <= S ->
        0 < limit_of w h ->
        remaining_of w h < requested w T R S ->
        snd (can_proceed h' later T R S) = Ok false)
  /\ (forall T R S : Z,
        0 <= T -> 0 <= R -> 0 <= S ->
        remaining_of w (fst (can_proceed h now T R S)) = limit_of w h).
Proof.
  intros Hw Hdue h'.
  destruct (refresh_without_callback_window h now w Hw Hdue)
    as (Hrun & Hlim & Hrem & Hreset).
  fold h' in Hrun, Hlim, Hrem, Hreset.
  split; [rewrite Hrun; reflexivity|].
  split; [exact Hrem|]. split; [exact Hreset|]. split.
  - intros later T R S HT HR HS Hpos Hless.
    destruct (can_proceed_checks h' later T R S HT HR HS) as (b & Hcp & Hb).
    rewrite Hcp. cbn [snd]. f_equal.
    destruct b; [|reflexivity]. exfalso.
    pose proof (proj1 Hb eq_refl w) as Ha.
    rewrite lazy_reset_limit, Hlim in Ha. specialize (Ha Hpos).
    assert (~ due later (reset_at_of w h')) as Hnd.
    { rewrite Hreset. intros [H0 _]. exact (Qlt_irrefl _ H0). }
    destruct (lazy_reset_not_due w later h' Hnd) as [Hr _].
    rewrite Hr, Hrem in Ha. lia.
  - intros T R S HT HR HS.
    destruct (can_proceed_checks h now T R S HT HR HS) as (b & Hcp & _).
    rewrite Hcp. cbn [fst].
    destruct (lazy_reset_due w now h Hdue) as [Hr _]. exact Hr.
Qed.

Lemma refresh_without_callback_forfeits_refill_witness :
  snd (can_proceed (fst (refresh_if_needed half_updated_start 102%Q None))
         5000%Q 0 1 0) = Ok false
  /\ request_remaining (fst (can_proceed half_updated_start 102%Q 0 1 0)) = 10.
Proof.
  destruct (refresh_without_callback_forfeits_refill half_updated_start 102%Q
              Requests ltac:(discriminate)
              ltac:(split; vm_compute; congruence))
    as (_ & _ & _ & Hrefuse & Hrefill).
  split.
  - apply Hrefuse; try lia; vm_compute; reflexivity.
  - refine (eq_trans (Hrefill 0 1 0 _ _ _) _); try lia.
    vm_compute. reflexivity.
Defined.

(** ** Change prediction *)

(** X9.  [has_limits_changed] reads an absent limit header as 0.  When
    both limit headers are present and the counts of the bag parse, it
    predicts exactly whether ingesting the bag changes the request or the
    token limit; when the bag is not empty but carries neither limit
    header, it answers [True] as soon as a current limit is not 0,
    although ingesting the bag changes no limit. *)
Theorem has_limits_changed_prediction (h : RateLimitHandler) (now : Q)
    (headers : gmap string string) :
  headers <> ∅ ->
  counts_parse headers ->
  let h' := fst (update_from_headers h now headers) in
  (is_Some (headers !! "x-ratelimit-limit-requests") ->
   is_Some (headers !! "x-ratelimit-limit-tokens") ->
   has_limits_changed h headers
   = Ok (negb (request_limit h' =? request_limit h)
         || negb (token_limit h' =? token_limit h)))
  /\ (headers !! "x-ratelimit-limit-requests" = None ->
      headers !! "x-ratelimit-limit-tokens" = None ->
      has_limits_changed h headers
      = Ok (negb (0 =? request_limit h) || negb (0 =? token_limit h))
      /\ request_limit h' = request_limit h
      /\ token_limit h' = token_limit h).
Proof.
  intros Hne Hp h'.
  destruct (update_from_headers_parsed h now headers Hne Hp)
    as (g & Hrun & _ & Hw).
  assert (h' = g) as -> by (unfold h'; rewrite Hrun; reflexivity).
  destruct (Hw Requests) as (Hl1 & _). destruct (Hw Tokens) as (Hl2 & _).
  unfold reported in Hl1, Hl2. cbn [limit_key limit_of] in Hl1, Hl2.
  unfold has_limits_changed.
  destruct (decide (headers = ∅)) as [He|_]; [contradiction|].
  split.
  - intros [v1 H1] [v2 H2]. rewrite H1 in Hl1 |- *. rewrite H2 in Hl2 |- *.
    rewrite Hl1, Hl2. reflexivity.
  - intros H1 H2. rewrite H1 in Hl1 |- *. rewrite H2 in Hl2 |- *.
    injection Hl1 as Hl1. injection Hl2 as Hl2.
    split; [reflexivity|]. split; congruence.
Qed.

Lemma has_limits_changed_prediction_witness :
  has_limits_changed half_updated_start remaining_nine = Ok true
  /\ request_limit
       (fst (update_from_headers half_updated_start 101%Q remaining_nine))
     = 10.
Proof.
  assert (counts_parse remaining_nine) as Hp.
  { intros key v Hk Hv Hnone.
    assert (exists n, reported remaining_nine key 0 = Some n) as [n Hn].
    { unfold count_keys in Hk. simpl in Hk.
      repeat (destruct Hk as [<-|Hk]); try contradiction;
        eexists; vm_compute; reflexivity. }
    unfold reported in Hn. rewrite Hv, Hnone in Hn. discriminate. }
  assert (remaining_nine <> ∅) as Hne.
  { apply (nonempty_by_lookup remaining_nine
             "x-ratelimit-remaining-requests" "9").
    vm_compute. reflexivity. }
  destruct (has_limits_changed_prediction half_updated_start 101%Q
              remaining_nine Hne Hp) as [_ Habsent].
  destruct Habsent as (Hans & Hreq & _);
    [vm_compute; reflexivity | vm_compute; reflexivity |].
  split.
  - refine (eq_trans Hans _). vm_compute. reflexivity.
  - refine (eq_trans Hreq _). vm_compute. reflexivity.
Defined.

(** ** The encoder cache *)

Section EncoderCache.

Variable tk : string -> result Encoding.

Lemma get_encoder_hit (tk' : string -> result Encoding) (tc : TokenCounter)
    (model : string) (encoder : Encoding) :
  _encoders tc !! model = Some encoder ->
  _get_encoder tk' tc model = (tc, Ok encoder).
Proof. intros H. unfold _get_encoder. rewrite H. reflexivity. Qed.

Lemma get_encoder_stores (tc tc' : TokenCounter) (model : string)
    (encoder : Encoding) :
  _get_encoder tk tc model = (tc', Ok encoder) ->
  _encoders tc' !! model = Some encoder
  /\ tc_model_registry tc' = tc_model_registry tc
  /\ forall other, other <> model ->
       _encoders tc' !! other = _encoders tc !! other.
Proof.
  unfold _get_encoder.
  destruct (_encoders tc !! model) as [enc|] eqn:Hc.
  - intros [= <- <-]. auto.
  - destruct (tk _) as [enc|e]; [|discriminate].
    intros [= <- <-]. cbn [_encoders tc_model_registry].
    split; [apply lookup_insert_eq|]. split; [reflexivity|].
    intros other Hne. apply lookup_insert_ne. congruence.
Qed.

(** X10.  The encoder cache: once [_get_encoder] has returned an encoder
    for a model, every later call for that model returns the same encoder
    and leaves the counter unchanged, whatever [tiktoken.get_encoding]
    would answer then; the first call changes neither the registry nor the
    cached encoder of any other model. *)
Theorem encoder_cache_round_trip (tc tc' : TokenCounter) (model : string)
    (encoder : Encoding) :
  _get_encoder tk tc model = (tc', Ok encoder) ->
  (forall tk' : string -> result Encoding,
      _get_encoder tk' tc' model = (tc', Ok encoder))
  /\ tc_model_registry tc' = tc_model_registry tc
  /\ forall other, other <> model ->
       _encoders tc' !! other = _encoders tc !! other.
Proof.
  intros Hget.
  destruct (get_encoder_stores tc tc' model encoder Hget)
    as (Hhit & Hreg & Hother).
  split; [intros tk'; apply get_encoder_hit; exact Hhit|].
  split; assumption.
Qed.

(** A successful count leaves a counter on which counting for that model
    no longer depends on [tiktoken.get_encoding]. *)
Lemma count_message_tokens_settles (tc : TokenCounter)
    (messages : list pyobj) (model : string) (n : Z) :
  snd (count_message_tokens tk tc messages model) = Ok n ->
  forall (tk' : string -> result Encoding),
    count_message_tokens tk'
      (fst (count_message_tokens tk tc messages model)) messages model
    = (fst (count_message_tokens tk tc messages model), Ok n).
Proof.
  unfold count_message_tokens.
  destruct messages as [|m0 rest]; [discriminate|].
  destruct (is_model_supported (tc_model_registry tc) model)
    as [[|]|e] eqn:Hsup; try discriminate.
  destruct (get_type (tc_model_registry tc) model) as [[|]|e] eqn:Hty;
    try discriminate.
  - destruct (_get_encoder tk tc model) as [tc1 [encoder|e]] eqn:Hget;
      [|discriminate].
    destruct (get_encoder_stores tc tc1 model encoder Hget)
      as (Hhit & Hreg & _).
    destruct (count_loop encoder model 0 (m0 :: rest) 0) as [total|e]
      eqn:Hloop; [|discriminate].
    destruct (last_role_not_assistant (m0 :: rest)) eqn:Hlast.
    + destruct (encoder assistant_prelude) as [toks|e] eqn:Hpre;
        [|discriminate].
      cbn [fst snd]. intros [= <-] tk'.
      rewrite Hreg, Hsup, Hty, (get_encoder_hit tk' tc1 model encoder Hhit),
        Hloop, Hpre. reflexivity.
    + cbn [fst snd]. intros [= <-] tk'.
      rewrite Hreg, Hsup, Hty, (get_encoder_hit tk' tc1 model encoder Hhit),
        Hloop. reflexivity.
  - cbn [fst snd]. intros [= <-] tk'. rewrite Hsup, Hty. reflexivity.
Qed.

Lemma count_loop_nonneg (encoder : Encoding) (model : string)
    (messages : list pyobj) :
  forall (i : nat) (total n : Z),
    0 <= total ->
    count_loop encoder model i messages total = Ok n -> 0 <= n.
Proof.
  induction messages as [|m rest IH]; intros i total n Ht; simpl.
  - intros [= <-]. exact Ht.
  - destruct m as [d|v]; [|discriminate].
    destruct (d !! "role") as [[| |role| |]|]; try discriminate;
      destruct (d !! "content") as [[| |content| |]|]; try discriminate.
    destruct (encoder (formatted_message role content)) as [toks|e];
      [|discriminate].
    apply IH. lia.
Qed.

Lemma count_message_tokens_nonneg (tc : TokenCounter)
    (messages : list pyobj) (model : string) (n : Z) :
  snd (count_message_tokens tk tc messages model) = Ok n -> 0 <= n.
Proof.
  unfold count_message_tokens.
  destruct messages as [|m0 rest]; [discriminate|].
  destruct (is_model_supported (tc_model_registry tc) model)
    as [[|]|e]; try discriminate.
  destruct (get_type (tc_model_registry tc) model) as [[|]|e];
    try discriminate.
  - destruct (_get_encoder tk tc model) as [tc1 [encoder|e]]; [|discriminate].
    destruct (count_loop encoder model 0 (m0 :: rest) 0) as [total|e]
      eqn:Hloop; [|discriminate].
    pose proof (count_loop_nonneg _ _ _ _ _ _ (Z.le_refl 0) Hloop) as Ht.
    destruct (last_role_not_assistant (m0 :: rest)).
    + destruct (encoder assistant_prelude); [|discriminate].
      cbn [snd]. intros [= <-]. lia.
    + cbn [snd]. intros [= <-]. exact Ht.
  - cbn [snd]. intros [= <-]. lia.
Qed.

(** X11.  A count that succeeded can be repeated: counting the same
    messages again on the counter it left returns the same non-negative
    number and leaves that counter unchanged, whatever
    [tiktoken.get_encoding] would answer at the second call. *)
Theorem count_message_tokens_repeatable (tc : TokenCounter)
    (messages : list pyobj) (model : string) (n : Z) :
  snd (count_message_tokens tk tc messages model) = Ok n ->
  0 <= n
  /\ forall (tk' : string -> result Encoding),
       count_message_tokens tk'
         (fst (count_message_tokens tk tc messages model)) messages model
       = (fst (count_message_tokens tk tc messages model), Ok n).
Proof.
  intros H. split.
  - exact (count_message_tokens_nonneg tc messages model n H).
  - exact (count_message_tokens_settles tc messages model n H).
Qed.

End EncoderCache.

(** The cache answers when the tokenizer library knows no encoding any
    more. *)
Lemma encoder_cache_round_trip_witness :
  _get_encoder (fun _ => Raise (PyException "KeyError"))
    (fst (_get_encoder char_tiktoken demo_counter "llama3-8b-8192"))
    "llama3-8b-8192"
  = (fst (_get_encoder char_tiktoken demo_counter "llama3-8b-8192"),
     Ok char_encoding).
Proof.
  destruct (encoder_cache_round_trip char_tiktoken demo_counter
              (fst (_get_encoder char_tiktoken demo_counter "llama3-8b-8192"))
              "llama3-8b-8192" char_encoding eq_refl) as [Hhit _].
  apply Hhit.
Defined.

Lemma count_message_tokens_repeatable_witness :
  count_message_tokens (fun _ => Raise (PyException "KeyError"))
    (fst (count_message_tokens char_tiktoken demo_counter message_of_90
            "llama3-8b-8192"))
    message_of_90 "llama3-8b-8192"
  = (fst (count_message_tokens char_tiktoken demo_counter message_of_90
            "llama3-8b-8192"), Ok 90).
Proof.
  destruct (count_message_tokens_repeatable char_tiktoken demo_counter
              message_of_90 "llama3-8b-8192" 90
              ltac:(vm_compute; reflexivity)) as [_ Hagain].
  apply Hagain.
Defined.

(** ** Limit validation and usage records *)

Section TokenLimits.

Variable tk : string -> result Encoding.

Lemma count_message_tokens_registry (tc : TokenCounter)
    (messages : list pyobj) (model : string) :
  tc_model_registry (fst (count_message_tokens tk tc messages model))
  = tc_model_registry tc.
Proof.
  unfold count_message_tokens.
  destruct messages as [|m0 rest]; [reflexivity|].
  destruct (is_model_supported (tc_model_registry tc) model)
    as [[|]|e]; try reflexivity.
  destruct (get_type (tc_model_registry tc) model) as [[|]|e];
    try reflexivity.
  destruct (_get_encoder tk tc model) as [tc1 [encoder|e]] eqn:Hget.
  - destruct (get_encoder_stores tk tc tc1 model encoder Hget)
      as (_ & Hreg & _).
    destruct (count_loop encoder model 0 (m0 :: rest) 0) as [total|e];
      [|exact Hreg].
    destruct (last_role_not_assistant (m0 :: rest)); [|exact Hreg].
    destruct (encoder assistant_prelude); exact Hreg.
  - unfold _get_encoder in Hget.
    destruct (_encoders tc !! model); [discriminate|].
    destruct (tk _); [discriminate|]. injection Hget as <- _. reflexivity.
Qed.

Lemma count_message_tokens_supported (tc : TokenCounter)
    (messages : list pyobj) (model : string) (n : Z) :
  snd (count_message_tokens tk tc messages model) = Ok n ->
  is_model_supported (tc_model_registry tc) model = Ok true.
Proof.
  unfold count_message_tokens.
  destruct messages as [|m0 rest]; [discriminate|].
  destruct (is_model_supported (tc_model_registry tc) model)
    as [[|]|e]; try discriminate. reflexivity.
Qed.

(** X12.  The verdict of [validate_token_limit] for a supported model
    whose registry entry has context window [cw].  The limit is the
    declared [max_tokens], or [cw] when none is declared.  With no limit
    at all the call passes without looking at the messages; a negative
    limit is a validation error; otherwise the call passes exactly when
    the messages count to at most the limit, raises
    [TokenLimitExceeded(count, limit)] exactly when they count to more,
    and turns every exception of the count into a [TokenCounterError]. *)
Theorem validate_token_limit_verdict (tc : TokenCounter)
    (messages : list pyobj) (model : string) (max_tokens cw : option Z) :
  is_model_supported (tc_model_registry tc) model = Ok true ->
  get_max_tokens (tc_model_registry tc) model = Ok cw ->
  (effective_limit cw max_tokens = None ->
   validate_token_limit tk tc messages model max_tokens = (tc, Ok true))
  /\ (forall m, effective_limit cw max_tokens = Some m -> m < 0 ->
        validate_token_limit tk tc messages model max_tokens
        = (tc, Raise (ValidationError "max_tokens")))
  /\ (forall m, effective_limit cw max_tokens = Some m -> 0 <= m ->
        (snd (validate_token_limit tk tc messages model max_tokens) = Ok true
         <-> exists n,
               snd (count_message_tokens tk tc messages model) = Ok n
               /\ n <= m)
        /\ (forall r x,
              snd (validate_token_limit tk tc messages model max_tokens)
              = Raise (TokenLimitExceeded r x)
              <-> snd (count_message_tokens tk tc messages model) = Ok r
                  /\ m < r /\ x = m)
        /\ (forall e,
              snd (count_message_tokens tk tc messages model) = Raise e ->
              snd (validate_token_limit tk tc messages model max_tokens)
              = Raise (TokenCounterError e))).
Proof.
  intros Hsup Hcw. unfold validate_token_limit. rewrite Hsup, Hcw.
  split; [|split].
  - destruct max_tokens as [m|]; cbn [effective_limit]; [discriminate|].
    intros ->. reflexivity.
  - intros m Hm Hneg.
    assert ((m <? 0) = true) as Hlt by (apply Z.ltb_lt; exact Hneg).
    destruct max_tokens as [m'|]; cbn [effective_limit] in Hm.
    + injection Hm as ->. rewrite Hlt. reflexivity.
    + subst cw. rewrite Hlt. reflexivity.
  - intros m Hm Hpos.
    assert ((m <? 0) = false) as Hge by (apply Z.ltb_ge; exact Hpos).
    assert (match (match max_tokens with
                   | Some m0 => Ok (Some m0)
                   | None => Ok cw
                   end) with
            | Ok (Some m0) => m0 = m
            | _ => False
            end) as Hlim.
    { destruct max_tokens as [m'|]; cbn [effective_limit] in Hm.
      - injection Hm as ->. reflexivity.
      - subst cw. reflexivity. }
    destruct (match max_tokens with
              | Some m0 => Ok (Some m0)
              | None => Ok cw
              end) as [[m0|]|e0]; try contradiction. subst m0.
    rewrite Hge.
    destruct (count_message_tokens tk tc messages model) as [tc1 [n|e]];
      cbn [snd].
    + destruct (m <? n) eqn:E; cbn [snd].
      * apply Z.ltb_lt in E. split; [|split].
        -- split; [discriminate|]. intros (n' & [= <-] & Hle). lia.
        -- intros r x. split.
           ++ intros [= <- <-]. auto.
           ++ intros ([= <-] & _ & ->). reflexivity.
        -- intros e. discriminate.
      * apply Z.ltb_ge in E. split; [|split].
        -- split; [intros _; exists n; auto|reflexivity].
        -- intros r x. split; [discriminate|].
           intros ([= <-] & Hlt & _). lia.
        -- intros e. discriminate.
    + split; [|split].
      * split; [discriminate|]. intros (n & Hn & _). discriminate.
      * intros r x. split; [discriminate|]. intros (Hn & _). discriminate.
      * intros e' [= <-]. reflexivity.
Qed.

Lemma track_token_usage_ledger (tc : TokenCounter) (u : Usage) (now : Q)
    (messages : list pyobj) (model : string) (request_id : option string) :
  snd (fst (track_token_usage tk tc u now messages model request_id)) = u
  \/ exists rec,
       0 <= ur_token_count rec
       /\ snd (fst (track_token_usage tk tc u now messages model request_id))
          = {| _usage_history := _usage_history u ++ [rec];
               _total_tokens_used := _total_tokens_used u + ur_token_count rec |}.
Proof.
  unfold track_token_usage.
  pose proof (count_message_tokens_nonneg tk tc messages model) as Hn.
  destruct (count_message_tokens tk tc messages model) as [tc1 [n|e]];
    cbn [fst snd] in *.
  - right.
    exists {| ur_timestamp := now; ur_model := model; ur_token_count := n;
              ur_request_id := request_id;
              ur_message_count := Z.of_nat (length messages) |}.
    split; [|reflexivity]. cbn [ur_token_count]. apply Hn. reflexivity.
  - left. reflexivity.
Qed.

(** X13.  The usage ledger stays consistent: after any sequence of
    [track_token_usage] and [clear_usage_history] calls, whether they
    succeed or fail, [_total_tokens_used] is the sum of the token counts
    of the records in [_usage_history], and no record has a negative
    count. *)
Theorem usage_ledger_consistent (u : Usage) :
  usage_reachable tk u ->
  _total_tokens_used u
  = fold_right Z.add 0 (map ur_token_count (_usage_history u))
  /\ Forall (fun rec => 0 <= ur_token_count rec) (_usage_history u).
Proof.
  induction 1 as [|tc u now messages model request_id _ [IHt IHf]|u _ _].
  - split; [reflexivity|constructor].
  - destruct (track_token_usage_ledger tc u now messages model request_id)
      as [->|(rec & Hrec & ->)]; [split; assumption|].
    cbn [_usage_history _total_tokens_used]. split.
    + rewrite map_app, fold_right_app. cbn [map fold_right].
      rewrite IHt.
      generalize (map ur_token_count (_usage_history u)) as l.
      induction l as [|a l IHl]; cbn [fold_right]; lia.
    + apply Forall_app. split; [exact IHf|]. constructor; [exact Hrec|].
      constructor.
  - split; [reflexivity|constructor].
Qed.

End TokenLimits.

(** X14.  [get_usage_history(limit)] returns a suffix of the history: for
    [limit > 0] its last [min(limit, length)] records, and for
    [limit <= 0] (0 included) the whole history. *)
Theorem get_usage_history_suffix (u : Usage) (limit : Z) :
  (exists older, _usage_history u = older ++ get_usage_history u limit)%list
  /\ (0 < limit ->
      length (get_usage_history u limit)
      = Nat.min (Z.to_nat limit) (length (_usage_history u)))
  /\ (limit <= 0 -> get_usage_history u limit = _usage_history u).
Proof.
  unfold get_usage_history. destruct (0 <? limit) eqn:E.
  - apply Z.ltb_lt in E. split; [|split].
    + eexists. symmetry. apply take_drop.
    + intros _. rewrite length_drop. lia.
    + intros H. lia.
  - apply Z.ltb_ge in E. split; [|split].
    + exists []. reflexivity.
    + intros H. lia.
    + reflexivity.
Qed.

Lemma validate_token_limit_verdict_witness :
  snd (validate_token_limit char_tiktoken demo_counter message_of_90
         "llama3-8b-8192" None) = Ok true
  /\ snd (validate_token_limit char_tiktoken demo_counter message_of_90
            "llama3-8b-8192" (Some 20))
     = Raise (TokenLimitExceeded 90 20).
Proof.
  destruct (validate_token_limit_verdict char_tiktoken demo_counter
              message_of_90 "llama3-8b-8192" None (Some 100)
              eq_refl eq_refl) as (_ & _ & Hwindow).
  destruct (validate_token_limit_verdict char_tiktoken demo_counter
              message_of_90 "llama3-8b-8192" (Some 20) (Some 100)
              eq_refl eq_refl) as (_ & _ & Hdeclared).
  destruct (Hwindow 100 eq_refl ltac:(lia)) as (Hpass & _).
  destruct (Hdeclared 20 eq_refl ltac:(lia)) as (_ & Hover & _).
  split.
  - apply Hpass. exists 90. split; [vm_compute; reflexivity|lia].
  - apply Hover. split; [vm_compute; reflexivity|]. split; [lia|reflexivity].
Defined.

Lemma usage_ledger_consistent_witness :
  _total_tokens_used
    (snd (fst (track_token_usage char_tiktoken demo_counter Usage_init
                 1000%Q message_of_90 "llama3-8b-8192" None)))
  = 90.
Proof.
  destruct (usage_ledger_consistent char_tiktoken
              (snd (fst (track_token_usage char_tiktoken demo_counter
                           Usage_init 1000%Q message_of_90 "llama3-8b-8192"
                           None))))
    as [Htotal _].
  - apply ur_track. apply ur_init.
  - refine (eq_trans Htotal _). vm_compute. reflexivity.
Defined.

(** ** Admission by the counter *)

Section CounterAdmission.

Variable tk : string -> result Encoding.

Lemma validate_token_limit_after_count (tc1 : TokenCounter)
    (messages : list pyobj) (model : string) (max_tokens cw : option Z)
    (n : Z) :
  is_model_supported (tc_model_registry tc1) model = Ok true ->
  get_max_tokens (tc_model_registry tc1) model = Ok cw ->
  count_message_tokens tk tc1 messages model = (tc1, Ok n) ->
  validate_token_limit tk tc1 messages model max_tokens
  = (tc1,
     match effective_limit cw max_tokens with
     | None => Ok true
     | Some m =>
         if m <? 0 then Raise (ValidationError "max_tokens")
         else if m <? n then Raise (TokenLimitExceeded n m)
         else Ok true
     end).
Proof.
  intros Hsup Hcw Hcount. unfold validate_token_limit.
  rewrite Hsup, Hcw.
  destruct max_tokens as [m|]; [|destruct cw as [m|]];
    cbn [effective_limit]; try reflexivity;
    (destruct (m <? 0); [reflexivity|]; rewrite Hcount;
     destruct (m <? n); reflexivity).
Qed.

(** X15.  [can_proceed_with_rate_limit] answers [True] exactly when the
    messages count to some [n], [n] does not exceed the limit in force
    (declared [max_tokens], else the context window [cw] of the registry;
    no limit allows everything, a negative one nothing) and, when the
    counter has a tracker, the tracker admits [n] tokens and one
    request. *)
Theorem can_proceed_with_rate_limit_true (tc : TokenCounter)
    (rl : option RateLimitHandler) (now : Q) (messages : list pyobj)
    (model : string) (max_tokens cw : option Z) :
  get_max_tokens (tc_model_registry tc) model = Ok cw ->
  snd (can_proceed_with_rate_limit tk tc rl now messages model max_tokens)
  = Ok true
  <-> exists n,
        snd (count_message_tokens tk tc messages model) = Ok n
        /\ match effective_limit cw max_tokens with
           | None => True
           | Some m => 0 <= m /\ n <= m
           end
        /\ match rl with
           | None => True
           | Some h => admits (lazy_reset now h) n 1 0
           end.
Proof.
  intros Hcw.
  unfold can_proceed_with_rate_limit, validate_request_with_rate_limit.
  pose proof (count_message_tokens_registry tk tc messages model) as Hreg.
  pose proof (count_message_tokens_supported tk tc messages model) as Hsup.
  pose proof (count_message_tokens_nonneg tk tc messages model) as Hnn.
  pose proof (count_message_tokens_settles tk tc messages model) as Hset.
  destruct (count_message_tokens tk tc messages model) as [tc1 [n|e]];
    cbn [fst snd] in *.
  2:{ split.
      - destruct (is_TokenLimitExceeded e || is_RateLimitExceeded e
                  || is_ValidationError e); discriminate.
      - intros (n & Hn & _). discriminate. }
  specialize (Hsup n eq_refl). specialize (Hnn n eq_refl).
  specialize (Hset n eq_refl tk).
  rewrite <- Hreg in Hsup, Hcw.
  rewrite (validate_token_limit_after_count tc1 messages model max_tokens cw
             n Hsup Hcw Hset).
  assert (exists b : bool,
             (b = true <->
              match rl with
              | None => True
              | Some h => admits (lazy_reset now h) n 1 0
              end)
             /\ match rl with
                | None => True
                | Some h => can_proceed h now n 1 0 = (lazy_reset now h, Ok b)
                end) as (b & Hb & Hcp).
  { destruct rl as [h|].
    - destruct (can_proceed_checks h now n 1 0 Hnn ltac:(lia) ltac:(lia))
        as (b & Hcp & Hb). exists b. auto.
    - exists true. split; [split; auto|exact I]. }
  destruct (effective_limit cw max_tokens) as [m|];
    [destruct (m <? 0) eqn:Eneg;
       [apply Z.ltb_lt in Eneg
       |apply Z.ltb_ge in Eneg; destruct (m <? n) eqn:Eover;
          [apply Z.ltb_lt in Eover|apply Z.ltb_ge in Eover]]|];
    cbv beta iota;
    (destruct rl as [h|];
       [try rewrite Hcp; unfold get_status; destruct b|]);
    cbn [snd is_TokenLimitExceeded is_RateLimitExceeded is_ValidationError
           orb];
    (split;
     [ intros H;
       first [ discriminate H
             | exists n; split; [reflexivity|];
               split; [first [exact I | lia]|];
               first [exact I | apply Hb; reflexivity] ]
     | intros (n' & Hn' & Hl & Ht); injection Hn' as <-;
       first [ reflexivity
             | exfalso;
               first [ lia
                     | apply Hb in Ht; discriminate Ht
                     | destruct Hl; lia ] ] ]).
Qed.

End CounterAdmission.

Lemma can_proceed_with_rate_limit_true_witness :
  snd (can_proceed_with_rate_limit char_tiktoken demo_counter
         (Some token_tracker) 101%Q message_of_90 "llama3-8b-8192" None)
  = Ok true.
Proof.
  apply (can_proceed_with_rate_limit_true char_tiktoken demo_counter
           (Some token_tracker) 101%Q message_of_90 "llama3-8b-8192" None
           (Some 100) eq_refl).
  exists 90. split; [vm_compute; reflexivity|].
  split; [cbn; lia|].
  intros w. destruct w; vm_compute; intros H1 H2;
    first [discriminate H1 | discriminate H2].
Defined.

(** ** Message validation of the chat handler *)

Lemma existsb_valid_roles (role : string) :
  existsb (String.eqb role) valid_roles = true <-> In role valid_roles.
Proof.
  rewrite existsb_exists. split.
  - intros (x & Hx & He). apply String.eqb_eq in He. subst. exact Hx.
  - intros H. exists role. split; [exact H|apply String.eqb_refl].
Qed.

Lemma validate_loop_ok (messages : list pyobj) :
  forall i, validate_loop i messages = Ok tt <-> Forall valid_message messages.
Proof.
  induction messages as [|m rest IH]; intros i; cbn [validate_loop].
  - split; [constructor|reflexivity].
  - split.
    + destruct m as [d|v]; [|discriminate].
      destruct (d !! "role") as [[| |role| |]|] eqn:Hr;
        destruct (d !! "content") as [[| |content| |]|] eqn:Hc;
        try discriminate; cbv zeta;
        (destruct (existsb (String.eqb role) valid_roles) eqn:Hin;
         [|discriminate]); try discriminate.
      destruct (blank content) eqn:Hb; [discriminate|].
      cbn [negb]. intros Hrest. constructor; [|apply (IH (S i)), Hrest].
      exists d, role, content. repeat split; try assumption.
      apply existsb_valid_roles. exact Hin.
    + intros H. inversion H as [|? ? Hm Hrest]; subst.
      destruct Hm as (d & role & content & -> & Hr & Hc & Hin & Hb).
      rewrite Hr, Hc. cbv zeta.
      apply existsb_valid_roles in Hin. rewrite Hin, Hb.
      cbn [negb]. apply IH. exact Hrest.
Qed.

Lemma valid_message_well_formed (m : pyobj) : valid_message m -> well_formed m.
Proof.
  intros (d & role & content & Hm & Hr & Hc & _).
  exists d, role, content. auto.
Qed.

Lemma count_loop_well_formed_raises (encoder : Encoding) (model : string)
    (messages : list pyobj) (e : exn) :
  Forall well_formed messages ->
  forall (i : nat) (total : Z),
    count_loop encoder model i messages total = Raise e ->
    e = EncodingError model "unknown".
Proof.
  induction 1 as [|m rest Hm _ IH]; intros i total; simpl; [discriminate|].
  destruct Hm as (d & role & content & -> & Hr & Hc). rewrite Hr, Hc.
  destruct (encoder (formatted_message role content)); [apply IH|].
  intros [= <-]. reflexivity.
Qed.

(** X16.  [_validate_messages] accepts exactly the non-empty lists whose
    elements are dictionaries with a role among system, user and
    assistant and a content string that is not blank; in particular a
    role that cannot be hashed is not accepted (the membership test
    raises [TypeError]).  The strings are those of code points below 256,
    and blank means that [strip()] leaves nothing, U+0085 and U+00A0 being
    white space.  On an accepted list, [count_message_tokens] for a
    supported chat model raises no validation or message-format error:
    the only exception it can raise is the encoding error. *)
Theorem validate_messages_accepts (tk : string -> result Encoding)
    (messages : list pyobj) :
  (_validate_messages messages = Ok tt
   <-> messages <> [] /\ Forall valid_message messages)
  /\ (_validate_messages messages = Ok tt ->
      forall (tc : TokenCounter) (model : string) (e : exn),
        is_model_supported (tc_model_registry tc) model = Ok true ->
        get_type (tc_model_registry tc) model = Ok chat ->
        snd (count_message_tokens tk tc messages model) = Raise e ->
        e = EncodingError model "unknown").
Proof.
  assert (_validate_messages messages = Ok tt
          <-> messages <> [] /\ Forall valid_message messages) as Hiff.
  { unfold _validate_messages. destruct messages as [|m0 rest].
    - split; [discriminate|]. intros [H _]. congruence.
    - rewrite validate_loop_ok. split; [intros H; split; [discriminate|exact H]
                                       |intros [_ H]; exact H]. }
  split; [exact Hiff|].
  intros Hok tc model e Hsup Hty.
  apply Hiff in Hok. destruct Hok as [Hne Hvalid].
  assert (Forall well_formed messages) as Hwf.
  { eapply Forall_impl; [exact Hvalid|]. apply valid_message_well_formed. }
  unfold count_message_tokens.
  destruct messages as [|m0 rest]; [congruence|].
  rewrite Hsup, Hty.
  destruct (_get_encoder tk tc model) as [tc1 [encoder|e1]];
    [|intros [= <-]; reflexivity].
  destruct (count_loop encoder model 0 (m0 :: rest) 0) as [total|e1]
    eqn:Hloop.
  - destruct (last_role_not_assistant (m0 :: rest)); [|discriminate].
    destruct (encoder assistant_prelude); [discriminate|].
    intros [= <-]. reflexivity.
  - intros [= <-].
    exact (count_loop_well_formed_raises _ _ _ _ Hwf _ _ Hloop).
Qed.

Lemma validate_messages_accepts_witness :
  _validate_messages message_of_90 = Ok tt
  /\ _validate_messages [message "user" "   "] = Raise (MessageFormatError 0)
  /\ _validate_messages [message "tool" "hi"] = Raise (MessageFormatError 0).
Proof.
  destruct (validate_messages_accepts char_tiktoken message_of_90)
    as [[_ Hacc] _].
  split; [|split; reflexivity].
  apply Hacc. split; [discriminate|].
  repeat constructor.
  exists {[ "role" := PyStr "user";
            "content" := PyStr "Explain the quota windows in one sentence" ]},
    "user", "Explain the quota windows in one sentence".
  repeat split; try reflexivity. simpl. auto.
Defined.

(** ** Further properties of the queue manager *)

Lemma total_live_set_queue (p : Priority) (l : list QueuedRequest) (qs : Queues) :
  total_live (set_queue p l qs)
  = total_live qs - Z.of_nat (length (queue_of p qs)) + Z.of_nat (length l).
Proof. destruct p; unfold total_live; simpl; lia. Qed.

Lemma handle_request_error_accounts (qm : QueueManager) (r : QueuedRequest)
    (e : exn) :
  let qm' := fst (_handle_request_error qm r e) in
  max_queue_size qm' = max_queue_size qm
  /\ _request_counter qm' = _request_counter qm
  /\ total_queued (_stats qm') = total_queued (_stats qm)
  /\ total_processed (_stats qm') = total_processed (_stats qm)
  /\ total_failed (_stats qm') = total_failed (_stats qm) + 1
  /\ total_live (_queues qm') - total_retries (_stats qm')
     = total_live (_queues qm) - total_retries (_stats qm)
  /\ total_live (_queues qm') <= total_live (_queues qm) + 1.
Proof.
  unfold _handle_request_error.
  destruct (retry_count r <? max_retries r); cbn -[total_live set_queue].
  - rewrite total_live_set_queue, length_app. cbn [length]. repeat split; lia.
  - repeat split; lia.
Qed.


Lemma popped_live (p : Priority) (qs : Queues) (r : QueuedRequest)
    (rest : list QueuedRequest) :
  queue_of p qs = r :: rest ->
  total_live (set_queue p rest qs) = total_live qs - 1.
Proof.
  intros H. rewrite total_live_set_queue, H. cbn [length]. lia.
Qed.

(** The two parts of [_process_priority_queue] make the whole of it when
    the callable is not suspended. *)
Lemma process_priority_queue_begin_finish
    (invoke : QueuedRequest -> result unit) (m : Machine) (p : Priority) :
  _process_priority_queue invoke m p
  = match begin_request m p with
    | (m', Returned r) => (m', r)
    | (m', Awaiting request) => finish_request m' request (invoke request)
    end.
Proof.
  unfold _process_priority_queue, begin_request, _execute_request.
  destruct (queue_of p (_queues (manager m))) as [|r rest]; [reflexivity|].
  cbv zeta.
  destruct (can_proceed _ _ _ _ _) as [h [[|]|e]]; cbn [manager world calls].
  - destruct (wait_if_needed _ _) as [[h' w'] [u|e]].
    + destruct (if iscoroutinefunction (request_func r) then true
                else bool_decide (kwargs r = ∅)).
      * unfold finish_request. cbn [manager world calls].
        destruct (invoke r) as [u'|[]]; reflexivity.
      * cbn [manager world calls].
        destruct (_handle_request_error _ _ _); reflexivity.
    + cbn [manager world calls].
      destruct (_handle_request_error _ _ _); reflexivity.
  - reflexivity.
  - destruct (_handle_request_error _ _ _); reflexivity.
Qed.

Lemma begin_request_accounts (m : Machine) (p : Priority) :
  let qm := manager m in
  let qm' := manager (fst (begin_request m p)) in
  let k := suspended_count (snd (begin_request m p)) in
  max_queue_size qm' = max_queue_size qm
  /\ _request_counter qm' = _request_counter qm
  /\ total_queued (_stats qm') = total_queued (_stats qm)
  /\ total_live (_queues qm') + k <= total_live (_queues qm)
  /\ total_live (_queues qm') + k + total_processed (_stats qm')
     + total_failed (_stats qm') - total_retries (_stats qm')
     = total_live (_queues qm) + total_processed (_stats qm)
       + total_failed (_stats qm) - total_retries (_stats qm).
Proof.
  cbv zeta. unfold begin_request.
  destruct (queue_of p (_queues (manager m))) as [|r rest] eqn:Hq.
  { cbn [fst snd suspended_count]. repeat split; lia. }
  pose proof (popped_live _ _ _ _ Hq) as Hpop.
  destruct (can_proceed _ _ _ _ _) as [h [[|]|e]].
  - destruct (wait_if_needed _ _) as [[h' w'] [u|e]].
    + destruct (if iscoroutinefunction (request_func r) then true
                else bool_decide (kwargs r = ∅)).
      * cbn [fst snd manager suspended_count with_rate_limit_handler
             with_queues max_queue_size _request_counter _queues _stats].
        repeat split; lia.
      * set (qm1 := with_rate_limit_handler h' _).
        pose proof (handle_request_error_accounts qm1 r
                      (PyException "TypeError")) as Hh.
        destruct (_handle_request_error qm1 r _) as [qm' res].
        cbn [fst snd manager suspended_count] in Hh |- *.
        destruct Hh as (F1 & F2 & F3 & F4 & F5 & F6 & F7).
        cbn [qm1 with_rate_limit_handler with_queues max_queue_size
             _request_counter _queues _stats] in F1, F2, F3, F4, F5, F6, F7.
        repeat split; lia.
    + set (qm1 := with_rate_limit_handler h' _).
      pose proof (handle_request_error_accounts qm1 r e) as Hh.
      destruct (_handle_request_error qm1 r e) as [qm' res].
      cbn [fst snd manager suspended_count] in Hh |- *.
      destruct Hh as (F1 & F2 & F3 & F4 & F5 & F6 & F7).
      cbn [qm1 with_rate_limit_handler with_queues max_queue_size
           _request_counter _queues _stats] in F1, F2, F3, F4, F5, F6, F7.
      repeat split; lia.
  - cbn [fst snd manager suspended_count with_queues with_rate_limit_handler
         _queues _stats max_queue_size _request_counter].
    rewrite total_live_set_queue, queue_of_set_queue_eq.
    cbn [length]. rewrite Hpop. repeat split; lia.
  - set (qm1 := with_rate_limit_handler h _).
    pose proof (handle_request_error_accounts qm1 r e) as Hh.
    destruct (_handle_request_error qm1 r e) as [qm' res].
    cbn [fst snd manager suspended_count] in Hh |- *.
    destruct Hh as (F1 & F2 & F3 & F4 & F5 & F6 & F7).
    cbn [qm1 with_rate_limit_handler with_queues max_queue_size
         _request_counter _queues _stats] in F1, F2, F3, F4, F5, F6, F7.
    repeat split; lia.
Qed.

Lemma finish_request_accounts (m : Machine) (r : QueuedRequest)
    (outcome : result unit) :
  let qm := manager m in
  let qm' := manager (fst (finish_request m r outcome)) in
  max_queue_size qm' = max_queue_size qm
  /\ _request_counter qm' = _request_counter qm
  /\ total_queued (_stats qm') = total_queued (_stats qm)
  /\ total_live (_queues qm') <= total_live (_queues qm) + 1
  /\ total_live (_queues qm') + total_processed (_stats qm')
     + total_failed (_stats qm') - total_retries (_stats qm')
     = total_live (_queues qm) + 1 + total_processed (_stats qm)
       + total_failed (_stats qm) - total_retries (_stats qm).
Proof.
  cbv zeta. unfold finish_request. destruct outcome as [u|e].
  - cbn [fst manager with_stats max_queue_size _request_counter _queues
         _stats bump_total_processed total_queued total_processed
         total_failed total_retries].
    repeat split; lia.
  - match goal with
    | |- context [_handle_request_error ?qm ?r ?e'] =>
        pose proof (handle_request_error_accounts qm r e') as Hh;
        destruct (_handle_request_error qm r e') as [qm' res]
    end.
    cbn [fst manager] in Hh |- *.
    destruct Hh as (F1 & F2 & F3 & F4 & F5 & F6 & F7).
    repeat split; lia.
Qed.

Lemma process_sync_accounts (invoke : QueuedRequest -> result unit)
    (m : Machine) :
  let qm := manager m in
  let qm' := manager (fst (_process_sync invoke m)) in
  max_queue_size qm' = max_queue_size qm
  /\ _request_counter qm' = _request_counter qm
  /\ total_queued (_stats qm') = total_queued (_stats qm)
  /\ total_live (_queues qm') <= total_live (_queues qm)
  /\ total_live (_queues qm') + total_processed (_stats qm')
     + total_failed (_stats qm') - total_retries (_stats qm')
     = total_live (_queues qm) + total_processed (_stats qm)
       + total_failed (_stats qm) - total_retries (_stats qm).
Proof.
  cbv zeta. unfold _process_sync.
  destruct (first_pending (_queues (manager m))) as [p|].
  2: { cbn [fst]. repeat split; lia. }
  destruct (queue_of p (_queues (manager m))) as [|r rest] eqn:Hq.
  { cbn [fst]. repeat split; lia. }
  pose proof (popped_live _ _ _ _ Hq) as Hpop.
  destruct (can_proceed _ _ _ _ _) as [h [[|]|e]].
  - destruct (wait_if_needed _ _) as [[h' w'] waited].
    set (qm1 := with_rate_limit_handler h' _).
    destruct (match waited with
              | Ok _ => if iscoroutinefunction (request_func r) then Ok tt
                        else invoke r
              | Raise e => Raise e
              end) as [u|e].
    + cbn [fst manager qm1 with_stats with_queues with_rate_limit_handler
           _queues _stats max_queue_size _request_counter
           bump_total_processed total_queued total_processed total_failed
           total_retries].
      repeat split; lia.
    + pose proof (handle_request_error_accounts qm1 r e) as Hh.
      rewrite handle_request_error_sync_same.
      destruct (_handle_request_error qm1 r e) as [qm' res].
      cbn [fst manager] in Hh |- *.
      destruct Hh as (F1 & F2 & F3 & F4 & F5 & F6 & F7).
      cbn [qm1 with_rate_limit_handler with_queues max_queue_size
           _request_counter _queues _stats] in F1, F2, F3, F4, F5, F6, F7.
      repeat split; lia.
  - cbn [fst manager with_queues with_rate_limit_handler _queues _stats
         max_queue_size _request_counter].
    rewrite total_live_set_queue. cbn [length]. rewrite Hpop.
    repeat split; lia.
  - set (qm1 := with_rate_limit_handler h _).
    pose proof (handle_request_error_accounts qm1 r e) as Hh.
    rewrite handle_request_error_sync_same.
    destruct (_handle_request_error qm1 r e) as [qm' res].
    cbn [fst manager] in Hh |- *.
    destruct Hh as (F1 & F2 & F3 & F4 & F5 & F6 & F7).
    cbn [qm1 with_rate_limit_handler with_queues max_queue_size
         _request_counter _queues _stats] in F1, F2, F3, F4, F5, F6, F7.
    repeat split; lia.
Qed.

Lemma enqueue_accounts (qm : QueueManager) (now : Q) (f : pyfunc)
    (a : list pyval) (prio : string) (tokens retries : Z)
    (kw : gmap string pyval) :
  let qm' := fst (enqueue qm now f a prio tokens retries kw) in
  max_queue_size qm' = max_queue_size qm
  /\ total_processed (_stats qm') = total_processed (_stats qm)
  /\ total_failed (_stats qm') = total_failed (_stats qm)
  /\ total_retries (_stats qm') = total_retries (_stats qm)
  /\ ((_queues qm' = _queues qm
       /\ total_queued (_stats qm') = total_queued (_stats qm)
       /\ _request_counter qm' = _request_counter qm)
      \/ (total_live (_queues qm) < max_queue_size qm
          /\ total_live (_queues qm') = total_live (_queues qm) + 1
          /\ total_queued (_stats qm') = total_queued (_stats qm) + 1
          /\ _request_counter qm' = _request_counter qm + 1)).
Proof.
  cbv zeta. unfold enqueue.
  destruct (negb (callable f)); [cbn [fst]; repeat split; left; auto|].
  destruct (tokens <? 0); [cbn [fst]; repeat split; left; auto|].
  destruct (retries <? 0); [cbn [fst]; repeat split; left; auto|].
  cbv zeta.
  destruct (max_queue_size qm <=? total_live (_queues qm)) eqn:Hfull;
    [cbn [fst]; repeat split; left; auto|].
  apply Z.leb_gt in Hfull.
  unfold _generate_request_id, _start_processing. cbv zeta.
  match goal with |- context [if ?b then _ else _] => destruct b end;
    cbn [fst with_processing with_stats with_queues with_request_counter
         _queues _stats max_queue_size _request_counter bump_total_queued
         total_queued total_processed total_failed total_retries];
    rewrite total_live_set_queue, length_app; cbn [length];
    (repeat split; try reflexivity); right; repeat split; lia.
Qed.

Lemma clear_queue_accounts (qm : QueueManager) (prio : option string) :
  let qm' := fst (clear_queue qm prio) in
  max_queue_size qm' = max_queue_size qm
  /\ _request_counter qm' = _request_counter qm
  /\ _stats qm' = _stats qm
  /\ 0 <= total_live (_queues qm') <= total_live (_queues qm).
Proof.
  cbv zeta. unfold clear_queue. destruct prio as [name|].
  - destruct (Priority_of_value (lower name)) as [p|]; cbn [fst].
    + cbn [with_queues max_queue_size _request_counter _stats _queues].
      rewrite total_live_set_queue. cbn [length].
      repeat split; try reflexivity; destruct p; unfold total_live; cbn; lia.
    + repeat split; try reflexivity; unfold total_live; lia.
  - cbn [fst with_queues max_queue_size _request_counter _stats _queues].
    repeat split; try reflexivity; unfold total_live; cbn; lia.
Qed.

Lemma run_step_accounts (r r' : Run) (op : Operation) :
  run_step r op = Some r' -> accounts_ok r -> accounts_ok r'.
Proof.
  unfold accounts_ok, in_flight. intros Hstep (Hc & Hcap & Hsum & Hcnt).
  destruct op as [now f a prio tokens retries kw|h|prio|invoke w log
                 |w log p|w log outcome]; cbn [run_step] in Hstep.
  - injection Hstep as <-. cbn [run_manager awaited cleared].
    pose proof (enqueue_accounts (run_manager r) now f a prio tokens
                  retries kw) as He. cbv zeta in He.
    destruct He as (E1 & E2 & E3 & E4 & [(E5 & E6 & E7)|(E5 & E6 & E7 & E8)]).
    + rewrite E1, E2, E3, E4, E5, E6, E7. auto.
    + rewrite E1, E2, E3, E4, E6, E7, E8.
      destruct (awaited r); repeat split; lia.
  - injection Hstep as <-.
    cbn [run_manager awaited cleared with_rate_limit_handler _queues _stats
         max_queue_size _request_counter].
    auto.
  - injection Hstep as <-. cbn [run_manager awaited cleared].
    pose proof (clear_queue_accounts (run_manager r) prio) as He.
    cbv zeta in He. destruct He as (E1 & E2 & E3 & E4).
    rewrite E1, E2, E3. repeat split; lia.
  - injection Hstep as <-. cbn [run_manager awaited cleared].
    pose proof (process_sync_accounts invoke
                  {| manager := run_manager r; world := w; calls := log |})
      as He.
    cbv zeta in He. cbn [manager] in He.
    destruct He as (E1 & E2 & E3 & E4 & E5).
    rewrite E1, E2, E3. repeat split; lia.
  - destruct (awaited r) as [req|] eqn:Haw; [discriminate|].
    pose proof (begin_request_accounts
                  {| manager := run_manager r; world := w; calls := log |} p)
      as He.
    cbv zeta in He. cbn [manager] in He.
    destruct (begin_request _ p) as [m s].
    injection Hstep as <-. cbn [run_manager awaited cleared].
    cbn [fst snd] in He. destruct He as (E1 & E2 & E3 & E4 & E5).
    rewrite E1, E2, E3.
    destruct s as [res|req]; cbn [suspended_count] in E4, E5;
      repeat split; lia.
  - destruct (awaited r) as [req|] eqn:Haw; [|discriminate].
    injection Hstep as <-. cbn [run_manager awaited cleared].
    pose proof (finish_request_accounts
                  {| manager := run_manager r; world := w; calls := log |}
                  req outcome) as He.
    cbv zeta in He. cbn [manager] in He.
    destruct He as (E1 & E2 & E3 & E4 & E5).
    rewrite E1, E2, E3. repeat split; lia.
Qed.

Lemma loop_reachable_accounts (r : Run) : loop_reachable r -> accounts_ok r.
Proof.
  induction 1 as [h n qm Hinit|r op r' _ IH Hstep].
  - unfold QueueManager_init in Hinit.
    destruct (n <=? 0) eqn:Hn; [discriminate|].
    apply Z.leb_gt in Hn. injection Hinit as <-.
    unfold accounts_ok, in_flight, total_live. cbn. lia.
  - exact (run_step_accounts r r' op Hstep IH).
Qed.

Lemma run_steps_reachable (ops : list Operation) :
  forall r r', loop_reachable r -> run_steps r ops = Some r' ->
               loop_reachable r'.
Proof.
  induction ops as [|op ops IH]; intros r r' Hr Hrun; cbn [run_steps] in Hrun.
  - injection Hrun as <-. exact Hr.
  - destruct (run_step r op) as [r1|] eqn:Hstep; [|discriminate].
    exact (IH r1 r' (lr_step r op r1 Hr Hstep) Hrun).
Qed.

Lemma new_manager_run (n : Z) : 0 < n -> loop_reachable (new_run (new_manager n)).
Proof.
  intros Hn. apply (lr_init None n). unfold new_manager, QueueManager_init.
  destruct (n <=? 0) eqn:E; [apply Z.leb_le in E; lia|reflexivity].
Qed.

Lemma sum_values_queue_sizes (qm : QueueManager) :
  status_total_queued (get_queue_status qm) = total_live (_queues qm).
Proof.
  unfold get_queue_status, total_live. cbn [status_total_queued map queue_of].
  generalize (Z.of_nat (length (q_low (_queues qm)))).
  generalize (Z.of_nat (length (q_normal (_queues qm)))).
  generalize (Z.of_nat (length (q_high (_queues qm)))).
  generalize (Z.of_nat (length (q_urgent (_queues qm)))).
  intros u h n l. unfold sum_values. cbn [list_to_map foldr Priority_value fst snd].
  rewrite !map_fold_insert_L, map_fold_empty;
    first lia; try (intros; lia); by simplify_map_eq.
Qed.

(** X17.  What [get_queue_status] reports in any run of a manager on its
    event loop, with one worker that is never stopped and operations that
    come between its suspensions.  The number of waiting requests is not
    negative and, together with the request whose callable the worker
    awaits, exceeds [max_queue_size] by one at most (by one when a request
    was accepted while another was awaited and that one is then queued
    again for a retry).  Every request that was accepted or queued again
    is waiting, awaited, processed, failed or removed by [clear_queue]:
    [total_queued + total_retries] is the number waiting, plus one when a
    callable is awaited, plus [total_processed + total_failed], plus the
    number removed.  The request counter equals [total_queued]. *)
Theorem queue_status_invariants (r : Run) :
  loop_reachable r ->
  let st := get_queue_status (run_manager r) in
  0 <= status_total_queued st
  /\ status_total_queued st + in_flight r <= status_max_queue_size st + 1
  /\ total_queued (stats st) + total_retries (stats st)
     = status_total_queued st + in_flight r + total_processed (stats st)
       + total_failed (stats st) + cleared r
  /\ _request_counter (run_manager r) = total_queued (stats st).
Proof.
  intros Hr. cbv zeta. rewrite sum_values_queue_sizes.
  destruct (loop_reachable_accounts r Hr) as (Hc & Hcap & Hsum & Hcnt).
  cbn [get_queue_status stats status_max_queue_size].
  repeat split; try assumption. unfold total_live. lia.
Qed.

Lemma crowded_run_reachable :
  exists r,
    crowded_run = Some r /\ loop_reachable r
    /\ status_max_queue_size (get_queue_status (run_manager r)) = 1
    /\ status_total_queued (get_queue_status (run_manager r)) = 2.
Proof.
  assert (H : match crowded_run with
              | Some r =>
                  status_max_queue_size (get_queue_status (run_manager r)) = 1
                  /\ status_total_queued (get_queue_status (run_manager r)) = 2
              | None => False
              end) by (vm_compute; auto).
  assert (E : run_steps (new_run (new_manager 1)) crowded_ops = crowded_run)
    by (vm_compute; reflexivity).
  destruct crowded_run as [r|]; [|contradiction].
  exists r. split; [reflexivity|]. split; [|exact H].
  exact (run_steps_reachable crowded_ops _ r (new_manager_run 1 ltac:(lia)) E).
Qed.

Lemma queue_status_invariants_witness :
  exists r,
    crowded_run = Some r
    /\ loop_reachable r
    /\ let st := get_queue_status (run_manager r) in
       (status_max_queue_size st = 1 /\ status_total_queued st = 2)
       /\ 0 <= status_total_queued st
       /\ status_total_queued st + in_flight r <= status_max_queue_size st + 1
       /\ total_queued (stats st) + total_retries (stats st)
          = status_total_queued st + in_flight r + total_processed (stats st)
            + total_failed (stats st) + cleared r
       /\ _request_counter (run_manager r) = total_queued (stats st).
Proof.
  destruct crowded_run_reachable as (r & Hrun & Hr & Hfacts).
  exists r. split; [exact Hrun|]. split; [exact Hr|].
  cbv zeta. split; [exact Hfacts|].
  exact (queue_status_invariants r Hr).
Defined.

(** X18.  When [enqueue] accepts: for a callable, non-negative
    [tokens_required] and [max_retries] and a manager below its capacity,
    the call returns the identifier built from the clock and the counter
    plus one; the new request, with no retry made, goes to the tail of the
    queue of its priority, which is the one that [priority] names whatever
    the letter case, and NORMAL for any other name; the other queues, the
    tracker and the capacity are unchanged, [total_queued] and the counter
    grow by one, and the worker is running. *)
Theorem enqueue_accepts (qm : QueueManager) (now : Q) (f : pyfunc)
    (a : list pyval) (prio : string) (tokens retries : Z)
    (kw : gmap string pyval) :
  callable f = true -> 0 <= tokens -> 0 <= retries ->
  total_live (_queues qm) < max_queue_size qm ->
  let p := default NORMAL (Priority_of_value (lower prio)) in
  let request_id :=
    "req_" ++ pretty (py_int_of_float now) ++ "_"
    ++ pretty (_request_counter qm + 1) in
  let request :=
    {| id := request_id; request_func := f; args := a; kwargs := kw;
       priority := p; timestamp := now; retry_count := 0;
       max_retries := retries; tokens_required := tokens;
       original_priority := Some p |} in
  let qm' := fst (enqueue qm now f a prio tokens retries kw) in
  snd (enqueue qm now f a prio tokens retries kw) = Ok request_id
  /\ queue_of p (_queues qm') = (queue_of p (_queues qm) ++ [request])%list
  /\ (forall p', p' <> p -> queue_of p' (_queues qm') = queue_of p' (_queues qm))
  /\ _stats qm' = bump_total_queued (_stats qm)
  /\ _request_counter qm' = _request_counter qm + 1
  /\ _processing qm' = true
  /\ rate_limit_handler qm' = rate_limit_handler qm
  /\ max_queue_size qm' = max_queue_size qm.
Proof.
  intros Hf Ht Hr Hroom. cbv zeta. unfold enqueue.
  rewrite Hf. cbn [negb].
  destruct (tokens <? 0) eqn:E1; [apply Z.ltb_lt in E1; lia|].
  destruct (retries <? 0) eqn:E2; [apply Z.ltb_lt in E2; lia|].
  cbv zeta.
  destruct (max_queue_size qm <=? total_live (_queues qm)) eqn:E3;
    [apply Z.leb_le in E3; lia|].
  unfold _generate_request_id, _start_processing. cbv zeta.
  cbn [with_request_counter _request_counter with_queues with_stats
       _processing _queues _stats].
  destruct (_processing qm) eqn:Hp;
    cbn [fst snd with_processing with_queues with_stats _queues _stats
         _request_counter _processing rate_limit_handler max_queue_size];
    rewrite queue_of_set_queue_eq;
    (repeat split; try reflexivity; try assumption;
     intros p' Hne; now apply queue_of_set_queue_ne).
Qed.

Lemma enqueue_accepts_witness :
  let qm := new_manager 10 in
  let qm' := fst (enqueue qm 1000%Q job [] "URGENT" 5 3 ∅) in
  (callable job = true /\ 0 <= 5 /\ 0 <= 3
   /\ total_live (_queues qm) < max_queue_size qm)
  /\ snd (enqueue qm 1000%Q job [] "URGENT" 5 3 ∅) = Ok "req_1000_1"
  /\ map id (q_urgent (_queues qm')) = ["req_1000_1"]
  /\ _processing qm' = true.
Proof.
  cbv zeta.
  assert (H1 : callable job = true) by reflexivity.
  assert (H2 : 0 <= 5) by lia.
  assert (H3 : 0 <= 3) by lia.
  assert (H4 : total_live (_queues (new_manager 10)) < max_queue_size (new_manager 10))
    by (vm_compute; reflexivity).
  split; [repeat split; assumption|].
  destruct (enqueue_accepts (new_manager 10) 1000%Q job [] "URGENT" 5 3 ∅
              H1 H2 H3 H4) as (Hid & Hq & _ & _ & _ & Hp & _).
  split; [exact Hid|]. split; [|exact Hp].
  change (q_urgent (_queues (fst (enqueue (new_manager 10) 1000%Q job [] "URGENT" 5 3 ∅))))
    with (queue_of URGENT (_queues (fst (enqueue (new_manager 10) 1000%Q job [] "URGENT" 5 3 ∅)))).
  change (default NORMAL (Priority_of_value (lower "URGENT"))) with URGENT in Hq.
  rewrite Hq. reflexivity.
Defined.

(** *** Requests that the tracker refuses *)

Lemma set_queue_same (p : Priority) (qs : Queues) :
  set_queue p (queue_of p qs) qs = qs.
Proof. destruct p, qs; reflexivity. Qed.

Lemma set_queue_twice (p : Priority) (l l' : list QueuedRequest) (qs : Queues) :
  set_queue p l (set_queue p l' qs) = set_queue p l qs.
Proof. destruct p; reflexivity. Qed.

Lemma requeued_at_head (p : Priority) (r : QueuedRequest)
    (rest : list QueuedRequest) (h : RateLimitHandler) (qm : QueueManager) :
  queue_of p (_queues qm) = r :: rest ->
  let qm1 := with_rate_limit_handler h
               (with_queues (set_queue p rest (_queues qm)) qm) in
  with_queues (set_queue p (r :: queue_of p (_queues qm1)) (_queues qm1)) qm1
  = with_rate_limit_handler h qm.
Proof.
  intros Hq. cbv zeta.
  cbn [with_rate_limit_handler with_queues _queues].
  rewrite queue_of_set_queue_eq, set_queue_twice, <- Hq, set_queue_same.
  unfold with_queues, with_rate_limit_handler. cbn. reflexivity.
Qed.

Lemma process_priority_queue_refused (invoke : QueuedRequest -> result unit)
    (m : Machine) (p : Priority) (r : QueuedRequest)
    (rest : list QueuedRequest) (h : RateLimitHandler) :
  queue_of p (_queues (manager m)) = r :: rest ->
  can_proceed (rate_limit_handler (manager m)) (clock (world m))
    (tokens_required r) 1 0 = (h, Ok false) ->
  _process_priority_queue invoke m p
  = ({| manager := with_rate_limit_handler h (manager m);
        world := world m; calls := calls m |}, Ok tt).
Proof.
  intros Hq Hcp. unfold _process_priority_queue. rewrite Hq.
  cbn [with_queues rate_limit_handler]. rewrite Hcp.
  rewrite (requeued_at_head p r rest h (manager m) Hq). reflexivity.
Qed.

Lemma process_sync_refused (invoke : QueuedRequest -> result unit)
    (m : Machine) (p : Priority) (r : QueuedRequest)
    (rest : list QueuedRequest) (h : RateLimitHandler) :
  first_pending (_queues (manager m)) = Some p ->
  queue_of p (_queues (manager m)) = r :: rest ->
  priority r = p ->
  can_proceed (rate_limit_handler (manager m)) (clock (world m))
    (tokens_required r) 1 0 = (h, Ok false) ->
  _process_sync invoke m
  = ({| manager := with_rate_limit_handler h (manager m);
        world := world m; calls := calls m |}, Ok tt).
Proof.
  intros Hfp Hq Hp Hcp. unfold _process_sync. rewrite Hfp, Hq.
  cbn [with_queues rate_limit_handler]. rewrite Hcp. cbv zeta. rewrite Hp.
  rewrite (requeued_at_head p r rest h (manager m) Hq). reflexivity.
Qed.

Lemma can_proceed_refuses (h : RateLimitHandler) (now : Q) (T : Z) :
  0 <= T ->
  ~ admits (lazy_reset now h) T 1 0 ->
  can_proceed h now T 1 0 = (lazy_reset now h, Ok false).
Proof.
  intros HT Hno.
  destruct (can_proceed_checks h now T 1 0 HT) as (b & Hcp & Hb); try lia.
  rewrite Hcp. destruct b; [|reflexivity].
  exfalso. apply Hno, Hb. reflexivity.
Qed.

(** X19.  A request that the tracker refuses keeps its place: when the
    head of a queue of a well-formed manager is not admitted by the lazily
    reset tracker, [_process_priority_queue] on that queue, and
    [_process_sync] when that queue is the first non-empty one, return
    normally, call nothing, do not sleep, and leave queues and counters as
    they were; only the tracker is lazily reset. *)
Theorem refused_request_keeps_its_place
    (invoke : QueuedRequest -> result unit) (m : Machine) (p : Priority)
    (r : QueuedRequest) (rest : list QueuedRequest) :
  queues_ok (_queues (manager m)) ->
  queue_of p (_queues (manager m)) = r :: rest ->
  0 <= tokens_required r ->
  ~ admits (lazy_reset (clock (world m)) (rate_limit_handler (manager m)))
      (tokens_required r) 1 0 ->
  let m' :=
    {| manager :=
         with_rate_limit_handler
           (lazy_reset (clock (world m)) (rate_limit_handler (manager m)))
           (manager m);
       world := world m; calls := calls m |} in
  _process_priority_queue invoke m p = (m', Ok tt)
  /\ (first_pending (_queues (manager m)) = Some p ->
      _process_sync invoke m = (m', Ok tt)).
Proof.
  intros Hok Hq HT Hno. cbv zeta.
  pose proof (can_proceed_refuses _ _ _ HT Hno) as Hcp.
  split.
  - now apply (process_priority_queue_refused invoke m p r rest).
  - intros Hfp. apply (process_sync_refused invoke m p r rest); try assumption.
    destruct (popped_ok p _ r rest Hok Hq) as [(_ & _ & Hp) _]. exact Hp.
Qed.

Lemma oversized_manager_reachable :
  manager_reachable always_returns oversized_manager.
Proof.
  unfold oversized_manager.
  do 2 apply mr_enqueue. apply mr_tracker. apply (mr_init _ None 10).
  reflexivity.
Qed.

Lemma refused_request_keeps_its_place_witness :
  let m := start_of oversized_manager in
  let m' :=
    {| manager :=
         with_rate_limit_handler
           (lazy_reset (clock (world m)) (rate_limit_handler (manager m)))
           (manager m);
       world := world m; calls := calls m |} in
  (queues_ok (_queues (manager m))
   /\ queue_of NORMAL (_queues (manager m)) = [oversized_request]
   /\ 0 <= tokens_required oversized_request
   /\ ~ admits (lazy_reset (clock (world m)) (rate_limit_handler (manager m)))
         (tokens_required oversized_request) 1 0)
  /\ _process_priority_queue always_returns m NORMAL = (m', Ok tt)
  /\ (first_pending (_queues (manager m)) = Some NORMAL ->
      _process_sync always_returns m = (m', Ok tt)).
Proof.
  cbv zeta.
  assert (H1 : queues_ok (_queues (manager (start_of oversized_manager)))).
  { apply (manager_reachable_queues_ok always_returns).
    exact oversized_manager_reachable. }
  assert (H2 : queue_of NORMAL (_queues (manager (start_of oversized_manager)))
               = [oversized_request]) by (vm_compute; reflexivity).
  assert (H3 : 0 <= tokens_required oversized_request) by (cbn; lia).
  assert (H4 : ~ admits
                 (lazy_reset (clock (world (start_of oversized_manager)))
                    (rate_limit_handler (manager (start_of oversized_manager))))
                 (tokens_required oversized_request) 1 0).
  { intros H. specialize (H Tokens).
    assert (H0 : 0 < limit_of Tokens
                       (lazy_reset (clock (world (start_of oversized_manager)))
                          (rate_limit_handler
                             (manager (start_of oversized_manager)))))
      by (vm_compute; reflexivity).
    specialize (H H0). vm_compute in H. apply H. reflexivity. }
  split; [repeat split; assumption|].
  exact (refused_request_keeps_its_place always_returns
           (start_of oversized_manager) NORMAL oversized_request [] H1 H2 H3 H4).
Defined.

(** *** The synchronous loop *)

Lemma has_pending_requests_nonempty (qm : QueueManager) (p : Priority)
    (r : QueuedRequest) (rest : list QueuedRequest) :
  queue_of p (_queues qm) = r :: rest -> _has_pending_requests qm = true.
Proof.
  intros Hq. unfold _has_pending_requests. apply existsb_exists.
  exists p. split.
  - destruct p; cbn; tauto.
  - rewrite Hq. cbn [length]. apply Z.ltb_lt. lia.
Qed.

Lemma lazy_reset_remaining (w : window) (now : Q) (h : RateLimitHandler) :
  remaining_of w (lazy_reset now h) = remaining_of w h
  \/ remaining_of w (lazy_reset now h) = limit_of w h.
Proof.
  destruct (Qlt_le_dec 0 (reset_at_of w h)) as [Hpos|Hnp].
  - destruct (Qlt_le_dec now (reset_at_of w h)) as [Hlt|Hle].
    + left. apply lazy_reset_not_due. intros [_ Hd]. lra.
    + right. apply lazy_reset_due. split; assumption.
  - left. apply lazy_reset_not_due. intros [Hd _]. lra.
Qed.

(** X20.  A request that needs more tokens than the token window holds
    blocks the synchronous loop for ever: when the first request that
    [_process_sync] would take asks for more than a positive
    [token_limit], and the window holds no more than its limit,
    [process_queue] is still running after any number of turns, whatever
    else is queued. *)
Theorem process_queue_blocked_by_oversized_request
    (invoke : QueuedRequest -> result unit) (fuel : nat) (m : Machine)
    (p : Priority) (r : QueuedRequest) (rest : list QueuedRequest) :
  queues_ok (_queues (manager m)) ->
  first_pending (_queues (manager m)) = Some p ->
  queue_of p (_queues (manager m)) = r :: rest ->
  0 < token_limit (rate_limit_handler (manager m)) ->
  token_remaining (rate_limit_handler (manager m))
    <= token_limit (rate_limit_handler (manager m)) ->
  token_limit (rate_limit_handler (manager m)) < tokens_required r ->
  process_queue invoke fuel m = None.
Proof.
  revert m. induction fuel as [|fuel IH]; intros m Hok Hfp Hq Hlim Hrem Hbig.
  { reflexivity. }
  cbn [process_queue].
  rewrite (has_pending_requests_nonempty _ p r rest Hq).
  set (h := rate_limit_handler (manager m)) in *.
  set (h' := lazy_reset (clock (world m)) h).
  assert (Hl' : token_limit h' = token_limit h)
    by apply (lazy_reset_limit Tokens).
  assert (Hr' : token_remaining h' <= token_limit h).
  { destruct (lazy_reset_remaining Tokens (clock (world m)) h) as [E|E];
      cbn [remaining_of limit_of] in E; fold h' in E; lia. }
  assert (Hcp : can_proceed h (clock (world m)) (tokens_required r) 1 0
                = (h', Ok false)).
  { apply can_proceed_refuses; [lia|].
    intros Ha. specialize (Ha Tokens). cbn [limit_of remaining_of requested] in Ha.
    fold h' in Ha. lia. }
  destruct (popped_ok p _ r rest Hok Hq) as [(_ & _ & Hp) _].
  rewrite (process_sync_refused invoke m p r rest h' Hfp Hq Hp Hcp).
  apply IH; cbn [asleep manager with_rate_limit_handler _queues
                 rate_limit_handler]; try assumption; lia.
Qed.

Lemma process_queue_blocked_by_oversized_request_witness :
  let m := start_of oversized_manager in
  (queues_ok (_queues (manager m))
   /\ first_pending (_queues (manager m)) = Some NORMAL
   /\ queue_of NORMAL (_queues (manager m)) = [oversized_request]
   /\ 0 < token_limit (rate_limit_handler (manager m))
   /\ token_remaining (rate_limit_handler (manager m))
      <= token_limit (rate_limit_handler (manager m))
   /\ token_limit (rate_limit_handler (manager m))
      < tokens_required oversized_request)
  /\ process_queue always_returns 1000 m = None.
Proof.
  cbv zeta.
  assert (H1 : queues_ok (_queues (manager (start_of oversized_manager)))).
  { apply (manager_reachable_queues_ok always_returns).
    exact oversized_manager_reachable. }
  assert (H2 : first_pending (_queues (manager (start_of oversized_manager)))
               = Some NORMAL) by (vm_compute; reflexivity).
  assert (H3 : queue_of NORMAL (_queues (manager (start_of oversized_manager)))
               = [oversized_request]) by (vm_compute; reflexivity).
  assert (H4 : 0 < token_limit
                     (rate_limit_handler (manager (start_of oversized_manager))))
    by (vm_compute; reflexivity).
  assert (H5 : token_remaining
                 (rate_limit_handler (manager (start_of oversized_manager)))
               <= token_limit
                    (rate_limit_handler (manager (start_of oversized_manager))))
    by (vm_compute; discriminate).
  assert (H6 : token_limit
                 (rate_limit_handler (manager (start_of oversized_manager)))
               < tokens_required oversized_request)
    by (vm_compute; reflexivity).
  split; [repeat split; assumption|].
  exact (process_queue_blocked_by_oversized_request always_returns 1000
           (start_of oversized_manager) NORMAL oversized_request []
           H1 H2 H3 H4 H5 H6).
Defined.

Lemma lazy_reset_unlimited (now : Q) (h : RateLimitHandler) :
  unlimited h -> lazy_reset now h = h.
Proof.
  intros Hu. apply handler_ext; [|apply lazy_reset_last_update].
  intros w. destruct (Hu w) as [_ Hno].
  destruct (lazy_reset_not_due w now h) as [Hr Ht].
  { intros [Hd _]. exact (Hno Hd). }
  split; [apply lazy_reset_limit|]. split; assumption.
Qed.

Lemma can_proceed_unlimited (h : RateLimitHandler) (now : Q) (T : Z) :
  unlimited h -> 0 <= T -> can_proceed h now T 1 0 = (h, Ok true).
Proof.
  intros Hu HT.
  destruct (can_proceed_checks h now T 1 0 HT) as (b & Hcp & Hb); try lia.
  rewrite (lazy_reset_unlimited now h Hu) in Hcp, Hb. rewrite Hcp.
  replace b with true; [reflexivity|].
  symmetry. apply Hb. intros w Hpos. destruct (Hu w) as [Hl _]. lia.
Qed.

Lemma wait_if_needed_unlimited (h : RateLimitHandler) (w : World) :
  unlimited h -> wait_if_needed h w = (h, time_sleep 60 w, Ok tt).
Proof.
  intros Hu.
  assert (Hw : computed_wait h (clock w) = 60%Q).
  { apply computed_wait_default. intros x [Hp _]. destruct (Hu x) as [_ Hno].
    exact (Hno Hp). }
  rewrite wait_if_needed_under_cap; rewrite Hw.
  - rewrite lazy_reset_unlimited by assumption. reflexivity.
  - discriminate.
Qed.

Lemma unlimited_init : unlimited RateLimitHandler_init.
Proof.
  intros w. destruct w; cbn; (split; [lia|]); intros H; inversion H.
Qed.

Lemma admits_unlimited (h : RateLimitHandler) (now : Q) (T R S : Z) :
  unlimited h -> admits (lazy_reset now h) T R S.
Proof.
  intros Hu w Hpos. rewrite lazy_reset_limit in Hpos.
  destruct (Hu w) as [Hl _]. lia.
Qed.

Lemma process_sync_served (invoke : QueuedRequest -> result unit)
    (m : Machine) (p : Priority) (r : QueuedRequest)
    (rest : list QueuedRequest) (h1 h2 : RateLimitHandler) (w2 : World) :
  first_pending (_queues (manager m)) = Some p ->
  queue_of p (_queues (manager m)) = r :: rest ->
  can_proceed (rate_limit_handler (manager m)) (clock (world m))
    (tokens_required r) 1 0 = (h1, Ok true) ->
  wait_if_needed h1 (world m) = (h2, w2, Ok tt) ->
  iscoroutinefunction (request_func r) = true \/ invoke r = Ok tt ->
  _process_sync invoke m
  = ({| manager :=
          with_stats (bump_total_processed (_stats (manager m)))
            (with_rate_limit_handler h2
               (with_queues (set_queue p rest (_queues (manager m)))
                  (manager m)));
        world := w2; calls := (calls m ++ [id r])%list |}, Ok tt).
Proof.
  intros Hfp Hq Hcp Hw Hret. unfold _process_sync. rewrite Hfp, Hq.
  cbn [with_queues rate_limit_handler]. rewrite Hcp.
  cbn [with_rate_limit_handler rate_limit_handler]. rewrite Hw.
  cbn [is_ok].
  destruct (iscoroutinefunction (request_func r)) eqn:Hco.
  - reflexivity.
  - destruct Hret as [Hc|Hi]; [discriminate|]. rewrite Hi. reflexivity.
Qed.

Lemma process_sync_failed (invoke : QueuedRequest -> result unit)
    (m : Machine) (p : Priority) (r : QueuedRequest)
    (rest : list QueuedRequest) (h1 h2 : RateLimitHandler) (w2 : World)
    (e : exn) :
  first_pending (_queues (manager m)) = Some p ->
  queue_of p (_queues (manager m)) = r :: rest ->
  can_proceed (rate_limit_handler (manager m)) (clock (world m))
    (tokens_required r) 1 0 = (h1, Ok true) ->
  wait_if_needed h1 (world m) = (h2, w2, Ok tt) ->
  iscoroutinefunction (request_func r) = false -> invoke r = Raise e ->
  _process_sync invoke m
  = ({| manager :=
          fst (_handle_request_error
                 (with_rate_limit_handler h2
                    (with_queues (set_queue p rest (_queues (manager m)))
                       (manager m))) r e);
        world := w2; calls := (calls m ++ [id r])%list |},
     snd (_handle_request_error
            (with_rate_limit_handler h2
               (with_queues (set_queue p rest (_queues (manager m)))
                  (manager m))) r e)).
Proof.
  intros Hfp Hq Hcp Hw Hco Hi. unfold _process_sync. rewrite Hfp, Hq.
  cbn [with_queues rate_limit_handler]. rewrite Hcp.
  cbn [with_rate_limit_handler rate_limit_handler]. rewrite Hw.
  cbn [is_ok]. rewrite Hco, Hi, handle_request_error_sync_same.
  match goal with
  | |- (let '(_, _) := ?x in _) = (?M, snd ?y) => change y with x; destruct x
  end.
  reflexivity.
Qed.

Lemma service_order_head (qs : Queues) (r : QueuedRequest)
    (tl : list QueuedRequest) :
  service_order qs = r :: tl ->
  exists (p : Priority) (rest : list QueuedRequest),
    first_pending qs = Some p
    /\ queue_of p qs = r :: rest
    /\ service_order (set_queue p rest qs) = tl.
Proof.
  destruct qs as [l n h u]. unfold service_order, first_pending.
  cbn [q_low q_normal q_high q_urgent find queue_of].
  destruct u as [|ru u]; cbn [bool_decide decide_rel negb app].
  2: { intros [= -> <-]. exists URGENT, u. repeat split. }
  destruct h as [|rh h].
  2: { intros [= -> <-]. exists HIGH, h. repeat split. }
  destruct n as [|rn n].
  2: { intros [= -> <-]. exists NORMAL, n. repeat split. }
  destruct l as [|rl l]; [discriminate|].
  intros [= -> <-]. exists LOW, l. repeat split.
Qed.

Lemma has_pending_requests_none (qm : QueueManager) :
  service_order (_queues qm) = [] -> _has_pending_requests qm = false.
Proof.
  unfold service_order, _has_pending_requests. intros H.
  apply app_eq_nil in H as [Hu H]. apply app_eq_nil in H as [Hh H].
  apply app_eq_nil in H as [Hn Hl].
  cbn [existsb queue_of]. rewrite Hu, Hh, Hn, Hl. reflexivity.
Qed.

Lemma process_queue_step (invoke : QueuedRequest -> result unit) (fuel : nat)
    (m : Machine) :
  process_queue invoke (S fuel) m
  = if _has_pending_requests (manager m) then
      match _process_sync invoke m with
      | (m, Ok _) => process_queue invoke fuel (asleep (1 # 10) m)
      | (m, Raise e) => Some (m, Raise (ThreadingError e))
      end
    else Some (m, Ok tt).
Proof. reflexivity. Qed.

Lemma process_queue_drains_from (invoke : QueuedRequest -> result unit)
    (l : list QueuedRequest) (m : Machine) :
  service_order (_queues (manager m)) = l ->
  unlimited (rate_limit_handler (manager m)) ->
  Forall (served_at_once invoke) l ->
  exists m',
    (forall fuel, (length l < fuel)%nat ->
       process_queue invoke fuel m = Some (m', Ok tt))
    /\ service_order (_queues (manager m')) = []
    /\ calls m' = (calls m ++ map id l)%list
    /\ sleeps (world m')
       = (sleeps (world m) ++ flat_map (fun _ => [60%Q; 1 # 10]) l)%list
    /\ total_processed (_stats (manager m'))
       = total_processed (_stats (manager m)) + Z.of_nat (length l)
    /\ total_failed (_stats (manager m')) = total_failed (_stats (manager m))
    /\ rate_limit_handler (manager m') = rate_limit_handler (manager m).
Proof.
  revert m. induction l as [|r tl IH]; intros m Hso Hu Hall.
  - exists m. cbn [map flat_map length]. rewrite !app_nil_r.
    repeat split; try reflexivity; [|assumption|lia].
    intros [|fuel] Hlt; [lia|]. rewrite process_queue_step.
    rewrite (has_pending_requests_none _ Hso). reflexivity.
  - destruct (service_order_head _ r tl Hso) as (p & rest & Hfp & Hq & Htl).
    apply Forall_cons_1 in Hall as [[HT Hret] Hall].
    pose proof (process_sync_served invoke m p r rest
                  (rate_limit_handler (manager m))
                  (rate_limit_handler (manager m))
                  (time_sleep 60 (world m)) Hfp Hq
                  (can_proceed_unlimited _ _ _ Hu HT)
                  (wait_if_needed_unlimited _ _ Hu) Hret) as Hstep.
    match type of Hstep with
    | _ = (?M, _) =>
        destruct (IH (asleep (1 # 10) M))
          as (m' & Hrun & Hempty & Hcalls & Hsl & Hpr & Hfl & Hh);
          [exact Htl|exact Hu|exact Hall|]
    end.
    exists m'. split.
    { intros [|fuel] Hlt; [lia|]. cbn [length] in Hlt.
      rewrite process_queue_step.
      rewrite (has_pending_requests_nonempty _ p r rest Hq), Hstep.
      apply Hrun. lia. }
    split; [exact Hempty|].
    cbn [asleep manager world calls time_sleep sleeps with_stats with_queues
         with_rate_limit_handler _stats bump_total_processed total_processed
         total_failed rate_limit_handler] in Hcalls, Hsl, Hpr, Hfl, Hh.
    cbn [length map flat_map].
    repeat split.
    + rewrite Hcalls, <- app_assoc. reflexivity.
    + rewrite Hsl, <- !app_assoc. reflexivity.
    + rewrite Hpr. lia.
    + exact Hfl.
    + exact Hh.
Qed.

(** X21.  With a tracker that knows no limit, [process_queue] empties
    the queues: given more turns than there are waiting requests it returns
    normally after serving every request once, in the order urgent, high,
    normal, low and first-in first-out within a priority; it counts each as
    processed and none as failed, leaves the tracker as it was, and sleeps
    60 s (the default wait of [wait_if_needed]) before each request and
    0.1 s after it. *)
Theorem process_queue_drains (invoke : QueuedRequest -> result unit)
    (m : Machine) :
  unlimited (rate_limit_handler (manager m)) ->
  Forall (served_at_once invoke) (service_order (_queues (manager m))) ->
  let l := service_order (_queues (manager m)) in
  exists m',
    (forall fuel, (length l < fuel)%nat ->
       process_queue invoke fuel m = Some (m', Ok tt))
    /\ service_order (_queues (manager m')) = []
    /\ calls m' = (calls m ++ map id l)%list
    /\ sleeps (world m')
       = (sleeps (world m) ++ flat_map (fun _ => [60%Q; 1 # 10]) l)%list
    /\ total_processed (_stats (manager m'))
       = total_processed (_stats (manager m)) + Z.of_nat (length l)
    /\ total_failed (_stats (manager m')) = total_failed (_stats (manager m))
    /\ rate_limit_handler (manager m') = rate_limit_handler (manager m).
Proof.
  intros Hu Hall. cbv zeta.
  apply process_queue_drains_from; [reflexivity|assumption|assumption].
Qed.

Lemma process_queue_drains_witness :
  let m := start_of mixed_manager in
  (unlimited (rate_limit_handler (manager m))
   /\ Forall (served_at_once always_returns)
        (service_order (_queues (manager m))))
  /\ exists m',
       process_queue always_returns 4 m = Some (m', Ok tt)
       /\ calls m' = ["req_1000_2"; "req_1000_3"; "req_1000_1"]
       /\ sleeps (world m') = [60%Q; 1 # 10; 60%Q; 1 # 10; 60%Q; 1 # 10].
Proof.
  cbv zeta.
  assert (H1 : unlimited (rate_limit_handler (manager (start_of mixed_manager))))
    by exact unlimited_init.
  assert (H2 : Forall (served_at_once always_returns)
                 (service_order (_queues (manager (start_of mixed_manager))))).
  { vm_compute.
    repeat (apply Forall_cons_2; [split; [discriminate|left; reflexivity]|]).
    apply Forall_nil_2. }
  split; [split; assumption|].
  destruct (process_queue_drains always_returns (start_of mixed_manager) H1 H2)
    as (m' & Hrun & _ & Hcalls & Hsl & _).
  exists m'. split; [apply Hrun; vm_compute; lia|]. split.
  - rewrite Hcalls. vm_compute. reflexivity.
  - rewrite Hsl. vm_compute. reflexivity.
Defined.

(** *** Requests whose retries are used up *)

Lemma can_proceed_admits (h : RateLimitHandler) (now : Q) (T : Z) :
  0 <= T ->
  admits (lazy_reset now h) T 1 0 ->
  can_proceed h now T 1 0 = (lazy_reset now h, Ok true).
Proof.
  intros HT Ha.
  destruct (can_proceed_checks h now T 1 0 HT) as (b & Hcp & Hb); try lia.
  rewrite Hcp. replace b with true; [reflexivity|]. symmetry. now apply Hb.
Qed.

Lemma handle_request_error_no_retry_left (qm : QueueManager) (r : QueuedRequest)
    (e : exn) :
  max_retries r <= retry_count r ->
  _handle_request_error qm r e
  = (with_stats (bump_total_failed (_stats qm)) qm,
     Raise (RetryError (max_retries r) e)).
Proof.
  intros H. unfold _handle_request_error.
  destruct (retry_count r <? max_retries r) eqn:E; [|reflexivity].
  apply Z.ltb_lt in E. lia.
Qed.

(** X22.  A request that raises with no retry left ends [process_queue]:
    when the first request that [_process_sync] takes is admitted, its
    synchronous callable raises and its retries are used up,
    [process_queue] raises [ThreadingError] wrapping the [RetryError] at
    that turn; the request is dropped and counted as failed, and the
    requests behind it stay queued, unserved. *)
Theorem process_queue_aborts_on_exhausted_request
    (invoke : QueuedRequest -> result unit) (fuel : nat) (m : Machine)
    (p : Priority) (r : QueuedRequest) (rest : list QueuedRequest) (e : exn) :
  let now := clock (world m) in
  let h := lazy_reset now (rate_limit_handler (manager m)) in
  first_pending (_queues (manager m)) = Some p ->
  queue_of p (_queues (manager m)) = r :: rest ->
  0 <= tokens_required r ->
  admits h (tokens_required r) 1 0 ->
  (computed_wait h now <= 300)%Q ->
  iscoroutinefunction (request_func r) = false ->
  invoke r = Raise e ->
  max_retries r <= retry_count r ->
  exists m',
    process_queue invoke (S fuel) m
    = Some (m', Raise (ThreadingError (RetryError (max_retries r) e)))
    /\ _queues (manager m') = set_queue p rest (_queues (manager m))
    /\ calls m' = (calls m ++ [id r])%list
    /\ total_failed (_stats (manager m'))
       = total_failed (_stats (manager m)) + 1
    /\ total_retries (_stats (manager m')) = total_retries (_stats (manager m))
    /\ total_processed (_stats (manager m'))
       = total_processed (_stats (manager m)).
Proof.
  intros now h Hfp Hq HT Ha Hw Hco Hi Hex.
  rewrite process_queue_step.
  rewrite (has_pending_requests_nonempty _ p r rest Hq).
  rewrite (process_sync_failed invoke m p r rest h _ _ e Hfp Hq
             (can_proceed_admits _ _ _ HT Ha)
             (wait_if_needed_under_cap h (world m) Hw) Hco Hi).
  rewrite handle_request_error_no_retry_left by assumption.
  cbn [fst snd]. eexists. split; [reflexivity|].
  cbn [manager calls with_stats with_rate_limit_handler with_queues _queues
       _stats bump_total_failed total_failed total_retries total_processed].
  repeat split; reflexivity.
Qed.

Lemma process_queue_aborts_on_exhausted_request_witness :
  let m := start_of no_retry_manager in
  let r := no_retry_request 1 in
  let now := clock (world m) in
  let h := lazy_reset now (rate_limit_handler (manager m)) in
  (first_pending (_queues (manager m)) = Some HIGH
   /\ queue_of HIGH (_queues (manager m)) = [r; no_retry_request 2]
   /\ 0 <= tokens_required r
   /\ admits h (tokens_required r) 1 0
   /\ (computed_wait h now <= 300)%Q
   /\ iscoroutinefunction (request_func r) = false
   /\ always_raises r = Raise (PyException "boom")
   /\ max_retries r <= retry_count r)
  /\ exists m',
       process_queue always_raises 5 m
       = Some (m', Raise (ThreadingError (RetryError 0 (PyException "boom"))))
       /\ map id (q_high (_queues (manager m'))) = ["req_1000_2"]
       /\ calls m' = ["req_1000_1"].
Proof.
  cbv zeta.
  assert (H1 : first_pending (_queues (manager (start_of no_retry_manager)))
               = Some HIGH) by (vm_compute; reflexivity).
  assert (H2 : queue_of HIGH (_queues (manager (start_of no_retry_manager)))
               = [no_retry_request 1; no_retry_request 2])
    by (vm_compute; reflexivity).
  assert (H3 : 0 <= tokens_required (no_retry_request 1)) by (cbn; lia).
  assert (H4 : admits
                 (lazy_reset (clock (world (start_of no_retry_manager)))
                    (rate_limit_handler (manager (start_of no_retry_manager))))
                 (tokens_required (no_retry_request 1)) 1 0).
  { apply admits_unlimited. exact unlimited_init. }
  assert (H5 : (computed_wait
                  (lazy_reset (clock (world (start_of no_retry_manager)))
                     (rate_limit_handler (manager (start_of no_retry_manager))))
                  (clock (world (start_of no_retry_manager))) <= 300)%Q)
    by (vm_compute; discriminate).
  assert (H6 : iscoroutinefunction (request_func (no_retry_request 1)) = false)
    by reflexivity.
  assert (H7 : always_raises (no_retry_request 1) = Raise (PyException "boom"))
    by reflexivity.
  assert (H8 : max_retries (no_retry_request 1)
               <= retry_count (no_retry_request 1)) by (cbn; lia).
  split; [repeat split; assumption|].
  destruct (process_queue_aborts_on_exhausted_request always_raises 4
              (start_of no_retry_manager) HIGH (no_retry_request 1)
              [no_retry_request 2] (PyException "boom")
              H1 H2 H3 H4 H5 H6 H7 H8)
    as (m' & Hrun & Hq & Hcalls & _).
  exists m'. split; [exact Hrun|]. split.
  - rewrite Hq. vm_compute. reflexivity.
  - rewrite Hcalls. vm_compute. reflexivity.
Defined.

Lemma process_priority_queue_empty (invoke : QueuedRequest -> result unit)
    (m : Machine) (p : Priority) :
  queue_of p (_queues (manager m)) = [] ->
  _process_priority_queue invoke m p = (m, Ok tt).
Proof. intros H. unfold _process_priority_queue. rewrite H. reflexivity. Qed.

Lemma process_priority_queue_exhausted (invoke : QueuedRequest -> result unit)
    (m : Machine) (p : Priority) (r : QueuedRequest)
    (rest : list QueuedRequest) (e : exn) :
  let now := clock (world m) in
  let h := lazy_reset now (rate_limit_handler (manager m)) in
  queue_of p (_queues (manager m)) = r :: rest ->
  0 <= tokens_required r ->
  admits h (tokens_required r) 1 0 ->
  (computed_wait h now <= 300)%Q ->
  invoke r = Raise e ->
  max_retries r <= retry_count r ->
  exists m1 err,
    _process_priority_queue invoke m p = (m1, Raise err)
    /\ is_RetryError err = true
    /\ _queues (manager m1) = set_queue p rest (_queues (manager m))
    /\ world m1 = time_sleep (computed_wait h now) (world m)
    /\ _stats (manager m1) = bump_total_failed (_stats (manager m)).
Proof.
  intros now h Hq HT Ha Hw Hi Hex. subst now h.
  unfold _process_priority_queue.
  rewrite Hq. cbn [with_queues rate_limit_handler].
  rewrite (can_proceed_admits _ _ _ HT Ha).
  unfold _execute_request.
  cbn [manager world calls with_rate_limit_handler rate_limit_handler].
  rewrite (wait_if_needed_under_cap _ (world m) Hw).
  destruct (if iscoroutinefunction (request_func r) then true
            else bool_decide (kwargs r = ∅)).
  - rewrite Hi.
    destruct e; cbn [manager]; rewrite handle_request_error_no_retry_left
      by assumption; do 2 eexists; repeat split; reflexivity.
  - cbn [manager]. rewrite handle_request_error_no_retry_left by assumption.
    do 2 eexists; repeat split; reflexivity.
Qed.

(** X23.  In the asynchronous worker the same failure cuts the turn
    short: when the head of the highest non-empty queue is admitted, raises
    and has no retry left, the turn of [_process_queue_async] drops it,
    counts it as failed, serves no queue of lower priority, and pauses 1 s
    instead of 0.1 s after the wait of [wait_if_needed]. *)
Theorem async_turn_cut_short_by_exhausted_request
    (invoke : QueuedRequest -> result unit) (m : Machine) (p : Priority)
    (r : QueuedRequest) (rest : list QueuedRequest) (e : exn) :
  let now := clock (world m) in
  let h := lazy_reset now (rate_limit_handler (manager m)) in
  queue_of p (_queues (manager m)) = r :: rest ->
  (forall p', rank p < rank p' -> queue_of p' (_queues (manager m)) = []) ->
  0 <= tokens_required r ->
  admits h (tokens_required r) 1 0 ->
  (computed_wait h now <= 300)%Q ->
  invoke r = Raise e ->
  max_retries r <= retry_count r ->
  let m' := async_turn invoke m in
  _queues (manager m') = set_queue p rest (_queues (manager m))
  /\ sleeps (world m') = (sleeps (world m) ++ [computed_wait h now; 1%Q])%list
  /\ _stats (manager m') = bump_total_failed (_stats (manager m)).
Proof.
  intros now h Hq Hhigh HT Ha Hw Hi Hex. subst now h.
  destruct (process_priority_queue_exhausted invoke m p r rest e
              Hq HT Ha Hw Hi Hex) as (m1 & err & Hrun & _ & Hqs & Hwd & Hst).
  assert (Hturn : async_turn invoke m = asleep 1 m1).
  { unfold async_turn. cbn [fold_left].
    cbv beta iota zeta.
    destruct p; cbn [rank] in Hhigh;
      repeat (rewrite (process_priority_queue_empty invoke m)
                by (apply Hhigh; cbn [rank]; lia); cbv beta iota);
      rewrite Hrun; reflexivity. }
  cbv zeta. rewrite Hturn.
  cbn [asleep manager world time_sleep sleeps]. rewrite Hwd.
  cbn [time_sleep sleeps]. rewrite <- app_assoc.
  repeat split; assumption.
Qed.

Lemma async_turn_cut_short_by_exhausted_request_witness :
  let m := start_of no_retry_manager in
  let r := no_retry_request 1 in
  let now := clock (world m) in
  let h := lazy_reset now (rate_limit_handler (manager m)) in
  let m' := async_turn always_raises m in
  (queue_of HIGH (_queues (manager m)) = [r; no_retry_request 2]
   /\ (forall p', rank HIGH < rank p' -> queue_of p' (_queues (manager m)) = [])
   /\ 0 <= tokens_required r
   /\ admits h (tokens_required r) 1 0
   /\ (computed_wait h now <= 300)%Q
   /\ always_raises r = Raise (PyException "boom")
   /\ max_retries r <= retry_count r)
  /\ map id (q_high (_queues (manager m'))) = ["req_1000_2"]
  /\ map id (q_low (_queues (manager m'))) = ["req_1000_3"]
  /\ sleeps (world m') = [60%Q; 1%Q].
Proof.
  cbv zeta.
  assert (H2 : queue_of HIGH (_queues (manager (start_of no_retry_manager)))
               = [no_retry_request 1; no_retry_request 2])
    by (vm_compute; reflexivity).
  assert (H1 : forall p', rank HIGH < rank p' ->
               queue_of p' (_queues (manager (start_of no_retry_manager))) = []).
  { intros p' Hp'. destruct p'; cbn [rank] in Hp'; try lia. reflexivity. }
  assert (H3 : 0 <= tokens_required (no_retry_request 1)) by (cbn; lia).
  assert (H4 : admits
                 (lazy_reset (clock (world (start_of no_retry_manager)))
                    (rate_limit_handler (manager (start_of no_retry_manager))))
                 (tokens_required (no_retry_request 1)) 1 0).
  { apply admits_unlimited. exact unlimited_init. }
  assert (H5 : (computed_wait
                  (lazy_reset (clock (world (start_of no_retry_manager)))
                     (rate_limit_handler (manager (start_of no_retry_manager))))
                  (clock (world (start_of no_retry_manager))) <= 300)%Q)
    by (vm_compute; discriminate).
  assert (H7 : always_raises (no_retry_request 1) = Raise (PyException "boom"))
    by reflexivity.
  assert (H8 : max_retries (no_retry_request 1)
               <= retry_count (no_retry_request 1)) by (cbn; lia).
  split; [repeat split; assumption|].
  destruct (async_turn_cut_short_by_exhausted_request always_raises
              (start_of no_retry_manager) HIGH (no_retry_request 1)
              [no_retry_request 2] (PyException "boom")
              H2 H1 H3 H4 H5 H7 H8)
    as (Hq & Hsl & _).
  rewrite Hq, Hsl. repeat split; vm_compute; reflexivity.
Defined.

(** *** Clearing the queues *)

Lemma Priority_of_value_spec (value : string) :
  match Priority_of_value value with
  | Some p => value = Priority_value p
  | None => forall p, value <> Priority_value p
  end.
Proof.
  unfold Priority_of_value.
  destruct (String.eqb value "low") eqn:E1;
    [apply String.eqb_eq in E1; exact E1|].
  destruct (String.eqb value "normal") eqn:E2;
    [apply String.eqb_eq in E2; exact E2|].
  destruct (String.eqb value "high") eqn:E3;
    [apply String.eqb_eq in E3; exact E3|].
  destruct (String.eqb value "urgent") eqn:E4;
    [apply String.eqb_eq in E4; exact E4|].
  apply String.eqb_neq in E1, E2, E3, E4.
  intros p. destruct p; assumption.
Qed.

(** X24.  [clear_queue] with a name: when the name, put in lower case, is
    the value of a priority, the call returns normally, empties the queue
    of that priority and leaves the other queues and the statistics as
    they were; for any other name it changes nothing and raises
    [LockError], which wraps the [ValidationError] for [priority] and is
    itself no [ValidationError]. *)
Theorem clear_queue_by_name (qm : QueueManager) (name : string) :
  match clear_queue qm (Some name) with
  | (qm', Ok _) =>
      exists p,
        lower name = Priority_value p
        /\ queue_of p (_queues qm') = []
        /\ (forall p', p' <> p ->
              queue_of p' (_queues qm') = queue_of p' (_queues qm))
        /\ _stats qm' = _stats qm
  | (qm', Raise e) =>
      (forall p, lower name <> Priority_value p)
      /\ qm' = qm
      /\ e = LockError (ValidationError "priority")
      /\ is_ValidationError e = false
  end.
Proof.
  unfold clear_queue.
  pose proof (Priority_of_value_spec (lower name)) as Hspec.
  destruct (Priority_of_value (lower name)) as [p|].
  - exists p. cbn [with_queues _queues _stats].
    rewrite queue_of_set_queue_eq.
    repeat split; try assumption.
    intros p' Hne. now apply queue_of_set_queue_ne.
  - repeat split. exact Hspec.
Qed.

(** X25.  [clear_queue()] forgets the waiting requests without counting
    them: in any run of a manager on its event loop it returns normally
    and leaves no request waiting, and the statistics are untouched, so
    that afterwards [total_queued + total_retries] exceeds
    [total_processed + total_failed] by the number of requests that this
    call and the earlier calls of [clear_queue] removed, plus one when the
    worker awaits the callable of a request. *)
Theorem clear_queue_forgets_requests (r : Run) :
  loop_reachable r ->
  let qm := run_manager r in
  let before := get_queue_status qm in
  let after := get_queue_status (fst (clear_queue qm None)) in
  snd (clear_queue qm None) = Ok tt
  /\ status_total_queued after = 0
  /\ _has_pending_requests (fst (clear_queue qm None)) = false
  /\ stats after = stats before
  /\ total_queued (stats after) + total_retries (stats after)
     = total_processed (stats after) + total_failed (stats after)
       + status_total_queued before + cleared r + in_flight r.
Proof.
  intros Hr. cbv zeta.
  destruct (loop_reachable_accounts r Hr) as (_ & _ & Hsum & _).
  rewrite !sum_values_queue_sizes.
  cbn [clear_queue fst snd get_queue_status stats with_queues _queues _stats].
  repeat split; try reflexivity. lia.
Qed.

Lemma cleared_run_reachable :
  exists r,
    cleared_run = Some r /\ loop_reachable r
    /\ cleared r = 3 /\ in_flight r = 1
    /\ status_total_queued (get_queue_status (run_manager r)) = 1.
Proof.
  assert (H : match cleared_run with
              | Some r =>
                  cleared r = 3 /\ in_flight r = 1
                  /\ status_total_queued (get_queue_status (run_manager r)) = 1
              | None => False
              end) by (vm_compute; auto).
  assert (E : run_steps (new_run (new_manager 10)) cleared_ops = cleared_run)
    by (vm_compute; reflexivity).
  destruct cleared_run as [r|]; [|contradiction].
  exists r. split; [reflexivity|]. split; [|exact H].
  exact (run_steps_reachable cleared_ops _ r (new_manager_run 10 ltac:(lia)) E).
Qed.

Lemma clear_queue_forgets_requests_witness :
  exists r,
    cleared_run = Some r
    /\ loop_reachable r
    /\ (cleared r = 3 /\ in_flight r = 1
        /\ status_total_queued (get_queue_status (run_manager r)) = 1)
    /\ let qm := run_manager r in
       let before := get_queue_status qm in
       let after := get_queue_status (fst (clear_queue qm None)) in
       snd (clear_queue qm None) = Ok tt
       /\ status_total_queued after = 0
       /\ _has_pending_requests (fst (clear_queue qm None)) = false
       /\ stats after = stats before
       /\ total_queued (stats after) + total_retries (stats after)
          = total_processed (stats after) + total_failed (stats after)
            + status_total_queued before + cleared r + in_flight r.
Proof.
  destruct cleared_run_reachable as (r & Hrun & Hr & Hfacts).
  exists r. split; [exact Hrun|]. split; [exact Hr|].
  split; [exact Hfacts|].
  exact (clear_queue_forgets_requests r Hr).
Defined.

(** *** Request identifiers *)

















(** *** A turn of the asynchronous worker *)

Lemma process_priority_queue_unlimited (invoke : QueuedRequest -> result unit)
    (m : Machine) (p : Priority) :
  unlimited (rate_limit_handler (manager m)) ->
  Forall (served_by_worker invoke) (firstn 1 (queue_of p (_queues (manager m)))) ->
  exists m',
    _process_priority_queue invoke m p = (m', Ok tt)
    /\ _queues (manager m')
       = set_queue p (tl (queue_of p (_queues (manager m))))
           (_queues (manager m))
    /\ rate_limit_handler (manager m') = rate_limit_handler (manager m)
    /\ calls m'
       = (calls m ++ map id (firstn 1 (queue_of p (_queues (manager m)))))%list
    /\ sleeps (world m')
       = (sleeps (world m)
          ++ map (fun _ => 60%Q)
               (firstn 1 (queue_of p (_queues (manager m)))))%list
    /\ total_processed (_stats (manager m'))
       = total_processed (_stats (manager m))
         + Z.of_nat (length (firstn 1 (queue_of p (_queues (manager m)))))
    /\ total_failed (_stats (manager m')) = total_failed (_stats (manager m)).
Proof.
  intros Hu Hall. unfold _process_priority_queue.
  destruct (queue_of p (_queues (manager m))) as [|r rest] eqn:Hq.
  - exists m. cbn [tl firstn map length]. rewrite !app_nil_r, <- Hq, set_queue_same.
    repeat split; try reflexivity. lia.
  - cbn [firstn] in Hall. apply Forall_cons_1 in Hall as [(HT & Hcall & Hi) _].
    cbn [with_queues rate_limit_handler].
    rewrite (can_proceed_unlimited _ _ _ Hu HT).
    unfold _execute_request.
    cbn [manager world calls with_rate_limit_handler rate_limit_handler].
    rewrite (wait_if_needed_unlimited _ _ Hu).
    replace (if iscoroutinefunction (request_func r) then true
             else bool_decide (kwargs r = ∅)) with true.
    2: { destruct (iscoroutinefunction (request_func r)); [reflexivity|].
         destruct Hcall as [Hc|Hk]; [discriminate|].
         symmetry. now apply bool_decide_eq_true_2. }
    rewrite Hi. eexists. split; [reflexivity|].
    cbn [manager world calls with_stats with_queues with_rate_limit_handler
         _queues _stats rate_limit_handler bump_total_processed
         total_processed total_failed time_sleep sleeps tl firstn map length].
    repeat split; reflexivity.
Qed.

Lemma tails_by_queue (qs : Queues) :
  set_queue LOW (tl (queue_of LOW qs))
    (set_queue NORMAL (tl (queue_of NORMAL qs))
       (set_queue HIGH (tl (queue_of HIGH qs))
          (set_queue URGENT (tl (queue_of URGENT qs)) qs)))
  = tails qs.
Proof. destruct qs; reflexivity. Qed.

(** X27.  A turn of the asynchronous worker serves one request per
    priority: with a tracker that knows no limit and callables that
    return, the turn of [_process_queue_async] serves the head of every
    non-empty queue, in the order urgent, high, normal, low, and leaves the
    rest of each queue waiting; it counts each served request as processed,
    none as failed, sleeps 60 s before each and 0.1 s at the end. *)
Theorem async_turn_serves_one_per_priority
    (invoke : QueuedRequest -> result unit) (m : Machine) :
  unlimited (rate_limit_handler (manager m)) ->
  Forall (served_by_worker invoke) (heads (_queues (manager m))) ->
  let served := heads (_queues (manager m)) in
  let m' := async_turn invoke m in
  _queues (manager m') = tails (_queues (manager m))
  /\ calls m' = (calls m ++ map id served)%list
  /\ sleeps (world m')
     = (sleeps (world m) ++ map (fun _ => 60%Q) served ++ [1 # 10])%list
  /\ total_processed (_stats (manager m'))
     = total_processed (_stats (manager m)) + Z.of_nat (length served)
  /\ total_failed (_stats (manager m')) = total_failed (_stats (manager m)).
Proof.
  intros Hu Hall. unfold heads in *. cbn [flat_map] in *.
  rewrite app_nil_r in *.
  apply Forall_app in Hall as [Hall1 Hall].
  apply Forall_app in Hall as [Hall2 Hall].
  apply Forall_app in Hall as [Hall3 Hall4].
  destruct (process_priority_queue_unlimited invoke m URGENT Hu Hall1)
    as (m1 & R1 & Q1 & T1 & C1 & S1 & P1 & F1).
  destruct (process_priority_queue_unlimited invoke m1 HIGH)
    as (m2 & R2 & Q2 & T2 & C2 & S2 & P2 & F2).
  { rewrite T1. exact Hu. }
  { rewrite Q1, queue_of_set_queue_ne by discriminate. exact Hall2. }
  destruct (process_priority_queue_unlimited invoke m2 NORMAL)
    as (m3 & R3 & Q3 & T3 & C3 & S3 & P3 & F3).
  { rewrite T2, T1. exact Hu. }
  { rewrite Q2, Q1, !queue_of_set_queue_ne by discriminate. exact Hall3. }
  destruct (process_priority_queue_unlimited invoke m3 LOW)
    as (m4 & R4 & Q4 & T4 & C4 & S4 & P4 & F4).
  { rewrite T3, T2, T1. exact Hu. }
  { rewrite Q3, Q2, Q1, !queue_of_set_queue_ne by discriminate. exact Hall4. }
  assert (Hturn : async_turn invoke m = asleep (1 # 10) m4).
  { unfold async_turn. cbn [fold_left]. cbv beta iota zeta.
    rewrite R1. cbv beta iota. rewrite R2. cbv beta iota.
    rewrite R3. cbv beta iota. rewrite R4. reflexivity. }
  cbv zeta. rewrite Hturn. cbn [asleep manager world calls time_sleep sleeps].
  rewrite Q1 in Q2, C2, S2, P2.
  rewrite !queue_of_set_queue_ne in Q2, C2, S2, P2 by discriminate.
  rewrite Q2 in Q3, C3, S3, P3.
  rewrite !queue_of_set_queue_ne in Q3, C3, S3, P3 by discriminate.
  rewrite Q3 in Q4, C4, S4, P4.
  rewrite !queue_of_set_queue_ne in Q4, C4, S4, P4 by discriminate.
  rewrite tails_by_queue in Q4.
  split; [exact Q4|].
  split; [rewrite C4, C3, C2, C1, !map_app, <- !app_assoc; reflexivity|].
  split; [rewrite S4, S3, S2, S1, !map_app, <- !app_assoc; reflexivity|].
  split; [rewrite P4, P3, P2, P1, !length_app; lia|].
  rewrite F4, F3, F2, F1. reflexivity.
Qed.

Lemma async_turn_serves_one_per_priority_witness :
  let m := start_of mixed_manager in
  let m' := async_turn always_returns m in
  (unlimited (rate_limit_handler (manager m))
   /\ Forall (served_by_worker always_returns) (heads (_queues (manager m))))
  /\ calls m' = ["req_1000_2"; "req_1000_1"]
  /\ map id (q_urgent (_queues (manager m'))) = ["req_1000_3"]
  /\ sleeps (world m') = [60%Q; 60%Q; 1 # 10].
Proof.
  cbv zeta.
  assert (H1 : unlimited (rate_limit_handler (manager (start_of mixed_manager))))
    by exact unlimited_init.
  assert (H2 : Forall (served_by_worker always_returns)
                 (heads (_queues (manager (start_of mixed_manager))))).
  { vm_compute.
    repeat (apply Forall_cons_2;
            [split; [discriminate|split; [left; reflexivity|reflexivity]]|]).
    apply Forall_nil_2. }
  split; [split; assumption|].
  destruct (async_turn_serves_one_per_priority always_returns
              (start_of mixed_manager) H1 H2) as (Hq & Hc & Hs & _).
  rewrite Hq, Hc, Hs. repeat split; vm_compute; reflexivity.
Defined.

(** ** Responses whose headers the tracker rejects *)

Lemma and_then_raise_l (f g : RateLimitHandler -> RateLimitHandler * result unit)
    (h : RateLimitHandler) :
  is_ok (snd (f h)) = false -> is_ok (snd ((f ;;; g) h)) = false.
Proof.
  unfold and_then. destruct (f h) as [h' [u|e]]; [discriminate|reflexivity].
Qed.

Lemma and_then_raise_r (f g : RateLimitHandler -> RateLimitHandler * result unit)
    (h : RateLimitHandler) :
  (forall h', is_ok (snd (g h')) = false) ->
  is_ok (snd ((f ;;; g) h)) = false.
Proof.
  intros Hg. unfold and_then. destruct (f h) as [h' [u|e]];
    [apply Hg|reflexivity].
Qed.

Lemma ingest_int_unparsable (key : string)
    (set : Z -> RateLimitHandler -> RateLimitHandler)
    (headers : gmap string string) (v : string) (h : RateLimitHandler) :
  headers !! key = Some v -> py_int v = None ->
  is_ok (snd (ingest_int key set headers h)) = false.
Proof. intros Hk Hv. unfold ingest_int. rewrite Hk, Hv. reflexivity. Qed.

Lemma update_from_headers_unparsable (h : RateLimitHandler) (now : Q)
    (headers : gmap string string) (key v : string) :
  In key count_keys -> headers !! key = Some v -> py_int v = None ->
  is_ok (snd (update_from_headers h now headers)) = false.
Proof.
  intros Hin Hk Hv. unfold update_from_headers.
  destruct (decide (headers = ∅)); [reflexivity|]. cbv zeta.
  match goal with
  | |- context [match ?b h with _ => _ end] =>
      assert (Hbody : is_ok (snd (b h)) = false)
  end.
  { unfold count_keys in Hin. cbn [In] in Hin.
    destruct Hin as [<-|[<-|[<-|[<-|[<-|[<-|[]]]]]]];
      repeat first
        [ solve [eapply ingest_int_unparsable; eassumption]
        | solve [apply and_then_raise_r; intros;
                 eapply ingest_int_unparsable; eassumption]
        | apply and_then_raise_l ]. }
  match goal with
  | |- context [match ?b h with _ => _ end] =>
      destruct (b h) as [h' [u|e]]; [discriminate Hbody|reflexivity]
  end.
Qed.

(** ** Properties of the chat handler *)

Section GenerateProperties.

Variable tk : string -> result Encoding.
Variable post : Payload -> ApiOutcome.

(** X28.  The rate-limit check of the chat handler delays a request and
    never refuses it: once the messages are counted, [_check_rate_limits]
    returns at once when the lazily reset tracker admits the count; when
    it does not, the call sleeps for the wait that [wait_if_needed]
    computes and then returns normally, without asking the tracker again;
    only a wait above 300 s fails, as a [TextGenerationError] that wraps
    the [LockError] of the tracker. *)
Theorem check_rate_limits_delays_never_refuses (hd : TextGenerationHandler)
    (rl : RateLimitHandler) (w : World) (messages : list pyobj)
    (model : string) (n : Z) :
  snd (count_message_tokens tk (tg_token_counter hd) messages model) = Ok n ->
  let now := clock w in
  let h := lazy_reset now rl in
  let wait := computed_wait h now in
  let hd' :=
    {| tg_model_registry := tg_model_registry hd;
       tg_token_counter :=
         fst (count_message_tokens tk (tg_token_counter hd) messages model) |} in
  (admits h n 1 0 ->
   _check_rate_limits tk hd rl w messages model = (hd', h, w, Ok tt))
  /\ (~ admits h n 1 0 -> (wait <= 300)%Q ->
      _check_rate_limits tk hd rl w messages model
      = (hd', lazy_reset (now + wait)%Q h, time_sleep wait w, Ok tt))
  /\ (~ admits h n 1 0 -> (300 < wait)%Q ->
      _check_rate_limits tk hd rl w messages model
      = (hd', h, w,
         Raise (TextGenerationError model
                  (LockError (RateLimitExceeded "RATE_LIMIT_WAIT_TOO_LONG"
                                (Some wait)))))).
Proof.
  intros Hn now h wait hd'. subst now h wait hd'.
  pose proof (count_message_tokens_nonneg tk _ _ _ _ Hn) as Hpos.
  unfold _check_rate_limits.
  destruct (count_message_tokens tk (tg_token_counter hd) messages model)
    as [tc counted].
  cbn [fst snd] in *. subst counted.
  split; [|split].
  - intros Ha. rewrite (can_proceed_admits _ _ _ Hpos Ha). reflexivity.
  - intros Hno Hw. rewrite (can_proceed_refuses _ _ _ Hpos Hno).
    rewrite (wait_if_needed_under_cap _ _ Hw). reflexivity.
  - intros Hno Hw. rewrite (can_proceed_refuses _ _ _ Hpos Hno).
    rewrite (wait_if_needed_over_cap _ _ Hw). reflexivity.
Qed.


Lemma check_token_limits_passed (hd : TextGenerationHandler)
    (messages : list pyobj) (model : string) (max_tokens : Z) :
  snd (_check_token_limits tk hd messages model max_tokens) = Ok tt ->
  forall cw,
    get_max_tokens (tg_model_registry hd) model = Ok (Some cw) ->
    exists n,
      snd (count_message_tokens tk (tg_token_counter hd) messages model) = Ok n
      /\ n + max_tokens <= cw.
Proof.
  unfold _check_token_limits.
  destruct (count_message_tokens tk (tg_token_counter hd) messages model)
    as [tc [n|e]]; cbn [snd tg_model_registry].
  - intros H cw Hcw. rewrite Hcw in H. exists n. split; [reflexivity|].
    destruct (cw <? n + max_tokens) eqn:E; [discriminate|].
    apply Z.ltb_ge in E. exact E.
  - destruct (is_TokenLimitExceeded e); discriminate.
Qed.

Lemma validate_messages_valid (messages : list pyobj) :
  _validate_messages messages = Ok tt ->
  messages <> [] /\ Forall valid_message messages.
Proof.
  destruct messages as [|m l]; [discriminate|].
  intros H. split; [discriminate|].
  apply (validate_loop_ok (m :: l) 0). exact H.
Qed.

Lemma prepare_payload_params (model : string) (messages : list pyobj)
    (kwargs : gmap string pyval) (k : string) (v : pyval) :
  payload_params (_prepare_payload model messages kwargs) !! k = Some v ->
  In k valid_params /\ kwargs !! k = Some v.
Proof.
  cbn [_prepare_payload payload_params]. intros H.
  apply map_lookup_filter_Some in H as [Hk Hin]. cbn in Hin.
  apply bool_decide_eq_true_1 in Hin. split; [|exact Hk].
  apply list_elem_of_In. exact Hin.
Qed.

(** X29.  [generate] posts only checked requests: whenever a call gets as
    far as the post, the model is a supported chat model, exactly one of
    [prompt] and [messages] was given (a prompt stands for one user
    message), the messages are a non-empty list of valid messages, the
    payload carries that model, those messages and only keyword arguments
    of the allowed names, and, when the registry declares a context
    window, the messages count to a number that with [max_tokens] does not
    exceed it. *)
Theorem generate_posts_only_checked_requests (hd : TextGenerationHandler)
    (rl : RateLimitHandler) (w : World) (model : string)
    (prompt : option string) (messages : option (list pyobj))
    (max_tokens : option Z) (kwargs : gmap string pyval)
    (payload : Payload) (r : result string) :
  snd (generate tk post hd rl w model prompt messages max_tokens kwargs)
  = Sent payload r ->
  exists msgs : list pyobj,
    ((prompt = None /\ messages = Some msgs)
     \/ (exists p, prompt = Some p /\ messages = None
                   /\ msgs = [message "user" p]))
    /\ is_model_supported (tg_model_registry hd) model = Ok true
    /\ get_type (tg_model_registry hd) model = Ok chat
    /\ msgs <> [] /\ Forall valid_message msgs
    /\ payload_model payload = model
    /\ payload_messages payload = msgs
    /\ (forall k v, payload_params payload !! k = Some v -> In k valid_params)
    /\ (forall cw,
          get_max_tokens (tg_model_registry hd) model = Ok (Some cw) ->
          exists n,
            snd (count_message_tokens tk (tg_token_counter hd) msgs model)
            = Ok n
            /\ n + default 0 max_tokens <= cw).
Proof.
  intros Hsnd.
  destruct (generate tk post hd rl w model prompt messages max_tokens kwargs)
    as [[[hd' rl'] w'] out] eqn:HG.
  cbn [snd] in Hsnd. subst out. revert HG.
  unfold generate.
  destruct (is_model_supported (tg_model_registry hd) model)
    as [[|]|e] eqn:Hs; try discriminate.
  destruct (get_type (tg_model_registry hd) model) as [[|]|e] eqn:Ht;
    try discriminate.
  set (msgs := match prompt with
               | Some p => [message "user" p]
               | None => default [] messages
               end).
  assert (Hshape :
    (exists m, prompt = None /\ messages = Some m /\ msgs = m)
    \/ (exists p, prompt = Some p /\ messages = None
                  /\ msgs = [message "user" p])
    \/ (prompt = None /\ messages = None)
    \/ (exists p m, prompt = Some p /\ messages = Some m)).
  { destruct prompt as [p|], messages as [m|]; cbn in msgs; eauto 10. }
  intros H.
  assert (Hcore :
    match _validate_messages msgs with
    | Ok _ =>
        let '(hd1, checked) :=
          _check_token_limits tk hd msgs model (default 0 max_tokens) in
        match checked with
        | Ok _ =>
            let '(hd2, rl2, w2, limited) :=
              _check_rate_limits tk hd1 rl w msgs model in
            match limited with
            | Ok _ =>
                exists kw, payload = _prepare_payload model msgs kw
            | Raise _ => False
            end
        | Raise _ => False
        end
    | Raise _ => False
    end /\ ((exists m, prompt = None /\ messages = Some m /\ msgs = m)
            \/ (exists p, prompt = Some p /\ messages = None
                          /\ msgs = [message "user" p]))).
  { destruct Hshape as [(m & -> & -> & Hm)|[(p & -> & -> & Hm)
                        |[[-> ->]|(p & m & -> & ->)]]];
      try discriminate.
    - split; [|left; eauto]. revert H. fold msgs.
      destruct (_validate_messages msgs); [|discriminate].
      destruct (_check_token_limits tk hd msgs model (default 0 max_tokens))
        as [hd1 [u|e]]; [|discriminate].
      destruct (_check_rate_limits tk hd1 rl w msgs model)
        as [[[hd2 rl2] w2] [u2|e]]; [|discriminate].
      destruct (post _) as [body [hs|]|e];
        [destruct (update_from_headers rl2 (clock w2) hs) as [rl3 [u3|e]]| |];
        intros [= <- <- <- <- <-]; eexists; reflexivity.
    - split; [|right; eauto]. revert H. fold msgs.
      destruct (_validate_messages msgs); [|discriminate].
      destruct (_check_token_limits tk hd msgs model (default 0 max_tokens))
        as [hd1 [u|e]]; [|discriminate].
      destruct (_check_rate_limits tk hd1 rl w msgs model)
        as [[[hd2 rl2] w2] [u2|e]]; [|discriminate].
      destruct (post _) as [body [hs|]|e];
        [destruct (update_from_headers rl2 (clock w2) hs) as [rl3 [u3|e]]| |];
        intros [= <- <- <- <- <-]; eexists; reflexivity. }
  destruct Hcore as [Hcore Hsh].
  destruct (_validate_messages msgs) as [[]|] eqn:Hv; [|contradiction].
  pose proof (check_token_limits_passed hd msgs model (default 0 max_tokens))
    as Hlim.
  destruct (_check_token_limits tk hd msgs model (default 0 max_tokens))
    as [hd1 [[]|e]]; [|contradiction].
  destruct (_check_rate_limits tk hd1 rl w msgs model)
    as [[[hd2 rl2] w2] [u2|e]]; [|contradiction].
  destruct Hcore as [kw ->].
  destruct (validate_messages_valid msgs Hv) as [Hne Hall].
  exists msgs. split.
  { destruct Hsh as [(m & -> & -> & Hm)|(p & -> & -> & Hm)];
      [left; split; [reflexivity|f_equal; symmetry; exact Hm]
      |right; eauto]. }
  repeat split; try assumption; try reflexivity.
  - intros k v Hk. apply (prepare_payload_params _ _ _ _ _ Hk).
  - intros cw Hcw. apply Hlim; [reflexivity|exact Hcw].
Qed.


(** X30.  A response is returned only if the tracker accepts its
    headers: when [generate] has posted the payload and the API answered
    with a body and headers, the call returns the body exactly when the
    headers are not empty and every count header parses; otherwise the
    response is lost and the call raises what [update_from_headers]
    raised, unwrapped: the [ValidationError] for [headers] when they are
    empty, a [LockError] when a count does not parse.  A count parses
    when [int()] accepts it, for header values of code points below 256
    as [requests] delivers them. *)
Theorem generate_returns_response_iff_headers_parse
    (hd : TextGenerationHandler) (rl : RateLimitHandler) (w : World)
    (model : string) (prompt : option string)
    (messages : option (list pyobj)) (max_tokens : option Z)
    (kwargs : gmap string pyval) (payload : Payload) (r : result string)
    (body : string) (headers : gmap string string) :
  snd (generate tk post hd rl w model prompt messages max_tokens kwargs)
  = Sent payload r ->
  post payload = ApiResponse body (Some headers) ->
  (r = Ok body <-> headers <> ∅ /\ counts_parse headers)
  /\ (forall e, r = Raise e ->
      (headers = ∅ /\ e = ValidationError "headers")
      \/ (headers <> ∅ /\ exists cause, e = LockError cause)).
Proof.
  intros Hsnd.
  destruct (generate tk post hd rl w model prompt messages max_tokens kwargs)
    as [[[hd' rl'] w'] out] eqn:HG.
  cbn [snd] in Hsnd. subst out. revert HG.
  unfold generate.
  destruct (is_model_supported (tg_model_registry hd) model)
    as [[|]|e] eqn:Hs; try discriminate.
  destruct (get_type (tg_model_registry hd) model) as [[|]|e] eqn:Ht;
    try discriminate.
  set (msgs := match prompt with
               | Some p => [message "user" p]
               | None => default [] messages
               end).
  assert (Hcore :
    forall out,
      match _validate_messages msgs with
      | Ok _ =>
          let '(hd1, checked) :=
            _check_token_limits tk hd msgs model (default 0 max_tokens) in
          match checked with
          | Ok _ =>
              let '(hd2, rl2, w2, limited) :=
                _check_rate_limits tk hd1 rl w msgs model in
              match limited with
              | Ok _ => out hd2 rl2 w2
              | Raise e => (hd2, rl2, w2, Rejected e)
              end
          | Raise e => (hd1, rl, w, Rejected e)
          end
      | Raise e => (hd, rl, w, Rejected e)
      end = (hd', rl', w', Sent payload r) ->
      exists hd2 rl2 w2, out hd2 rl2 w2 = (hd', rl', w', Sent payload r)).
  { intros out.
    destruct (_validate_messages msgs); [|discriminate].
    destruct (_check_token_limits tk hd msgs model (default 0 max_tokens))
      as [hd1 [u|e]]; [|discriminate].
    destruct (_check_rate_limits tk hd1 rl w msgs model)
      as [[[hd2 rl2] w2] [u2|e]]; [|discriminate].
    intros H. exists hd2, rl2, w2. exact H. }
  intros H Hpost.
  assert (Hout : exists rl2 now,
            (let '(rl3, updated) := update_from_headers rl2 now headers in
             match updated with
             | Ok _ => Ok body
             | Raise e => Raise (reraised model e)
             end) = r).
  { destruct prompt as [p|], messages as [m|]; try discriminate;
      apply Hcore in H as (hd2 & rl2 & w2 & H); cbv beta zeta in H;
      match type of H with
      | context [post ?pl] =>
          destruct (post pl) as [body0 [hs|]|e] eqn:Hp
      end;
      try (destruct (update_from_headers rl2 (clock w2) hs)
             as [rl3 [u3|e]] eqn:Hu);
      injection H as <- <- <- <- <-; rewrite Hpost in Hp;
      try discriminate; injection Hp as <- <-;
      exists rl2, (clock w2); rewrite Hu; reflexivity. }
  destruct Hout as (rl2 & now & <-).
  destruct (update_from_headers rl2 now headers) as [rl3 [[]|e]] eqn:Hu.
  - split.
    + split; [intros _|reflexivity]. split.
      * intros ->. unfold update_from_headers in Hu.
        destruct (decide (∅ = ∅)); [discriminate|contradiction].
      * intros key v Hin Hk Hv.
        pose proof (update_from_headers_unparsable rl2 now headers key v
                      Hin Hk Hv) as Hbad.
        rewrite Hu in Hbad. discriminate.
    + intros e [=].
  - assert (Hg : (headers = ∅ /\ e = ValidationError "headers")
                 \/ (headers <> ∅ /\ exists cause, e = LockError cause)).
    { unfold update_from_headers in Hu.
      destruct (decide (headers = ∅)) as [Hnil|Hne].
      - injection Hu as _ <-. left. split; [assumption|reflexivity].
      - cbv zeta in Hu.
        match type of Hu with
        | context [match ?b rl2 with _ => _ end] =>
            destruct (b rl2) as [h1 [u|e1]]
        end.
        + destruct (_ || _); discriminate.
        + injection Hu as _ <-. right. split; [assumption|eauto]. }
    assert (Hsame : reraised model e = e).
    { unfold reraised.
      destruct Hg as [[_ ->]|[_ [cause ->]]]; reflexivity. }
    rewrite Hsame. split.
    + split; [discriminate|]. intros [Hne Hparse].
      destruct (update_from_headers_parsed rl2 now headers Hne Hparse)
        as (h1 & Hok & _). rewrite Hok in Hu. discriminate.
    + intros e0 [= <-]. exact Hg.
Qed.

End GenerateProperties.

Lemma check_rate_limits_delays_never_refuses_witness :
  let now := clock at_1000 in
  let h := lazy_reset now token_tracker in
  let wait := computed_wait h now in
  let hd' :=
    {| tg_model_registry := tg_model_registry demo_handler;
       tg_token_counter :=
         fst (count_message_tokens char_tiktoken
                (tg_token_counter demo_handler) message_of_90
                "llama3-8b-8192") |} in
  snd (count_message_tokens char_tiktoken (tg_token_counter demo_handler)
         message_of_90 "llama3-8b-8192") = Ok 90
  /\ (admits h 90 1 0 ->
      _check_rate_limits char_tiktoken demo_handler token_tracker at_1000
        message_of_90 "llama3-8b-8192" = (hd', h, at_1000, Ok tt))
  /\ (~ admits h 90 1 0 -> (wait <= 300)%Q ->
      _check_rate_limits char_tiktoken demo_handler token_tracker at_1000
        message_of_90 "llama3-8b-8192"
      = (hd', lazy_reset (now + wait)%Q h, time_sleep wait at_1000, Ok tt))
  /\ (~ admits h 90 1 0 -> (300 < wait)%Q ->
      _check_rate_limits char_tiktoken demo_handler token_tracker at_1000
        message_of_90 "llama3-8b-8192"
      = (hd', h, at_1000,
         Raise (TextGenerationError "llama3-8b-8192"
                  (LockError (RateLimitExceeded "RATE_LIMIT_WAIT_TOO_LONG"
                                (Some wait)))))).
Proof.
  split; [exact message_of_90_counts_90|].
  exact (check_rate_limits_delays_never_refuses char_tiktoken demo_handler
           token_tracker at_1000 message_of_90 "llama3-8b-8192" 90
           message_of_90_counts_90).
Defined.

Lemma generate_posts_only_checked_requests_witness :
  snd (generate char_tiktoken (echo_api None) demo_handler
         RateLimitHandler_init at_1000 "llama3-8b-8192" (Some "Hello") None
         (Some 10) ∅)
  = Sent hello_payload (Ok "ok")
  /\ exists msgs : list pyobj,
       msgs = [message "user" "Hello"]
       /\ payload_messages hello_payload = msgs
       /\ Forall valid_message msgs
       /\ forall cw,
            get_max_tokens (tg_model_registry demo_handler) "llama3-8b-8192"
            = Ok (Some cw) ->
            exists n,
              snd (count_message_tokens char_tiktoken
                     (tg_token_counter demo_handler) msgs "llama3-8b-8192")
              = Ok n
              /\ n + 10 <= cw.
Proof.
  assert (H : snd (generate char_tiktoken (echo_api None) demo_handler
                     RateLimitHandler_init at_1000 "llama3-8b-8192"
                     (Some "Hello") None (Some 10) ∅)
              = Sent hello_payload (Ok "ok")) by (vm_compute; reflexivity).
  split; [exact H|].
  destruct (generate_posts_only_checked_requests char_tiktoken (echo_api None)
              demo_handler RateLimitHandler_init at_1000 "llama3-8b-8192"
              (Some "Hello") None (Some 10) ∅ hello_payload (Ok "ok") H)
    as (msgs & Hshape & _ & _ & _ & Hall & _ & Hmsgs & _ & Hlim).
  exists msgs.
  destruct Hshape as [[Hp _]|(p & Hp & _ & Hm)]; [discriminate|].
  injection Hp as <-. repeat split; assumption.
Defined.

Lemma generate_returns_response_iff_headers_parse_witness :
  (snd (generate char_tiktoken (echo_api (Some ∅)) demo_handler
          RateLimitHandler_init at_1000 "llama3-8b-8192" (Some "Hello") None
          (Some 10) ∅)
   = Sent hello_payload (Raise (ValidationError "headers"))
   /\ echo_api (Some ∅) hello_payload = ApiResponse "ok" (Some ∅))
  /\ (Raise (ValidationError "headers") = Ok "ok"
      <-> (∅ : gmap string string) <> ∅ /\ counts_parse ∅)
  /\ (forall e, Raise (ValidationError "headers") = (Raise e : result string) ->
      ((∅ : gmap string string) = ∅ /\ e = ValidationError "headers")
      \/ ((∅ : gmap string string) <> ∅ /\ exists cause, e = LockError cause)).
Proof.
  assert (H : snd (generate char_tiktoken (echo_api (Some ∅)) demo_handler
                     RateLimitHandler_init at_1000 "llama3-8b-8192"
                     (Some "Hello") None (Some 10) ∅)
              = Sent hello_payload (Raise (ValidationError "headers")))
    by (vm_compute; reflexivity).
  assert (H' : echo_api (Some ∅) hello_payload = ApiResponse "ok" (Some ∅))
    by reflexivity.
  split; [split; assumption|].
  exact (generate_returns_response_iff_headers_parse char_tiktoken
           (echo_api (Some ∅)) demo_handler RateLimitHandler_init at_1000
           "llama3-8b-8192" (Some "Hello") None (Some 10) ∅ hello_payload
           (Raise (ValidationError "headers")) "ok" ∅ H H').
Defined.
